(** * YourInfo: the server-side profiling pipeline (server/ai-profiler.ts)

    A shallow embedding of the inference pipeline: the two Redis connections
    with their cooldown, the per-user rate limiter, the profile and auction
    caches, the Grok / MiMo / rule-based fallback chain, the unique-visitor
    tracker and the shutdown of the connections.  Module-level mutable
    variables of the TypeScript file become fields of a [World] record that
    is threaded through a small state-and-exception monad; everything
    outside the process (the clock, the Redis server, the two HTTP providers,
    the JSON codec of the runtime) is supplied by an [Env] record, so every
    statement below holds for every behaviour of those collaborators unless
    it says otherwise. *)

From Stdlib Require Import ZArith QArith Qminmax String Ascii List Lia Bool Sorted.
From stdpp Require Import gmap strings list pretty.

Open Scope Z_scope.
Set Warnings "-register-all".

(** ** JavaScript values *)

(** A JS number: a finite double is read as the rational it denotes. *)
Inductive jsnum :=
| Num (q : Q)
| NaN
| PosInf
| NegInf.

(** The values [JSON.parse] can produce, which are also the values a profile
    object is made of.  An object keeps its fields in insertion order. *)
Inductive jsval :=
| JNull
| JBool (b : bool)
| JNumber (n : jsnum)
| JString (s : string)
| JArray (items : list jsval)
| JObject (fields : list (string * jsval)).

Definition jint (z : Z) : jsval := JNumber (Num (inject_Z z)).
Definition jstrings (l : list string) : jsval := JArray (map JString l).

(** [if (v)] on a JS value. *)
Definition truthy (v : jsval) : bool :=
  match v with
  | JNull => false
  | JBool b => b
  | JNumber (Num q) => negb (Qeq_bool q 0)
  | JNumber NaN => false
  | JNumber _ => true
  | JString s => negb (String.eqb s "")
  | JArray _ => true
  | JObject _ => true
  end.

(** [if (s)] on a string that may be [undefined] or [null]. *)
Definition truthy_str (s : option string) : bool :=
  match s with
  | Some s => negb (String.eqb s "")
  | None => false
  end.

(** [s || d] on such a string. *)
Definition str_or (s : option string) (d : string) : string :=
  if truthy_str s then default d s else d.

Fixpoint assoc (k : string) (l : list (string * jsval)) : option jsval :=
  match l with
  | [] => None
  | (k', v) :: l' => if String.eqb k k' then Some v else assoc k l'
  end.

(** [v.k] for a non-null [v]; [None] is [undefined]. *)
Definition get_field (v : jsval) (k : string) : option jsval :=
  match v with
  | JObject fs => assoc k fs
  | _ => None
  end.

Fixpoint assoc_set (k : string) (x : jsval) (l : list (string * jsval))
  : list (string * jsval) :=
  match l with
  | [] => [(k, x)]
  | (k', v) :: l' =>
      if String.eqb k k' then (k', x) :: l' else (k', v) :: assoc_set k x l'
  end.

(** [v.k = x] on an object. *)
Definition set_field (v : jsval) (k : string) (x : jsval) : jsval :=
  match v with
  | JObject fs => JObject (assoc_set k x fs)
  | _ => v
  end.

(** [Math.max(0, x)] and [Math.min(100, x)]. *)
Definition Math_max0 (x : jsnum) : jsnum :=
  match x with
  | Num q => Num (Qmax 0 q)
  | NaN => NaN
  | PosInf => PosInf
  | NegInf => Num 0
  end.

Definition Math_min100 (x : jsnum) : jsnum :=
  match x with
  | Num q => Num (Qmin 100 q)
  | NaN => NaN
  | PosInf => Num 100
  | NegInf => NegInf
  end.

(** ** Strings (ASCII; every string is read as its sequence of bytes) *)

Definition lower_ascii (c : ascii) : ascii :=
  let n := N_of_ascii c in
  if ((65 <=? n) && (n <=? 90))%N then ascii_of_N (n + 32) else c.

Fixpoint toLowerCase (s : string) : string :=
  match s with
  | EmptyString => EmptyString
  | String c s' => String (lower_ascii c) (toLowerCase s')
  end.

Definition startsWith (s p : string) : bool := String.prefix p s.

(** [s.includes(p)]. *)
Fixpoint includes (s p : string) : bool :=
  if String.prefix p s then true
  else match s with
       | EmptyString => false
       | String _ s' => includes s' p
       end.

(** [/p1|p2|.../i.test(s)] for literal alternatives. *)
Definition test_any_ci (alts : list string) (s : string) : bool :=
  existsb (fun p => includes (toLowerCase s) (toLowerCase p)) alts.

(** [arr.includes(x)] on an array of strings. *)
Definition arr_includes (arr : list string) (x : string) : bool :=
  existsb (String.eqb x) arr.

Fixpoint join (sep : string) (l : list string) : string :=
  match l with
  | [] => ""
  | [x] => x
  | x :: l' => x +:+ sep +:+ join sep l'
  end.

(** [[c1 && 'l1', c2 && 'l2', ...].filter(Boolean).join(', ')]. *)
Definition detected (l : list (bool * string)) : string :=
  "Detected: " +:+ join ", " (map snd (filter (fun p => fst p = true) l)).

(** ** Rate limiter *)

Definition RATE_LIMIT_WINDOW : Z := 60 * 1000.
Definition RATE_LIMIT_MAX : Z := 2.

Record RateEntry := { count : Z; resetTime : Z }.

(** [checkRateLimit(userId)] at the instant [now = Date.now()], on the map
    [userRateLimits].  [userLimit.count++] mutates the entry held by the map,
    which is an insertion of the updated entry under the same key. *)
Definition checkRateLimit (now : Z) (userId : string)
    (limits : gmap string RateEntry) : bool * gmap string RateEntry :=
  match limits !! userId with
  | Some userLimit =>
      if resetTime userLimit <? now then
        (true, <[userId := {| count := 1; resetTime := now + RATE_LIMIT_WINDOW |}]> limits)
      else if RATE_LIMIT_MAX <=? count userLimit then
        (false, limits)
      else
        (true, <[userId := {| count := count userLimit + 1;
                              resetTime := resetTime userLimit |}]> limits)
  | None =>
      (true, <[userId := {| count := 1; resetTime := now + RATE_LIMIT_WINDOW |}]> limits)
  end.

(** The body of the [setInterval] sweep: entries whose window is over go. *)
Definition sweepRateLimits (now : Z) (limits : gmap string RateEntry)
  : gmap string RateEntry :=
  filter (fun kv => ¬ (resetTime kv.2 < now)) limits.

(** What can happen to the rate-limit map during the life of the process. *)
Inductive RateOp :=
| OpCheck (now : Z) (userId : string)
| OpSweep (now : Z).

Definition runRateOp (limits : gmap string RateEntry) (op : RateOp)
  : gmap string RateEntry :=
  match op with
  | OpCheck now userId => (checkRateLimit now userId limits).2
  | OpSweep now => sweepRateLimits now limits
  end.

(** The map after a history of operations, starting from [new Map()]. *)
Definition rateHistory (ops : list RateOp) : gmap string RateEntry :=
  foldl runRateOp ∅ ops.

(** ** Cache keys *)

Definition getCacheKey (fingerprintId crossBrowserId : string) : string :=
  "yourinfo:profile:" +:+ fingerprintId +:+ ":" +:+ crossBrowserId.

(** ** Requests *)

Record AdvancedBehavior := {
  devToolsOpen : option bool;
  keyboardShortcutsUsed : option (list string);
}.

Record VpnDetection := { likelyUsingVPN : option bool }.

Record SocialLogins := {
  google : option bool;
  facebook : option bool;
  twitter : option bool;
  github : option bool;
}.

(** [Partial<ClientInfo>], restricted to the fields the pipeline reads.
    [None] stands for a field that is absent ([undefined]) or [null]. *)
Record ClientInfo := {
  fingerprintId : option string;
  crossBrowserId : option string;
  fontsDetected : option (list string);
  extensionsDetected : option (list string);
  advancedBehavior : option AdvancedBehavior;
  gamepadsSupported : option bool;
  webglRenderer : option string;
  installedApps : option (list string);
  devicePixelRatio : option Q;
  colorGamut : option string;
  hdrSupported : option bool;
  screenWidth : option Z;
  hardwareConcurrency : option Z;
  deviceMemory : option Q;
  languages : option (list string);
  adBlockerDetected : option bool;
  doNotTrack : option bool;
  globalPrivacyControl : option bool;
  isIncognito : option bool;
  vpnDetection : option VpnDetection;
  maxTouchPoints : option Z;
  platform : option string;
  isAutomated : option bool;
  isHeadless : option bool;
  isVirtualMachine : option bool;
  cryptoWallets : option (list string);
  socialLogins : option SocialLogins;
}.

Record GeoData := {
  city : option string;
  region : option string;
  country : option string;
  isp : option string;
  timezone : option string;
}.

(** [x ?? d]. *)
Definition nullish {A} (x : option A) (d : A) : A := default d x.

(** [xs?.some(p) ?? false]. *)
Definition some_of (xs : option (list string)) (p : string -> bool) : bool :=
  nullish (existsb p <$> xs) false.

Definition pts (c : bool) (n : Z) : Z := if c then n else 0.

(** ** The rule-based fallback profile *)

Definition developerFonts : list string :=
  ["Fira Code"; "JetBrains Mono"; "Source Code Pro"; "Consolas"; "Monaco";
   "Menlo"; "Cascadia Code"; "Hack"].

Definition developerExtensions : list string :=
  ["react devtools"; "vue devtools"; "redux devtools"; "angular devtools"; "vscode"].

Definition generateFallbackProfile (clientInfo : ClientInfo) (geo : option GeoData)
  : jsval :=
  (* Developer detection *)
  let hasDeveloperFonts :=
    some_of (fontsDetected clientInfo) (fun f =>
      existsb (fun df => includes (toLowerCase f) (toLowerCase df)) developerFonts) in
  let hasDeveloperExtensions :=
    some_of (extensionsDetected clientInfo) (fun e =>
      existsb (fun de => includes (toLowerCase e) (toLowerCase de)) developerExtensions) in
  let hasDevToolsOpen := nullish (advancedBehavior clientInfo ≫= devToolsOpen) false in
  let developerScore :=
    Z.min 100 (pts hasDeveloperFonts 40 + pts hasDeveloperExtensions 40
               + pts hasDevToolsOpen 30) in
  let likelyDeveloper := 40 <=? developerScore in
  (* Gamer detection *)
  let hasGamepad := nullish (gamepadsSupported clientInfo) false in
  let hasGamingGPU :=
    test_any_ci ["RTX"; "GTX"; "Radeon RX"; "GeForce"]
                (str_or (webglRenderer clientInfo) "") in
  let hasDiscord :=
    nullish ((fun a => arr_includes a "discord") <$> installedApps clientInfo) false in
  let hasSteam :=
    nullish ((fun a => arr_includes a "steam") <$> installedApps clientInfo) false in
  let gamerScore :=
    Z.min 100 (pts hasGamepad 30 + pts hasGamingGPU 30 + pts hasDiscord 20
               + pts hasSteam 30) in
  let likelyGamer := 40 <=? gamerScore in
  (* Designer detection *)
  let hasHighDPI := Qle_bool 2 (nullish (devicePixelRatio clientInfo) 1%Q) in
  let hasWideGamut :=
    match colorGamut clientInfo with
    | Some g => String.eqb g "p3" || String.eqb g "rec2020"
    | None => false
    end in
  let hasHDR := nullish (hdrSupported clientInfo) false in
  let highResolution := 2560 <=? nullish (screenWidth clientInfo) 0 in
  let designerScore :=
    Z.min 100 (pts hasHighDPI 25 + pts hasWideGamut 25 + pts hasHDR 25
               + pts highResolution 25) in
  let likelyDesigner := 50 <=? designerScore in
  (* Power user detection *)
  let highCores := 8 <=? nullish (hardwareConcurrency clientInfo) 0 in
  let highRAM := Qle_bool 16 (nullish (deviceMemory clientInfo) 0%Q) in
  let multipleLanguages :=
    3 <=? nullish ((fun l => Z.of_nat (length l)) <$> languages clientInfo) 0 in
  let keyboardShortcutsCount :=
    nullish ((fun l => Z.of_nat (length l)) <$>
             (advancedBehavior clientInfo ≫= keyboardShortcutsUsed)) 0 in
  let usesKeyboardShortcuts := 3 <? keyboardShortcutsCount in
  let powerUserScore :=
    Z.min 100 (pts highCores 25 + pts highRAM 25 + pts multipleLanguages 20
               + pts usesKeyboardShortcuts 30) in
  let likelyPowerUser := 50 <=? powerUserScore in
  (* Privacy detection *)
  let hasAdBlocker := nullish (adBlockerDetected clientInfo) false in
  let hasDNT := nullish (doNotTrack clientInfo) false in
  let hasGPC := nullish (globalPrivacyControl clientInfo) false in
  let isIncognito_ := nullish (isIncognito clientInfo) false in
  let hasVPN := nullish (vpnDetection clientInfo ≫= likelyUsingVPN) false in
  let privacyScore :=
    Z.min 100 (pts hasAdBlocker 25 + pts hasDNT 15 + pts hasGPC 20
               + pts isIncognito_ 25 + pts hasVPN 25) in
  let privacyConscious := 40 <=? privacyScore in
  (* Device tier estimation *)
  let ramGB := nullish (deviceMemory clientInfo) 4%Q in
  let cores := nullish (hardwareConcurrency clientInfo) 4 in
  let '(deviceTier, estimatedDeviceValue) :=
    if Qle_bool 32 ramGB || (16 <=? cores) || hasGamingGPU
    then ("premium", "$2,000-$4,000")
    else if Qle_bool 16 ramGB || (8 <=? cores)
    then ("high-end", "$1,000-$2,000")
    else if Qle_bool ramGB 4 && (cores <=? 4)
    then ("budget", "$200-$500")
    else ("mid-range", "$500-$1,000") in
  (* Mobile detection *)
  let likelyMobile :=
    (1 <? nullish (maxTouchPoints clientInfo) 0)
    && test_any_ci ["Mobile"; "Android"; "iPhone"; "iPad"]
                   (str_or (platform clientInfo) "") in
  (* Bot detection *)
  let isAutomated_ := nullish (isAutomated clientInfo) false in
  let isHeadless_ := nullish (isHeadless clientInfo) false in
  let isVM := nullish (isVirtualMachine clientInfo) false in
  let botIndicators :=
    (if isAutomated_ then ["Automation detected"] else [])
    ++ (if isHeadless_ then ["Headless browser"] else [])
    ++ (if isVM then ["Virtual machine"] else []) in
  let humanScore :=
    Z.max 0 (100 - pts isAutomated_ 50 - pts isHeadless_ 30 - pts isVM 20) in
  (* Inferred interests *)
  let hasWallets :=
    match cryptoWallets clientInfo with
    | Some (_ :: _) => true
    | _ => false
    end in
  let hasSocial :=
    match socialLogins clientInfo with
    | Some sl =>
        nullish (google sl) false || nullish (facebook sl) false
        || nullish (twitter sl) false || nullish (github sl) false
    | None => false
    end in
  let inferredInterests :=
    (if likelyDeveloper then ["Software Development"; "Technology"] else [])
    ++ (if likelyGamer then ["Gaming"; "Entertainment"] else [])
    ++ (if likelyDesigner then ["Design"; "Creative Work"] else [])
    ++ (if hasWallets then ["Cryptocurrency"; "Finance"] else [])
    ++ (if hasSocial then ["Social Media"] else []) in
  (* Fraud indicators *)
  let fraudIndicators :=
    (if isAutomated_ then ["Automation detected"] else [])
    ++ (if hasVPN && isIncognito_ then ["VPN + Incognito mode"] else [])
    ++ (if isHeadless_ then ["Headless browser"] else []) in
  let fraudRiskScore := Z.min 100 (Z.of_nat (length fraudIndicators) * 25) in
  JObject [
    ("likelyDeveloper", JBool likelyDeveloper);
    ("developerScore", jint developerScore);
    ("developerReason", JString
       (if likelyDeveloper
        then detected [(hasDeveloperFonts, "coding fonts");
                       (hasDeveloperExtensions, "dev extensions");
                       (hasDevToolsOpen, "DevTools open")]
        else "No strong developer indicators"));
    ("likelyGamer", JBool likelyGamer);
    ("gamerScore", jint gamerScore);
    ("gamerReason", JString
       (if likelyGamer
        then detected [(hasGamingGPU, "gaming GPU"); (hasGamepad, "gamepad support");
                       (hasDiscord, "Discord"); (hasSteam, "Steam")]
        else "No strong gaming indicators"));
    ("likelyDesigner", JBool likelyDesigner);
    ("designerScore", jint designerScore);
    ("designerReason", JString
       (if likelyDesigner
        then detected [(hasHighDPI, "high DPI display"); (hasWideGamut, "wide color gamut");
                       (hasHDR, "HDR support"); (highResolution, "high resolution")]
        else "No strong designer indicators"));
    ("likelyPowerUser", JBool likelyPowerUser);
    ("powerUserScore", jint powerUserScore);
    ("powerUserReason", JString
       (if likelyPowerUser
        then detected [(highCores, "high CPU cores"); (highRAM, "high RAM");
                       (usesKeyboardShortcuts, "keyboard shortcuts")]
        else "Average user setup"));
    ("privacyConscious", JBool privacyConscious);
    ("privacyScore", jint privacyScore);
    ("privacyReason", JString
       (if privacyConscious
        then detected [(hasAdBlocker, "ad blocker"); (hasDNT, "DNT"); (hasGPC, "GPC");
                       (isIncognito_, "incognito"); (hasVPN, "VPN")]
        else "Standard privacy settings"));
    ("deviceTier", JString deviceTier);
    ("estimatedDeviceValue", JString estimatedDeviceValue);
    ("deviceAge", JString "recent");
    ("humanScore", jint humanScore);
    ("botIndicators", jstrings botIndicators);
    ("likelyTechSavvy", JBool (likelyDeveloper || likelyPowerUser || privacyConscious));
    ("likelyMobile", JBool likelyMobile);
    ("likelyWorkDevice", JBool (negb likelyGamer && ((8 <=? cores) || Qle_bool 16 ramGB)));
    ("likelyCountry", JString (str_or (geo ≫= country) "Unknown"));
    ("inferredInterests", jstrings inferredInterests);
    ("fraudRiskScore", jint fraudRiskScore);
    ("fraudIndicators", jstrings fraudIndicators);
    ("personalityTraits",
       jstrings (if likelyDeveloper then ["Analytical"; "Detail-oriented"] else ["Curious"]));
    ("incomeLevel", JString (if String.eqb deviceTier "premium" then "high" else "medium"));
    ("ageRange", JString "25-45");
    ("occupation", JString
       (if likelyDeveloper then "Tech Professional"
        else if likelyDesigner then "Creative Professional" else "Unknown"));
    ("aiGenerated", JBool false)
  ].

(** ** The environment and the state of the process *)

Inductive ConnId := CacheConn | TrackingConn.
Inductive Provider := Grok | MiMo.

(** What [response.json()] followed by [data.choices?.[0]?.message?.content]
    yields.  A content that is not a string is unparsable all the same and
    is covered by a string [JSON.parse] rejects. *)
Inductive HttpBody :=
| BodyUnreadable
| BodyNotJson
| BodyJson (content : option string).

Inductive FetchOutcome :=
| FetchRejects (err : string)
| FetchResponse (ok : bool) (status : Z) (body : HttpBody).

(** Everything the process does not decide.  Time is counted in ticks, one
    per suspension point of the process; what the outside answers at a
    suspension point is a function of the tick at which the process
    resumes.  The prompt sent to a provider is not part of the model: the
    provider's answer is whatever [fetch_result] says. *)
Record Env := {
  (* process.env *)
  GROK_API_KEY : option string;
  OPENROUTER_API_KEY : option string;
  env_REDIS_URL : option string;
  (* the runtime: [None] is a thrown [SyntaxError] *)
  JSON_parse : string -> option jsval;
  JSON_stringify : jsval -> string;
  (* [Number(v)] for a [v] that is a string, an array or an object *)
  ToNumber : jsval -> jsnum;
  (* [Date.now()], in milliseconds, at a tick *)
  clock : nat -> Z;
  (* whether [client.connect()] resolves, whether a command resolves, and
     whether the client emits ['error'] while the process waits *)
  connect_ok : ConnId -> nat -> bool;
  command_ok : nat -> bool;
  error_event : ConnId -> nat -> bool;
  (* what [fetch] gives *)
  fetch_result : Provider -> nat -> FetchOutcome;
}.

Record RedisClient := { url : string; tls : bool; isOpen : bool }.

(** One managed connection: for the cache [redis], [redisConnecting] and
    [redisLastError]; for tracking [trackingRedis], [trackingRedisConnecting]
    and [trackingRedisLastError]. *)
Record Conn := { client : option RedisClient; connecting : bool; lastError : Z }.

(** The trace is a ghost record of the calls a run makes, in order. *)
Inductive Event :=
| EvConnect (c : ConnId) (to : string)
| EvDisconnect (c : ConnId)
| EvGet (key : string)
| EvSetEx (key : string) (ttl : Z) (value : string)
| EvSAdd (key member : string)
| EvSCard (key : string)
| EvRateCheck (userId : string)
| EvFetch (p : Provider)
| EvAccepted (p : Provider) (result : jsval)
| EvCacheProfile (key : string) (profile : jsval)
| EvSetAuctionCache (key : string) (result : jsval).

(** The module-level variables of the process, and the content of the
    Redis server it talks to: string values with the instant at which each
    expires, and sets. *)
Record World := {
  tick : nat;
  cacheConn : Conn;
  trackingConn : Conn;
  userRateLimits : gmap string RateEntry;
  store_strings : gmap string (string * Z);
  store_sets : gmap string (gset string);
  trace : list Event;
}.

Definition set_tick (t : nat) (w : World) : World :=
  {| tick := t; cacheConn := cacheConn w; trackingConn := trackingConn w;
     userRateLimits := userRateLimits w; store_strings := store_strings w;
     store_sets := store_sets w; trace := trace w |}.

Definition conn_of (c : ConnId) (w : World) : Conn :=
  match c with CacheConn => cacheConn w | TrackingConn => trackingConn w end.

Definition set_conn (c : ConnId) (x : Conn) (w : World) : World :=
  {| tick := tick w;
     cacheConn := match c with CacheConn => x | TrackingConn => cacheConn w end;
     trackingConn := match c with CacheConn => trackingConn w | TrackingConn => x end;
     userRateLimits := userRateLimits w; store_strings := store_strings w;
     store_sets := store_sets w; trace := trace w |}.

Definition set_userRateLimits (m : gmap string RateEntry) (w : World) : World :=
  {| tick := tick w; cacheConn := cacheConn w; trackingConn := trackingConn w;
     userRateLimits := m; store_strings := store_strings w;
     store_sets := store_sets w; trace := trace w |}.

Definition set_store_strings (m : gmap string (string * Z)) (w : World) : World :=
  {| tick := tick w; cacheConn := cacheConn w; trackingConn := trackingConn w;
     userRateLimits := userRateLimits w; store_strings := m;
     store_sets := store_sets w; trace := trace w |}.

Definition set_store_sets (m : gmap string (gset string)) (w : World) : World :=
  {| tick := tick w; cacheConn := cacheConn w; trackingConn := trackingConn w;
     userRateLimits := userRateLimits w; store_strings := store_strings w;
     store_sets := m; trace := trace w |}.

Definition log (e : Event) (w : World) : World :=
  {| tick := tick w; cacheConn := cacheConn w; trackingConn := trackingConn w;
     userRateLimits := userRateLimits w; store_strings := store_strings w;
     store_sets := store_sets w; trace := trace w ++ [e] |}.

Definition set_client (r : option RedisClient) (x : Conn) : Conn :=
  {| client := r; connecting := connecting x; lastError := lastError x |}.
Definition set_connecting (b : bool) (x : Conn) : Conn :=
  {| client := client x; connecting := b; lastError := lastError x |}.
Definition set_lastError (t : Z) (x : Conn) : Conn :=
  {| client := client x; connecting := connecting x; lastError := t |}.

(** The process at start-up: no client, no window, nothing logged. *)
Definition boot (strings : gmap string (string * Z)) (sets : gmap string (gset string))
  : World :=
  {| tick := 0%nat;
     cacheConn := {| client := None; connecting := false; lastError := 0 |};
     trackingConn := {| client := None; connecting := false; lastError := 0 |};
     userRateLimits := ∅; store_strings := strings; store_sets := sets;
     trace := [] |}.

(** ** Computations: state of the process, and exceptions *)

Inductive Res (A : Type) :=
| Ret (a : A)
| Throw (err : string).
Arguments Ret {A} a.
Arguments Throw {A} err.

Definition M (A : Type) : Type := World -> Res A * World.

#[global] Instance M_ret : MRet M := fun A a w => (Ret a, w).

#[global] Instance M_bind : MBind M := fun A B k m w =>
  match m w with
  | (Ret a, w') => k a w'
  | (Throw e, w') => (Throw e, w')
  end.

Definition throw {A} (e : string) : M A := fun w => (Throw e, w).

(** [try { m } catch (err) { h err }]. *)
Definition try_catch {A} (m : M A) (h : string -> M A) : M A := fun w =>
  match m w with
  | (Ret a, w') => (Ret a, w')
  | (Throw e, w') => h e w'
  end.

Definition get_world : M World := fun w => (Ret w, w).
Definition modify (f : World -> World) : M unit := fun w => (Ret (), f w).
Definition emit (e : Event) : M unit := modify (log e).
Definition update_conn (c : ConnId) (f : Conn -> Conn) : M unit :=
  modify (fun w => set_conn c (f (conn_of c w)) w).

Section Pipeline.

Variable E : Env.

(** ** Configuration *)

Definition REDIS_URL : string := str_or (env_REDIS_URL E) "redis://localhost:6379".
Definition REDIS_BACKOFF_MS : Z := 5000.
Definition CACHE_TTL : Z := 60 * 60 * 24 * 30.
Definition AUCTION_CACHE_TTL : Z := 60 * 60.
Definition UNIQUE_VISITORS_KEY : string := "yourinfo:unique_visitors".

(** ** What the runtime and the Redis client library do *)

Definition Date_now : M Z := fun w => (Ret (clock E (tick w)), w).

(** A suspension point ([await] of something outside the process): the run
    resumes at the next tick, and the environment's answers are read there. *)
Definition await : M nat := fun w => (Ret (S (tick w)), set_tick (S (tick w)) w).

(** The ['error'] listener registered on each client by [getRedis] and
    [getTrackingRedis]: it stamps the connection's last-error time. *)
Definition on_error (c : ConnId) (t : nat) : M unit :=
  if error_event E c t
  then now ← Date_now; update_conn c (set_lastError now)
  else mret ().

Definition opened (r : RedisClient) : RedisClient :=
  {| url := url r; tls := tls r; isOpen := true |}.

Definition client_connect (c : ConnId) : M unit :=
  emit (EvConnect c REDIS_URL);;
  t ← await;
  on_error c t;;
  if connect_ok E c t
  then update_conn c (fun x => set_client (opened <$> client x) x)
  else throw "Error: connection failed".

Definition live (now : Z) (entry : option (string * Z)) : option string :=
  match entry with
  | Some (v, expiry) => if now <? expiry then Some v else None
  | None => None
  end.

Definition client_get (c : ConnId) (key : string) : M (option string) :=
  emit (EvGet key);;
  t ← await;
  on_error c t;;
  if command_ok E t
  then w ← get_world; now ← Date_now; mret (live now (store_strings w !! key))
  else throw "Error: command failed".

Definition client_setEx (c : ConnId) (key : string) (ttl : Z) (value : string) : M unit :=
  emit (EvSetEx key ttl value);;
  t ← await;
  on_error c t;;
  if command_ok E t
  then now ← Date_now;
       modify (fun w =>
         set_store_strings (<[key := (value, now + ttl * 1000)]> (store_strings w)) w)
  else throw "Error: command failed".

Definition members (key : string) (w : World) : gset string :=
  default ∅ (store_sets w !! key).

Definition client_sAdd (c : ConnId) (key member : string) : M Z :=
  emit (EvSAdd key member);;
  t ← await;
  on_error c t;;
  if command_ok E t
  then w ← get_world;
       if bool_decide (member ∈ members key w) then mret 0
       else modify (set_store_sets (<[key := {[member]} ∪ members key w]> (store_sets w)));;
            mret 1
  else throw "Error: command failed".

Definition client_sCard (c : ConnId) (key : string) : M Z :=
  emit (EvSCard key);;
  t ← await;
  on_error c t;;
  if command_ok E t
  then w ← get_world; mret (Z.of_nat (size (members key w)))
  else throw "Error: command failed".

Definition client_disconnect (c : ConnId) : M unit :=
  emit (EvDisconnect c);;
  t ← await;
  if command_ok E t then mret () else throw "Error: disconnect failed".

(** [setTimeout]-based sleep. *)
Definition sleep (ms : Z) : M unit := _ ← await; mret ().

Definition fetch (p : Provider) : M (bool * Z * HttpBody) :=
  emit (EvFetch p);;
  t ← await;
  match fetch_result E p t with
  | FetchRejects err => throw err
  | FetchResponse ok status body => mret (ok, status, body)
  end.

(** [await response.text()]. *)
Definition response_text (body : HttpBody) : M unit :=
  _ ← await;
  match body with
  | BodyUnreadable => throw "TypeError: body unreadable"
  | _ => mret ()
  end.

(** [await response.json()], then [data.choices?.[0]?.message?.content]. *)
Definition response_content (body : HttpBody) : M (option string) :=
  _ ← await;
  match body with
  | BodyJson content => mret content
  | _ => throw "SyntaxError: unexpected response body"
  end.

(** ** Connection manager *)

(** [reconnectStrategy]: [None] is the [Error] that stops the retries. *)
Definition reconnectStrategy (retries : Z) : option Z :=
  if 5 <? retries then None else Some (Z.min (retries * 200) 2000).

Definition createRedisClient : RedisClient :=
  {| url := REDIS_URL; tls := startsWith REDIS_URL "rediss://"; isOpen := false |}.

Definition is_open (r : option RedisClient) : bool :=
  match r with
  | Some r => isOpen r
  | None => false
  end.

(** The common text of [getRedis] and [getTrackingRedis], which differ in
    the variables they use only. *)
Definition acquire (c : ConnId) : M (option RedisClient) :=
  w ← get_world;
  now ← Date_now;
  if (0 <? lastError (conn_of c w)) && (now - lastError (conn_of c w) <? REDIS_BACKOFF_MS)
  then mret None
  else if is_open (client (conn_of c w)) then mret (client (conn_of c w))
  else if connecting (conn_of c w) then mret None
  else
    try_catch
      (update_conn c (set_connecting true);;
       update_conn c (set_client (Some createRedisClient));;
       client_connect c;;
       update_conn c (set_connecting false);;
       update_conn c (set_lastError 0);;
       w' ← get_world;
       mret (client (conn_of c w')))
      (fun err =>
         update_conn c (set_connecting false);;
         now' ← Date_now;
         update_conn c (set_lastError now');;
         update_conn c (set_client None);;
         mret None).

Definition getRedis : M (option RedisClient) := acquire CacheConn.
Definition getTrackingRedis : M (option RedisClient) := acquire TrackingConn.

(** ** Cache layer for profiles *)

(** The result is [JNull] for [null]. *)
Definition getCachedProfile (cacheKey : string) : M jsval :=
  try_catch
    (client ← getRedis;
     match client with
     | None => mret JNull
     | Some _ =>
         cached ← client_get CacheConn cacheKey;
         if truthy_str cached then
           match JSON_parse E (default "" cached) with
           | Some v => mret v
           | None => throw "SyntaxError: JSON.parse"
           end
         else mret JNull
     end)
    (fun err => mret JNull).

Definition cacheProfile (cacheKey : string) (profile : jsval) : M unit :=
  emit (EvCacheProfile cacheKey profile);;
  try_catch
    (client ← getRedis;
     match client with
     | None => mret ()
     | Some _ => client_setEx CacheConn cacheKey CACHE_TTL (JSON_stringify E profile)
     end)
    (fun err => mret ()).

(** ** Parsing a provider's answer *)

Definition is_ws (c : ascii) : bool :=
  let n := N_of_ascii c in (((9 <=? n) && (n <=? 13)) || (n =? 32))%N.

Fixpoint trimStart (s : string) : string :=
  match s with
  | String c s' => if is_ws c then trimStart s' else s
  | EmptyString => EmptyString
  end.

Fixpoint trimEnd (s : string) : string :=
  match s with
  | String c s' =>
      let r := trimEnd s' in
      if is_ws c && String.eqb r "" then "" else String c r
  | EmptyString => EmptyString
  end.

Definition trim (s : string) : string := trimEnd (trimStart s).

(** [s.slice(n)] and [s.slice(0, -n)]. *)
Definition slice_from (n : nat) (s : string) : string :=
  String.substring n (String.length s - n) s.
Definition slice_to_last (n : nat) (s : string) : string :=
  String.substring 0 (String.length s - n) s.
Definition endsWith (s p : string) : bool :=
  (String.length p <=? String.length s)%nat
  && String.eqb (slice_from (String.length s - String.length p) s) p.

(** [s.replace(/\/\/[^\n]*/g, '')]: [in_comment] holds from a [//] to the
    end of its line. *)
Fixpoint strip_comments (in_comment : bool) (s : string) : string :=
  match s with
  | EmptyString => EmptyString
  | String c s' =>
      if in_comment then
        if Ascii.eqb c "010" then String c (strip_comments false s')
        else strip_comments true s'
      else if Ascii.eqb c "/" && startsWith s' "/" then strip_comments true s'
      else String c (strip_comments false s')
  end.

Fixpoint closes_after_ws (s : string) : bool :=
  match s with
  | EmptyString => false
  | String c s' =>
      if is_ws c then closes_after_ws s' else Ascii.eqb c "}" || Ascii.eqb c "]"
  end.

(** [s.replace(/,\s*([\}\]])/g, '$1')]: [dropping] holds between a matched
    comma and the bracket that closes the match. *)
Fixpoint strip_trailing_commas (dropping : bool) (s : string) : string :=
  match s with
  | EmptyString => EmptyString
  | String c s' =>
      if dropping then
        if is_ws c then strip_trailing_commas true s'
        else String c (strip_trailing_commas false s')
      else if Ascii.eqb c "," && closes_after_ws s' then strip_trailing_commas true s'
      else String c (strip_trailing_commas false s')
  end.

Definition clean_response (response : string) : string :=
  let cleaned := trim response in
  let cleaned := if startsWith cleaned "```json" then slice_from 7 cleaned else cleaned in
  let cleaned := if startsWith cleaned "```" then slice_from 3 cleaned else cleaned in
  let cleaned := if endsWith cleaned "```" then slice_to_last 3 cleaned else cleaned in
  let cleaned := trim cleaned in
  let cleaned := strip_comments false cleaned in
  strip_trailing_commas false cleaned.

(** [parsed.k ?? d]. *)
Definition field_or (parsed : jsval) (k : string) (d : jsval) : jsval :=
  match get_field parsed k with
  | Some JNull | None => d
  | Some v => v
  end.

(** The number [Math.max] and [Math.min] see in a value. *)
Definition as_number (v : jsval) : jsnum :=
  match v with
  | JNumber n => n
  | JBool b => Num (if b then 1 else 0)
  | JNull => Num 0
  | _ => ToNumber E v
  end.

(** [Math.min(100, Math.max(0, v))]. *)
Definition clamp_score (v : jsval) : jsval :=
  JNumber (Math_min100 (Math_max0 (as_number v))).

Inductive SpreadRule := IfTruthy | IfDefined.

(** [...(parsed.k && { k: parsed.k })], or with [parsed.k !== undefined]. *)
Definition spread (parsed : jsval) (kr : string * SpreadRule) : list (string * jsval) :=
  match get_field parsed kr.1, kr.2 with
  | Some v, IfTruthy => if truthy v then [(kr.1, v)] else []
  | Some v, IfDefined => [(kr.1, v)]
  | None, _ => []
  end.

Definition extendedFields : list (string * SpreadRule) :=
  [("personalityTraits", IfTruthy); ("incomeLevel", IfTruthy); ("ageRange", IfTruthy);
   ("occupation", IfTruthy); ("developerReason", IfTruthy); ("gamerReason", IfTruthy);
   ("designerReason", IfTruthy); ("powerUserReason", IfTruthy);
   ("privacyReason", IfTruthy);
   ("relationshipStatus", IfTruthy); ("relationshipReason", IfTruthy);
   ("educationLevel", IfTruthy); ("educationReason", IfTruthy);
   ("politicalLeaning", IfTruthy); ("politicalReason", IfTruthy);
   ("lifeSituation", IfTruthy); ("financialHealth", IfTruthy);
   ("financialReason", IfTruthy); ("workStyle", IfTruthy); ("workReason", IfTruthy);
   ("sleepSchedule", IfTruthy); ("sleepReason", IfTruthy); ("stressLevel", IfTruthy);
   ("stressReason", IfTruthy); ("socialLife", IfTruthy); ("socialReason", IfTruthy);
   ("likelyParent", IfDefined); ("parentReason", IfTruthy); ("petOwner", IfDefined);
   ("petType", IfTruthy); ("homeowner", IfDefined); ("homeReason", IfTruthy);
   ("carOwner", IfDefined); ("carType", IfTruthy); ("healthConscious", IfDefined);
   ("healthReason", IfTruthy); ("dietaryPreference", IfTruthy);
   ("coffeeOrTea", IfTruthy); ("drinksAlcohol", IfDefined); ("smokes", IfDefined);
   ("fitnessLevel", IfTruthy); ("fitnessReason", IfTruthy); ("lifeEvents", IfTruthy);
   ("shoppingHabits", IfTruthy); ("shoppingReason", IfTruthy);
   ("brandPreference", IfTruthy); ("streamingServices", IfTruthy);
   ("musicTaste", IfTruthy); ("travelFrequency", IfTruthy); ("travelReason", IfTruthy);
   ("creepyInsights", IfTruthy)].

(** [None] is the [null] the function returns from its [catch]; reading a
    field of [null] is one of the errors that lead there. *)
Definition parseAIResponse (response : string) : option jsval :=
  match JSON_parse E (clean_response response) with
  | None | Some JNull => None
  | Some parsed =>
      match get_field parsed "likelyDeveloper", get_field parsed "developerScore" with
      | Some (JBool likelyDeveloper), Some (JNumber developerScore) =>
          Some (JObject (
            [("likelyDeveloper", JBool likelyDeveloper);
             ("developerScore", clamp_score (JNumber developerScore));
             ("likelyGamer", field_or parsed "likelyGamer" (JBool false));
             ("gamerScore", clamp_score (field_or parsed "gamerScore" (jint 0)));
             ("likelyDesigner", field_or parsed "likelyDesigner" (JBool false));
             ("designerScore", clamp_score (field_or parsed "designerScore" (jint 0)));
             ("likelyPowerUser", field_or parsed "likelyPowerUser" (JBool false));
             ("powerUserScore", clamp_score (field_or parsed "powerUserScore" (jint 0)));
             ("privacyConscious", field_or parsed "privacyConscious" (JBool false));
             ("privacyScore", clamp_score (field_or parsed "privacyScore" (jint 0)));
             ("deviceTier", field_or parsed "deviceTier" (JString "mid-range"));
             ("estimatedDeviceValue",
                field_or parsed "estimatedDeviceValue" (JString "Unknown"));
             ("deviceAge", field_or parsed "deviceAge" (JString "recent"));
             ("humanScore", clamp_score (field_or parsed "humanScore" (jint 100)));
             ("botIndicators", field_or parsed "botIndicators" (JArray []));
             ("likelyTechSavvy", field_or parsed "likelyTechSavvy" (JBool false));
             ("likelyMobile", field_or parsed "likelyMobile" (JBool false));
             ("likelyWorkDevice", field_or parsed "likelyWorkDevice" (JBool false));
             ("likelyCountry", field_or parsed "likelyCountry" (JString "Unknown"));
             ("inferredInterests", field_or parsed "inferredInterests" (JArray []));
             ("fraudRiskScore", clamp_score (field_or parsed "fraudRiskScore" (jint 0)));
             ("fraudIndicators", field_or parsed "fraudIndicators" (JArray []))]
            ++ concat (map (spread parsed) extendedFields)))
      | _, _ => None
      end
  end.

(** ** The fallback chain for profiles *)

Inductive Source := ai | cache | fallback.

Record ProfileResult := {
  profile : jsval;
  source : Source;
  error : option string;
}.

Record MiMoResult := { mimo_profile : jsval; mimo_error : option string }.

(** A value that may be [undefined], inside a template literal. *)
Definition shown (s : option string) : string := default "undefined" s.

Definition tagged (p : jsval) (aiSource : string) : jsval :=
  set_field (set_field p "aiGenerated" (JBool true)) "aiSource" (JString aiSource).

Definition tryMiMo : M MiMoResult :=
  if negb (truthy_str (OPENROUTER_API_KEY E)) then
    mret {| mimo_profile := JNull; mimo_error := Some "OpenRouter not configured" |}
  else
    try_catch
      ('(ok, status, body) ← fetch MiMo;
       if negb ok then
         response_text body;;
         mret {| mimo_profile := JNull;
                 mimo_error := Some ("MiMo API error: " +:+ pretty status) |}
       else
         mimoText ← response_content body;
         if negb (truthy_str mimoText) then
           mret {| mimo_profile := JNull; mimo_error := Some "Empty MiMo response" |}
         else
           match parseAIResponse (default "" mimoText) with
           | Some mimoProfile =>
               emit (EvAccepted MiMo (tagged mimoProfile "mimo"));;
               mret {| mimo_profile := tagged mimoProfile "mimo"; mimo_error := None |}
           | None =>
               mret {| mimo_profile := JNull;
                       mimo_error := Some "Failed to parse MiMo response" |}
           end)
      (fun err => mret {| mimo_profile := JNull; mimo_error := Some err |}).

Definition checkRateLimitM (userId : string) : M bool :=
  emit (EvRateCheck userId);;
  now ← Date_now;
  w ← get_world;
  modify (set_userRateLimits (checkRateLimit now userId (userRateLimits w)).2);;
  mret (checkRateLimit now userId (userRateLimits w)).1.

(** The step shared by every place where the primary provider has failed:
    try MiMo, write its profile through and return it, or fall back to the
    rules with the given error text. *)
Definition mimoOrFallback (clientInfo : ClientInfo) (geo : option GeoData)
    (cacheKey : string) (err : MiMoResult -> option string) : M ProfileResult :=
  mimoResult ← tryMiMo;
  if truthy (mimo_profile mimoResult) then
    cacheProfile cacheKey (mimo_profile mimoResult);;
    mret {| profile := mimo_profile mimoResult; source := ai; error := None |}
  else
    mret {| profile := generateFallbackProfile clientInfo geo; source := fallback;
            error := err mimoResult |}.

(** [buildPrompt] is left out: it is a total function of the request (its
    one fallible step sits in its own [try]), and its result only travels
    to the provider. *)
Definition generateAIProfile (clientInfo : ClientInfo) (geo : option GeoData)
  : M ProfileResult :=
  let fingerprintId := str_or (fingerprintId clientInfo) "unknown" in
  let crossBrowserId := str_or (crossBrowserId clientInfo) "unknown" in
  let cacheKey := getCacheKey fingerprintId crossBrowserId in
  (* Try cache first *)
  cached ← getCachedProfile cacheKey;
  if truthy cached then mret {| profile := cached; source := cache; error := None |}
  else
  (* If no AI available at all, use rule-based fallback *)
  if negb (truthy_str (GROK_API_KEY E)) && negb (truthy_str (OPENROUTER_API_KEY E)) then
    mret {| profile := generateFallbackProfile clientInfo geo; source := fallback;
            error := Some "No AI configured" |}
  else
  (* Check rate limit (per user) *)
  let userId := fingerprintId +:+ ":" +:+ crossBrowserId in
  allowed ← checkRateLimitM userId;
  if negb allowed then
    mret {| profile := generateFallbackProfile clientInfo geo; source := fallback;
            error := Some "Rate limited" |}
  else
  (* If Grok is not configured, go straight to MiMo *)
  if negb (truthy_str (GROK_API_KEY E)) then
    mimoOrFallback clientInfo geo cacheKey mimo_error
  else
  (* Try Grok first (primary AI) *)
  try_catch
    ('(ok, status, body) ← fetch Grok;
     if negb ok then
       response_text body;;
       mimoOrFallback clientInfo geo cacheKey (fun r =>
         Some ("Grok: " +:+ pretty status +:+ ", MiMo: " +:+ shown (mimo_error r)))
     else
       text ← response_content body;
       if negb (truthy_str text) then
         mimoOrFallback clientInfo geo cacheKey (fun _ => Some "Empty Grok response")
       else
         match parseAIResponse (default "" text) with
         | None =>
             mimoOrFallback clientInfo geo cacheKey
               (fun _ => Some "Failed to parse Grok response")
         | Some profile =>
             emit (EvAccepted Grok (tagged profile "grok"));;
             cacheProfile cacheKey (tagged profile "grok");;
             mret {| profile := tagged profile "grok"; source := ai; error := None |}
         end)
    (fun err =>
       mimoOrFallback clientInfo geo cacheKey (fun r =>
         Some ("Grok: " +:+ err +:+ ", MiMo: " +:+ shown (mimo_error r)))).

(** ** Unique-visitor tracking *)

(** One turn of the retry loop of [trackUniqueVisitor]: [Some b] when the
    turn returns [b], [None] when the loop goes on. *)
Definition trackAttempt (maxRetries attempt : Z) (visitorKey : string) : M (option bool) :=
  try_catch
    (client ← getTrackingRedis;
     match client with
     | None =>
         if attempt <? maxRetries then sleep (100 * attempt);; mret None
         else mret (Some false)
     | Some _ =>
         added ← client_sAdd TrackingConn UNIQUE_VISITORS_KEY visitorKey;
         mret (Some (added =? 1))
     end)
    (fun err =>
       (* Reset connection on error to force reconnect *)
       w ← get_world;
       match client (trackingConn w) with
       | Some _ =>
           try_catch (client_disconnect TrackingConn) (fun _ => mret ());;
           update_conn TrackingConn (set_client None)
       | None => mret ()
       end;;
       (if attempt <? maxRetries then sleep (100 * attempt) else mret ());;
       mret None).

(** The [for] loop from [attempt] on, with [turns] turns left, and the
    [return false] that follows it. *)
Fixpoint trackLoop (turns : nat) (maxRetries attempt : Z) (visitorKey : string) : M bool :=
  match turns with
  | O => mret false
  | S turns' =>
      r ← trackAttempt maxRetries attempt visitorKey;
      match r with
      | Some b => mret b
      | None => trackLoop turns' maxRetries (attempt + 1) visitorKey
      end
  end.

Definition trackUniqueVisitor (fingerprintId crossBrowserId : string) : M bool :=
  let visitorKey := fingerprintId +:+ ":" +:+ crossBrowserId in
  let maxRetries := 3 in
  trackLoop (Z.to_nat maxRetries) maxRetries 1 visitorKey.

Definition countAttempt (maxRetries attempt : Z) : M (option Z) :=
  try_catch
    (client ← getTrackingRedis;
     match client with
     | None =>
         if attempt <? maxRetries then sleep 100;; mret None
         else mret (Some 0)
     | Some _ =>
         n ← client_sCard TrackingConn UNIQUE_VISITORS_KEY;
         mret (Some n)
     end)
    (fun err =>
       (if attempt <? maxRetries then sleep 100 else mret ());;
       mret None).

Fixpoint countLoop (turns : nat) (maxRetries attempt : Z) : M Z :=
  match turns with
  | O => mret 0
  | S turns' =>
      r ← countAttempt maxRetries attempt;
      match r with
      | Some n => mret n
      | None => countLoop turns' maxRetries (attempt + 1)
      end
  end.

Definition getTotalUniqueVisitors : M Z :=
  let maxRetries := 2 in
  countLoop (Z.to_nat maxRetries) maxRetries 1.

(** ** Auctions *)

Definition base64_alphabet : string :=
  "ABCDEFGHIJKLMNOPQRSTUVWXYZabcdefghijklmnopqrstuvwxyz0123456789+/".

Definition sextet (n : N) : ascii :=
  default "="%char (String.get (N.to_nat (n mod 64)) base64_alphabet).

(** [Buffer.from(s).toString('base64')], [s] being the bytes of the text. *)
Fixpoint base64 (s : string) : string :=
  match s with
  | String a (String b (String c rest)) =>
      let n := (N_of_ascii a * 65536 + N_of_ascii b * 256 + N_of_ascii c)%N in
      String (sextet (n / 262144)) (String (sextet (n / 4096))
        (String (sextet (n / 64)) (String (sextet n) (base64 rest))))
  | String a (String b EmptyString) =>
      let n := (N_of_ascii a * 65536 + N_of_ascii b * 256)%N in
      String (sextet (n / 262144)) (String (sextet (n / 4096))
        (String (sextet (n / 64)) "="))
  | String a EmptyString =>
      let n := (N_of_ascii a * 65536)%N in
      String (sextet (n / 262144)) (String (sextet (n / 4096)) "==")
  | EmptyString => EmptyString
  end.

(** [s.slice(0, n)]. *)
Definition slice_to (n : nat) (s : string) : string := String.substring 0 n s.

Definition auctionCacheKey (profileSummary countryCode : string) : string :=
  let profileHash := slice_to 32 (base64 profileSummary) in
  "yourinfo:auction:" +:+ profileHash +:+ ":" +:+ countryCode.

(** [s.replace(/```(?:json)?\n?/g, '')]: [skip] counts the characters of
    the current match that are still to be dropped. *)
Fixpoint strip_fences (skip : nat) (s : string) : string :=
  match s with
  | EmptyString => EmptyString
  | String c s' =>
      match skip with
      | S k => strip_fences k s'
      | O =>
          if startsWith s "```" then
            let after := slice_from 3 s in
            let n1 := if startsWith after "json" then 4%nat else 0%nat in
            let after := slice_from n1 after in
            let n2 := if startsWith after (String "010" "") then 1%nat else 0%nat in
            strip_fences (2 + n1 + n2) s'
          else String c (strip_fences 0 s')
      end
  end.

(** [null] is [None]; a result is the object
    [{ bids, valueFactors, source }]. *)
Definition parseAuctionResponse (text : string) : option jsval :=
  let cleaned := trim text in
  let cleaned :=
    if startsWith cleaned "```" then trim (strip_fences 0 cleaned) else cleaned in
  match JSON_parse E cleaned with
  | None | Some JNull => None
  | Some parsed =>
      match get_field parsed "bids" with
      | Some (JArray bids) =>
          Some (JObject
            [("bids", JArray bids);
             ("valueFactors",
                match get_field parsed "valueFactors" with
                | Some v => if truthy v then v else JArray []
                | None => JArray []
                end);
             ("source", JString "grok")])
      | _ => None
      end
  end.

Definition getAuctionCache (cacheKey : string) : M jsval :=
  try_catch
    (client ← getRedis;
     match client with
     | None => mret JNull
     | Some _ =>
         cached ← client_get CacheConn cacheKey;
         if truthy_str cached then
           match JSON_parse E (default "" cached) with
           | Some v => mret v
           | None => throw "SyntaxError: JSON.parse"
           end
         else mret JNull
     end)
    (fun err => mret JNull).

Definition setAuctionCache (cacheKey : string) (result : jsval) : M unit :=
  emit (EvSetAuctionCache cacheKey result);;
  try_catch
    (client ← getRedis;
     match client with
     | None => mret ()
     | Some _ => client_setEx CacheConn cacheKey AUCTION_CACHE_TTL (JSON_stringify E result)
     end)
    (fun err => mret ()).

(** The provider attempt of the auction path: [Some result] when the
    provider's text parses into an auction. *)
Definition auctionAttempt (p : Provider) (src : string) : M (option jsval) :=
  '(ok, status, body) ← fetch p;
  if negb ok then mret None
  else
    text ← response_content body;
    if negb (truthy_str text) then mret None
    else
      match parseAuctionResponse (default "" text) with
      | Some result =>
          emit (EvAccepted p (set_field result "source" (JString src)));;
          mret (Some (set_field result "source" (JString src)))
      | None => mret None
      end.

Definition tryMiMoAuction : M (option jsval) :=
  if negb (truthy_str (OPENROUTER_API_KEY E)) then mret None
  else try_catch (auctionAttempt MiMo "mimo") (fun err => mret None).

Definition auctionFallback : jsval :=
  JObject [("bids", JArray []); ("valueFactors", JArray []);
           ("source", JString "fallback")].

Definition generateAIAuction (profileSummary country countryCode : string) : M jsval :=
  let cacheKey := auctionCacheKey profileSummary countryCode in
  (* Check cache first *)
  cached ← getAuctionCache cacheKey;
  if truthy cached then mret cached
  else
  (* Try Grok first *)
  fromGrok ←
    (if truthy_str (GROK_API_KEY E) then
       try_catch
         (result ← auctionAttempt Grok "grok";
          match result with
          | Some r => setAuctionCache cacheKey r;; mret (Some r)
          | None => mret None
          end)
         (fun err => mret None)
     else mret None);
  match fromGrok with
  | Some r => mret r
  | None =>
      (* Try MiMo fallback *)
      mimoResult ← tryMiMoAuction;
      match mimoResult with
      | Some r => setAuctionCache cacheKey r;; mret r
      | None => mret auctionFallback
      end
  end.

End Pipeline.

(** * Vocabulary of the statements *)

(** The line feed, which a string literal cannot hold. *)
Definition newline : string := String "010" "".

(** ** The process-independent parts: rate limiter and keys *)

Definition window_ok (e : RateEntry) : Prop := 1 <= count e <= RATE_LIMIT_MAX.

(** ** Frames: what a computation leaves alone *)

(** [m] moves every world to an [R]-related one, whether it returns or
    throws. *)
Definition preserves (R : World -> World -> Prop) {A} (m : M A) : Prop :=
  forall w, R w (m w).2.

(** A computation that never throws. *)
Definition nothrow {A} (m : M A) : Prop := forall w, exists a w', m w = (Ret a, w').

(** The trace only grows, here by events that all satisfy [P]. *)
Definition extends_by (P : Event -> Prop) (w w' : World) : Prop :=
  exists evs, trace w' = trace w ++ evs /\ Forall P evs.

(** The component [f] of the world is left as it was, and the trace grows by
    events that satisfy [P]. *)
Definition steady {X} (f : World -> X) (P : Event -> Prop) (w w' : World) : Prop :=
  f w' = f w /\ extends_by P w w'.

(** Components of the world that bookkeeping (time, connections, the trace)
    does not touch. *)
Class Static {X} (f : World -> X) := {
  static_tick : forall t w, f (set_tick t w) = f w;
  static_conn : forall c x w, f (set_conn c x w) = f w;
  static_log : forall e w, f (log e w) = f w;
}.

(** Components the cache commands of the store do not touch either. *)
Class StoreBlind {X} (f : World -> X) :=
  blind_store : forall m w, f (set_store_strings m w) = f w.

(** ** One run of the profile chain *)

(** Events that neither accept a provider's answer nor write to the cache. *)
Definition quiet_event (e : Event) : Prop :=
  match e with
  | EvAccepted _ _ | EvCacheProfile _ _ | EvSetEx _ _ _ | EvSetAuctionCache _ _ => False
  | _ => True
  end.

(** The events of a cache write once it has been called. *)
Definition store_event (e : Event) : Prop :=
  match e with
  | EvConnect _ _ | EvSetEx _ _ _ => True
  | _ => False
  end.

Abbreviation quiet := (steady store_strings quiet_event).

(** Since [w], provider [p] has been called. *)
Definition contacts (p : Provider) (w w' : World) : Prop :=
  exists evs, trace w' = trace w ++ evs /\ EvFetch p ∈ evs.

(** What a run of the chain that ends in [w'] with [res] did since [w]. *)
Definition run_shape (E : Env) (ci : ClientInfo) (geo : option GeoData) (key : string)
    (w w' : World) (res : ProfileResult) : Prop :=
  truthy (profile res) = true /\
  match source res with
  | cache => getCachedProfile E key w = (Ret (profile res), w')
  | fallback => profile res = generateFallbackProfile ci geo /\ quiet w w'
  | ai =>
      exists pre p post,
        trace w' = trace w ++ pre
                     ++ [EvAccepted p (profile res); EvCacheProfile key (profile res)]
                     ++ post
        /\ Forall quiet_event pre /\ Forall store_event post
        /\ (store_strings w' = store_strings w
            \/ exists expiry,
                 store_strings w'
                 = <[key := (JSON_stringify E (profile res), expiry)]> (store_strings w))
  end.

(** The part of [generateAIProfile] that follows the rate gate. *)
Definition providerChain (E : Env) (clientInfo : ClientInfo) (geo : option GeoData)
    (cacheKey : string) : M ProfileResult :=
  if negb (truthy_str (GROK_API_KEY E)) then
    mimoOrFallback E clientInfo geo cacheKey mimo_error
  else
  try_catch
    ('(ok, status, body) ← fetch E Grok;
     if negb ok then
       response_text body;;
       mimoOrFallback E clientInfo geo cacheKey (fun r =>
         Some ("Grok: " +:+ pretty status +:+ ", MiMo: " +:+ shown (mimo_error r)))
     else
       text ← response_content body;
       if negb (truthy_str text) then
         mimoOrFallback E clientInfo geo cacheKey (fun _ => Some "Empty Grok response")
       else
         match parseAIResponse E (default "" text) with
         | None =>
             mimoOrFallback E clientInfo geo cacheKey
               (fun _ => Some "Failed to parse Grok response")
         | Some profile =>
             emit (EvAccepted Grok (tagged profile "grok"));;
             cacheProfile E cacheKey (tagged profile "grok");;
             mret {| profile := tagged profile "grok"; source := ai; error := None |}
         end)
    (fun err =>
       mimoOrFallback E clientInfo geo cacheKey (fun r =>
         Some ("Grok: " +:+ err +:+ ", MiMo: " +:+ shown (mimo_error r)))).

(** The calls of [cacheProfile] in a stretch of the trace, as (key, profile). *)
Definition cache_writes (evs : list Event) : list (string * jsval) :=
  omap (fun e => match e with EvCacheProfile k v => Some (k, v) | _ => None end) evs.

(** ** Cooldown of a connection *)

Definition is_connect (e : Event) : bool :=
  match e with
  | EvConnect _ _ => true
  | _ => false
  end.

(** The number of [client.connect()] calls in a trace. *)
Definition connect_attempts (evs : list Event) : nat :=
  length (List.filter is_connect evs).

(** Acquisitions made one after the other, the [i]-th when the clock of the
    process stands at tick [ts !! i]. *)
Fixpoint acquire_series (E : Env) (c : ConnId) (ts : list nat) (w : World)
  : list (Res (option RedisClient)) * World :=
  match ts with
  | [] => ([], w)
  | t :: ts' =>
      let '(r, w1) := acquire E c (set_tick t w) in
      let '(rs, w2) := acquire_series E c ts' w1 in
      (r :: rs, w2)
  end.

(** ** Runs against a store that is up *)

(** Redis accepts every connection and every command, and no client
    reports an error. *)
Definition store_up (E : Env) : Prop :=
  forall t, command_ok E t = true
            /\ forall c, connect_ok E c t = true /\ error_event E c t = false.

(** A connection that is not cooling down and that is open, or free to be
    opened. *)
Definition usable (x : Conn) : Prop :=
  lastError x = 0 /\ (is_open (client x) = true \/ connecting x = false).

Definition open_for_use (x : Conn) : Prop :=
  lastError x = 0 /\ is_open (client x) = true.

(** ** Visitor tracking against a store that is up *)

(** Calls of [trackUniqueVisitor] made one after the other for one visitor. *)
Fixpoint track_series (E : Env) (fp cb : string) (n : nat) (w : World)
  : list (Res bool) * World :=
  match n with
  | O => ([], w)
  | S n' =>
      let '(r, w1) := trackUniqueVisitor E fp cb w in
      let '(rs, w2) := track_series E fp cb n' w1 in
      (r :: rs, w2)
  end.

(** ** Cache hits *)

(** Events that are no call to a provider. *)
Definition no_fetch (e : Event) : Prop :=
  match e with
  | EvFetch _ => False
  | _ => True
  end.

(** ** One run of the auction chain *)

Definition lookup_event (key : string) (e : Event) : Prop :=
  match e with
  | EvConnect CacheConn _ => True
  | EvGet k => k = key
  | _ => False
  end.

Definition chain_event (e : Event) : Prop :=
  match e with
  | EvFetch _ | EvAccepted _ _ => True
  | _ => False
  end.

(** The write-through that ends a run: none, or one call of
    [setAuctionCache] with the key and the result returned. *)
Definition auction_write (key : string) (r : jsval) (chain write : list Event) : Prop :=
  write = []
  \/ exists p post,
       EvAccepted p r ∈ chain
       /\ write = EvSetAuctionCache key r :: post /\ Forall store_event post.

(** The events of the write-through of an auction run: the connection it
    may have to open, and the [SETEX] of the result under the request's key
    for [AUCTION_CACHE_TTL] seconds. *)
Definition auction_store_event (E : Env) (key : string) (r : jsval) (e : Event) : Prop :=
  match e with
  | EvConnect CacheConn to => to = REDIS_URL E
  | EvSetEx k ttl str => k = key /\ ttl = AUCTION_CACHE_TTL /\ str = JSON_stringify E r
  | _ => False
  end.

(** One call of [setAuctionCache] with the key and the result. *)
Definition auction_write_through (E : Env) (key : string) (r : jsval)
    (write : list Event) : Prop :=
  exists post,
    write = EvSetAuctionCache key r :: post /\ Forall (auction_store_event E key r) post.

(** The call of a provider, made when its key is configured. *)
Definition called (E : Env) (p : Provider) : list Event :=
  match p with
  | Grok => if truthy_str (GROK_API_KEY E) then [EvFetch Grok] else []
  | MiMo => if truthy_str (OPENROUTER_API_KEY E) then [EvFetch MiMo] else []
  end.

(** What an auction run does once the lookup has missed.  Grok is called
    when its key is configured, and an answer of Grok that is accepted ends
    the chain; otherwise MiMo is called when its key is configured.  The
    result a provider is accepted with is written through and returned;
    with no answer accepted nothing is written and the empty auction is
    returned. *)
Definition auction_chain (E : Env) (key : string) (r : jsval)
    (chain write : list Event) : Prop :=
  (truthy_str (GROK_API_KEY E) = true
   /\ chain = [EvFetch Grok; EvAccepted Grok r]
   /\ auction_write_through E key r write)
  \/ (truthy_str (OPENROUTER_API_KEY E) = true
      /\ chain = called E Grok ++ [EvFetch MiMo; EvAccepted MiMo r]
      /\ auction_write_through E key r write)
  \/ (r = auctionFallback
      /\ chain = called E Grok ++ called E MiMo
      /\ write = []).

(** What follows the primary attempt when it has produced nothing. *)
Definition mimoAuctionTail (E : Env) (cacheKey : string) : M jsval :=
  mimoResult ← tryMiMoAuction E;
  match mimoResult with
  | Some r => setAuctionCache E cacheKey r;; mret r
  | None => mret auctionFallback
  end.

(** ** Concrete environments and requests, for the examples *)

Definition demo_clock (t : nat) : Z := 1700000000000 + 1000 * Z.of_nat t.

(** What the codec makes of the two provider answers the examples use. *)
Definition rawProfile : jsval :=
  JObject [("likelyDeveloper", JBool true); ("developerScore", jint 80)].

Definition rawAuction : jsval :=
  JObject [("bids", JArray [JObject [("bidder", JString "Google Ads");
                                     ("cpm", JNumber (Num (29 # 20)));
                                     ("status", JString "bid");
                                     ("reason", JString "Cross-platform data")]])].

Definition demo_parse (stored : string -> option jsval) (s : string) : option jsval :=
  if String.eqb s "<profile answer>" then Some rawProfile
  else if String.eqb s "<auction answer>" then Some rawAuction
  else stored s.

Definition demo_stringify (v : jsval) : string :=
  match v with
  | JObject (("bids", _) :: _) => "<stored auction>"
  | _ => "<stored profile>"
  end.

Definition demo_env (stored : string -> option jsval)
    (redisUrl grokKey routerKey : option string) (redisUp : bool)
    (grok mimo : FetchOutcome) : Env :=
  {| GROK_API_KEY := grokKey;
     OPENROUTER_API_KEY := routerKey;
     env_REDIS_URL := redisUrl;
     JSON_parse := demo_parse stored;
     JSON_stringify := demo_stringify;
     ToNumber := fun _ => NaN;
     clock := demo_clock;
     connect_ok := fun _ _ => redisUp;
     command_ok := fun _ => redisUp;
     error_event := fun _ _ => false;
     fetch_result := fun p _ => match p with Grok => grok | MiMo => mimo end |}.

Definition unreachable : FetchOutcome := FetchRejects "TypeError: fetch failed".
Definition answers (text : string) : FetchOutcome :=
  FetchResponse true 200 (BodyJson (Some text)).

(** The profile and the auction that the two answers are parsed into. *)
Definition storedProfile : jsval :=
  Eval vm_compute in
    tagged (default JNull
              (parseAIResponse
                 (demo_env (fun _ => None) None None None false unreachable unreachable)
                 "<profile answer>")) "grok".

Definition storedAuction : jsval :=
  Eval vm_compute in
    default JNull
      (parseAuctionResponse
         (demo_env (fun _ => None) None None None false unreachable unreachable)
         "<auction answer>").

Definition demo_stored (s : string) : option jsval :=
  if String.eqb s "<stored profile>" then Some storedProfile
  else if String.eqb s "<stored auction>" then Some storedAuction
  else None.

Definition demoEnv := demo_env demo_stored.

Definition noClientInfo : ClientInfo :=
  {| fingerprintId := None; crossBrowserId := None; fontsDetected := None;
     extensionsDetected := None; advancedBehavior := None; gamepadsSupported := None;
     webglRenderer := None; installedApps := None; devicePixelRatio := None;
     colorGamut := None; hdrSupported := None; screenWidth := None;
     hardwareConcurrency := None; deviceMemory := None; languages := None;
     adBlockerDetected := None; doNotTrack := None; globalPrivacyControl := None;
     isIncognito := None; vpnDetection := None; maxTouchPoints := None;
     platform := None; isAutomated := None; isHeadless := None;
     isVirtualMachine := None; cryptoWallets := None; socialLogins := None |}.

(** A request that carries the two identity strings and nothing else. *)
Definition visitor (fp cb : option string) : ClientInfo :=
  {| fingerprintId := fp; crossBrowserId := cb; fontsDetected := None;
     extensionsDetected := None; advancedBehavior := None; gamepadsSupported := None;
     webglRenderer := None; installedApps := None; devicePixelRatio := None;
     colorGamut := None; hdrSupported := None; screenWidth := None;
     hardwareConcurrency := None; deviceMemory := None; languages := None;
     adBlockerDetected := None; doNotTrack := None; globalPrivacyControl := None;
     isIncognito := None; vpnDetection := None; maxTouchPoints := None;
     platform := None; isAutomated := None; isHeadless := None;
     isVirtualMachine := None; cryptoWallets := None; socialLogins := None |}.

(** A gamer's request with no identity strings. *)
Definition anonymousGamer : ClientInfo :=
  {| fingerprintId := None; crossBrowserId := Some ""; fontsDetected := None;
     extensionsDetected := None; advancedBehavior := None; gamepadsSupported := Some true;
     webglRenderer := Some "NVIDIA GeForce RTX 4090"; installedApps := Some ["steam"];
     devicePixelRatio := None;
     colorGamut := None; hdrSupported := None; screenWidth := None;
     hardwareConcurrency := Some 16; deviceMemory := None; languages := None;
     adBlockerDetected := None; doNotTrack := None; globalPrivacyControl := None;
     isIncognito := None; vpnDetection := None; maxTouchPoints := None;
     platform := None; isAutomated := None; isHeadless := None;
     isVirtualMachine := None; cryptoWallets := None; socialLogins := None |}.

(** Three consecutive profile requests. *)
Definition three_calls (E : Env) (c1 c2 c3 : ClientInfo) (w : World)
  : list (Res ProfileResult) * World :=
  let '(r1, w1) := generateAIProfile E c1 None w in
  let '(r2, w2) := generateAIProfile E c2 None w1 in
  let '(r3, w3) := generateAIProfile E c3 None w2 in
  ([r1; r2; r3], w3).

Definition source_of (r : Res ProfileResult) : option Source :=
  match r with
  | Ret res => Some (source res)
  | Throw _ => None
  end.

(** ** The auction path has no rate gate *)

Definition auctionDemoEnv : Env :=
  demoEnv (Some "redis://cache:6379") (Some "xai-key") (Some "or-key") true
          (answers "<auction answer>") (answers "<auction answer>").

Definition profileDemoEnv : Env :=
  demoEnv (Some "redis://cache:6379") (Some "xai-key") (Some "or-key") true
          (answers "<profile answer>") (answers "<profile answer>").

(** ** Runs against a store that cannot be reached *)

(** No connection to Redis can be established. *)
Definition store_down (E : Env) : Prop := forall c t, connect_ok E c t = false.

(** A connection with nothing in the way of a new attempt. *)
Definition free_to_connect (x : Conn) : Prop :=
  lastError x = 0 /\ is_open (client x) = false /\ connecting x = false.

(** ** REDIS_URL left unset *)

Definition localRedisEnv : Env :=
  demoEnv None (Some "xai-key") (Some "or-key") true
          (answers "<profile answer>") (answers "<profile answer>").

Definition coldStartEnv : Env := demoEnv None None None false unreachable unreachable.

(** ** The rate gate of the profile chain *)

(** Checks made for one caller at the given instants, one after the other. *)
Fixpoint run_checks (userId : string) (nows : list Z) (limits : gmap string RateEntry)
  : list bool * gmap string RateEntry :=
  match nows with
  | [] => ([], limits)
  | now :: nows' =>
      let '(b, limits1) := checkRateLimit now userId limits in
      let '(bs, limits2) := run_checks userId nows' limits1 in
      (b :: bs, limits2)
  end.

Definition starts_window (now : Z) (entry : option RateEntry) : Prop :=
  match entry with
  | Some e => resetTime e < now
  | None => True
  end.

Definition configured (E : Env) : Prop :=
  truthy_str (GROK_API_KEY E) = true \/ truthy_str (OPENROUTER_API_KEY E) = true.

Definition offlineDemoEnv : Env :=
  demoEnv (Some "redis://cache:6379") (Some "xai-key") (Some "or-key") false
          (answers "<profile answer>") (answers "<profile answer>").

(** A process in which the caller [fp1:hw1] has used up a window that is
    still open. *)
Definition exhaustedWorld : World :=
  set_userRateLimits {[ "fp1:hw1" := {| count := 2; resetTime := 1700000060000 |} ]}
                     (boot ∅ ∅).

(** ** The keys a profile request uses *)

(** The calls a profile request may make, given its cache key and its
    rate-limit bucket. *)
Definition profile_event (E : Env) (key userId : string) (e : Event) : Prop :=
  match e with
  | EvConnect CacheConn to => to = REDIS_URL E
  | EvGet k => k = key
  | EvRateCheck u => u = userId
  | EvFetch _ | EvAccepted _ _ => True
  | EvCacheProfile k _ => k = key
  | EvSetEx k ttl _ => k = key /\ ttl = CACHE_TTL
  | _ => False
  end.

Definition nothing (w : World) : unit := ().

(** The process after a first request without identity has been answered
    by Grok. *)
Definition afterFirstAnonymous : World :=
  (generateAIProfile profileDemoEnv noClientInfo None (boot ∅ ∅)).2.

(** Two visitors whose requests carry a fingerprint id and no
    cross-browser id. *)
Definition aliceOnly : ClientInfo := visitor (Some "alice") None.

Definition bobOnly : ClientInfo := visitor (Some "bob") None.

(** The process after the request of the first has been answered by Grok. *)
Definition afterAlice : World :=
  (generateAIProfile profileDemoEnv aliceOnly None (boot ∅ ∅)).2.

Definition afterFirstAuction : World :=
  (generateAIAuction auctionDemoEnv "Developer, premium device, Toronto" "Canada" "CA"
                     (boot ∅ ∅)).2.

(** ** Further witnesses *)

(** The cache connection failed at 1700000000000, the present instant. *)
Definition coolingWorld : World :=
  set_conn CacheConn {| client := None; connecting := false; lastError := 1700000000000 |}
           (boot ∅ ∅).

(** ** The limiter over a history *)

Definition op_time (op : RateOp) : Z :=
  match op with
  | OpCheck now _ => now
  | OpSweep now => now
  end.

(** The answers [userId] gets along a history of operations on the map. *)
Fixpoint verdicts (userId : string) (ops : list RateOp) (limits : gmap string RateEntry)
  : list bool :=
  match ops with
  | [] => []
  | OpCheck now u :: ops' =>
      if String.eqb u userId
      then (checkRateLimit now u limits).1 :: verdicts userId ops' (checkRateLimit now u limits).2
      else verdicts userId ops' (checkRateLimit now u limits).2
  | OpSweep now :: ops' => verdicts userId ops' (sweepRateLimits now limits)
  end.

(** The instants of the checks of [userId] in a history. *)
Definition own_checks (userId : string) (ops : list RateOp) : list Z :=
  omap (fun op => match op with
                  | OpCheck now u => if String.eqb u userId then Some now else None
                  | OpSweep _ => None
                  end) ops.

(** The number of calls a list of answers lets through. *)
Definition allowed (bs : list bool) : nat := length (List.filter id bs).

(** What a check at instant [t] sees of an entry. *)
Definition alive (t : Z) (entry : option RateEntry) : option RateEntry :=
  match entry with
  | Some e => if resetTime e <? t then None else Some e
  | None => None
  end.

(** The most calls the entry of a caller can still let through before and
    inside the next window. *)
Definition headroom (entry : option RateEntry) : nat :=
  match entry with
  | Some e => Z.to_nat (RATE_LIMIT_MAX - count e) + Z.to_nat RATE_LIMIT_MAX
  | None => Z.to_nat RATE_LIMIT_MAX
  end.

(** A history in which two callers and the sweep interleave. *)
Definition mixedHistory : list RateOp :=
  [OpCheck 0 "a"; OpCheck 10 "b"; OpCheck 20 "a"; OpCheck 30 "a"; OpSweep 60001;
   OpCheck 60002 "b"; OpCheck 70000 "a"].

(** Three checks within three milliseconds, around the end of a window
    opened at instant 0. *)
Definition burstInstants : list Z := [60000; 60001; 60002].

(** ** Shutdown, and connections that fail *)

Section Shutdown.

Variable E : Env.

Definition closed (r : RedisClient) : RedisClient :=
  {| url := url r; tls := tls r; isOpen := false |}.

(** [await client.quit()]: the client stops being open when the call is
    made, before the command is sent; the promise is rejected when the
    server does not acknowledge, and at once on a client that is not open.
    The trace keeps no record of it. *)
Definition client_quit (c : ConnId) : M unit :=
  w ← get_world;
  if negb (is_open (client (conn_of c w)))
  then throw "ClientClosedError: The client is closed"
  else
    update_conn c (fun x => set_client (closed <$> client x) x);;
    t ← await;
    on_error E c t;;
    if command_ok E t then mret () else throw "Error: quit failed".

(** Each client that is open is quit, the cache client first; nothing
    catches a quit that is rejected. *)
Definition closeRedis : M unit :=
  w ← get_world;
  (if is_open (client (cacheConn w)) then client_quit CacheConn else mret ());;
  w' ← get_world;
  if is_open (client (trackingConn w')) then client_quit TrackingConn else mret ().

End Shutdown.

(** A connection after a failed attempt made at instant [now]. *)
Definition failed_at (now : Z) : Conn :=
  {| client := None; connecting := false; lastError := now |}.

(** Redis refuses the connections attempted at the first tick and accepts
    every later one. *)
Definition lateRedisEnv : Env :=
  {| GROK_API_KEY := None; OPENROUTER_API_KEY := None; env_REDIS_URL := None;
     JSON_parse := demo_parse demo_stored; JSON_stringify := demo_stringify;
     ToNumber := fun _ => NaN; clock := demo_clock;
     connect_ok := fun _ t => (2 <=? t)%nat; command_ok := fun _ => true;
     error_event := fun _ _ => false;
     fetch_result := fun _ _ => unreachable |}.

(** The process once both connections have been opened. *)
Definition connectedWorld : World :=
  (getTrackingRedis localRedisEnv (getRedis localRedisEnv (boot ∅ ∅)).2).2.

(** ** The two sides of the process *)

(** What the profile and auction paths leave alone: the tracking connection
    and the sets of the store. *)
Definition cache_side (w w' : World) : Prop :=
  trackingConn w' = trackingConn w /\ store_sets w' = store_sets w.

(** What visitor tracking leaves alone: the cache connection, the strings
    of the store and the rate-limit map. *)
Definition tracking_side (w w' : World) : Prop :=
  cacheConn w' = cacheConn w /\ store_strings w' = store_strings w
  /\ userRateLimits w' = userRateLimits w.

(** ** What a lookup returns *)

(** What a cache lookup makes of the entry it finds under its key at
    instant [now]: the entry must not have expired, must not be the empty
    string and must parse. *)
Definition cached_value (E : Env) (now : Z) (entry : option (string * Z)) : jsval :=
  match live now entry with
  | Some s => if String.eqb s "" then JNull else default JNull (JSON_parse E s)
  | None => JNull
  end.

(** A store that still holds a profile whose time to live ran out. *)
Definition staleWorld : World :=
  boot {[ "yourinfo:profile:fp1:hw1" := ("<stored profile>", 1600000000000) ]} ∅.

(** ** Base64 *)

(** The 64 values a sextet can take. *)
Definition sextets : list N := map N.of_nat (seq 0 64).

(** ** The shape of a profile *)

(** The fields every [UserProfile] must carry. *)
Definition coreFields : list string :=
  ["likelyDeveloper"; "developerScore"; "likelyGamer"; "gamerScore"; "likelyDesigner";
   "designerScore"; "likelyPowerUser"; "powerUserScore"; "privacyConscious";
   "privacyScore"; "deviceTier"; "estimatedDeviceValue"; "deviceAge"; "humanScore";
   "botIndicators"; "likelyTechSavvy"; "likelyMobile"; "likelyWorkDevice";
   "likelyCountry"; "inferredInterests"; "fraudRiskScore"; "fraudIndicators"].

Definition scoreFields : list string :=
  ["developerScore"; "gamerScore"; "designerScore"; "powerUserScore"; "privacyScore";
   "humanScore"; "fraudRiskScore"].

(** A score after [Math.min(100, Math.max(0, x))]: a number between 0 and
    100, or [NaN] when [x] was no number. *)
Definition clamped (v : jsval) : Prop :=
  match v with
  | JNumber (Num q) => (0 <= q)%Q /\ (q <= 100)%Q
  | JNumber NaN => True
  | _ => False
  end.

(** ** What a run can return *)

(** Every value [m] can return satisfies [Q]. *)
Definition returns {A} (Q : A -> Prop) (m : M A) : Prop :=
  forall w a w', m w = (Ret a, w') -> Q a.

(** A profile made from a provider's answer: the parsed answer, tagged with
    the provider that gave it. *)
Definition ai_profile (E : Env) (v : jsval) : Prop :=
  exists text p src,
    parseAIResponse E text = Some p /\ (src = "grok" \/ src = "mimo") /\ v = tagged p src.

Definition well_tagged (E : Env) (ci : ClientInfo) (geo : option GeoData)
    (res : ProfileResult) : Prop :=
  match source res with
  | cache => error res = None
  | ai => error res = None /\ ai_profile E (profile res)
  | fallback => is_Some (error res) /\ profile res = generateFallbackProfile ci geo
  end.

(** What [tryMiMo] hands back: a profile from MiMo, or [null] with the
    reason. *)
Definition mimo_outcome (E : Env) (r : MiMoResult) : Prop :=
  (mimo_profile r = JNull /\ is_Some (mimo_error r))
  \/ (ai_profile E (mimo_profile r) /\ mimo_error r = None).

(** An auction result as the provider chain builds it. *)
Definition auction_shape (E : Env) (r : jsval) : Prop :=
  exists bids valueFactors src,
    r = JObject [("bids", JArray bids); ("valueFactors", valueFactors);
                 ("source", JString src)]
    /\ ((src = "grok" /\ truthy_str (GROK_API_KEY E) = true)
        \/ (src = "mimo" /\ truthy_str (OPENROUTER_API_KEY E) = true)
        \/ (src = "fallback" /\ bids = [] /\ valueFactors = JArray [])).

(** ** Checks against the limiter *)

(** The buckets checked against the limiter in a stretch of the trace. *)
Definition rate_checks (evs : list Event) : list string :=
  omap (fun e => match e with EvRateCheck u => Some u | _ => None end) evs.

(** Events that are no check against the limiter. *)
Definition no_rate_check (e : Event) : Prop :=
  match e with
  | EvRateCheck _ => False
  | _ => True
  end.

(** ** Provider calls *)

(** The providers called in a stretch of the trace, in order. *)
Definition fetches (evs : list Event) : list Provider :=
  omap (fun e => match e with EvFetch p => Some p | _ => None end) evs.

(** Whether the key of a provider is configured. *)
Definition keyed (E : Env) (p : Provider) : bool :=
  match p with
  | Grok => truthy_str (GROK_API_KEY E)
  | MiMo => truthy_str (OPENROUTER_API_KEY E)
  end.

(** Events that neither call a provider nor accept an answer of Grok. *)
Definition after_grok (e : Event) : Prop :=
  match e with
  | EvFetch _ | EvAccepted Grok _ => False
  | _ => True
  end.

(** The calls a run may make to the providers: each at most once, Grok
    before MiMo. *)
Definition call_pattern (ps : list Provider) : Prop :=
  ps = [] \/ ps = [Grok] \/ ps = [MiMo] \/ ps = [Grok; MiMo].

(** The events of an attempt on MiMo: none when its key is not configured,
    otherwise one call followed by what comes of it. *)
Definition mimo_call (E : Env) (evs : list Event) : Prop :=
  (keyed E MiMo = false /\ evs = [])
  \/ (keyed E MiMo = true
      /\ exists rest, evs = EvFetch MiMo :: rest /\ Forall after_grok rest).

(** The events of the provider chain: with the key of Grok configured, one
    call to Grok, followed by the acceptance of its answer or by the
    attempt on MiMo. *)
Definition chain_calls (E : Env) (evs : list Event) : Prop :=
  (keyed E Grok = false /\ mimo_call E evs)
  \/ (keyed E Grok = true
      /\ exists rest, evs = EvFetch Grok :: rest
           /\ ((exists v rest', rest = EvAccepted Grok v :: rest' /\ Forall after_grok rest')
               \/ mimo_call E rest)).

(** ** Commands that fail *)



(** The cache client reports an error while the command that resolves at
    the second tick is pending; the command itself succeeds. *)
Definition noisyEnv : Env :=
  {| GROK_API_KEY := None; OPENROUTER_API_KEY := None; env_REDIS_URL := None;
     JSON_parse := demo_parse demo_stored; JSON_stringify := demo_stringify;
     ToNumber := fun _ => NaN; clock := demo_clock;
     connect_ok := fun _ _ => true; command_ok := fun _ => true;
     error_event := fun c t => match c with CacheConn => (t =? 2)%nat | _ => false end;
     fetch_result := fun _ _ => unreachable |}.

(** A store that holds a fresh profile, and a process whose cache
    connection is open. *)
Definition warmWorld : World :=
  (getRedis localRedisEnv
     (boot {[ "yourinfo:profile:fp1:hw1" := ("<stored profile>", 1800000000000) ]} ∅)).2.


(** * Properties *)

(** ** The model on concrete inputs *)

Example base64_rfc4648 :
  base64 "" = "" /\ base64 "foob" = "Zm9vYg==" /\ base64 "fooba" = "Zm9vYmE="
  /\ base64 "foobar" = "Zm9vYmFy".
Proof. repeat split. Qed.

Example auctionCacheKey_example :
  auctionCacheKey "Developer, premium device, Toronto" "CA"
  = "yourinfo:auction:RGV2ZWxvcGVyLCBwcmVtaXVtIGRldmlj:CA".
Proof. reflexivity. Qed.

Example getCacheKey_example : getCacheKey "abc" "def" = "yourinfo:profile:abc:def".
Proof. reflexivity. Qed.

Example strip_trailing_commas_example :
  strip_trailing_commas false "[1, 2, ] {a: [3,4,], }" = "[1, 2] {a: [3,4]}".
Proof. reflexivity. Qed.

Example strip_comments_example :
  strip_comments false ("{a: 1, // score" +:+ newline +:+ " b: 2}")
  = "{a: 1, " +:+ newline +:+ " b: 2}".
Proof. reflexivity. Qed.

Example clean_response_example :
  clean_response ("  ```json" +:+ newline +:+ "{a: 1,}" +:+ newline +:+ "```  ") = "{a: 1}".
Proof. reflexivity. Qed.

Example strip_fences_example :
  strip_fences 0 ("```json" +:+ newline +:+ "{}" +:+ newline +:+ "```") = "{}" +:+ newline.
Proof. reflexivity. Qed.

Example gaming_gpu_example :
  test_any_ci ["RTX"; "GTX"; "Radeon RX"; "GeForce"] "NVIDIA geforce rtx 3060" = true
  /\ test_any_ci ["RTX"; "GTX"; "Radeon RX"; "GeForce"] "Apple M3 Max" = false.
Proof. split; reflexivity. Qed.

Example reconnectStrategy_example :
  reconnectStrategy 3 = Some 600 /\ reconnectStrategy 5 = Some 1000
  /\ reconnectStrategy 6 = None.
Proof. repeat split. Qed.

(** Two windows of one caller: the call at the reset time itself still
    belongs to the first. *)
Example run_checks_example :
  (run_checks "u" [0; 10; 60000; 60001; 60002; 60003] ∅).1
  = [true; true; false; true; true; false].
Proof. vm_compute. reflexivity. Qed.

Example generateFallbackProfile_example :
  get_field (generateFallbackProfile anonymousGamer None) "gamerScore" = Some (jint 90)
  /\ get_field (generateFallbackProfile anonymousGamer None) "gamerReason"
     = Some (JString "Detected: gaming GPU, gamepad support, Steam")
  /\ get_field (generateFallbackProfile anonymousGamer None) "deviceTier"
     = Some (JString "premium")
  /\ get_field (generateFallbackProfile anonymousGamer None) "likelyWorkDevice"
     = Some (JBool false).
Proof. repeat split; vm_compute; reflexivity. Qed.

(** ** The process-independent parts: rate limiter and keys *)

Lemma checkRateLimit_keeps_windows now userId limits :
  map_Forall (fun _ e => window_ok e) limits ->
  map_Forall (fun _ e => window_ok e) (checkRateLimit now userId limits).2.
Proof.
  intros Hall. unfold checkRateLimit.
  destruct (limits !! userId) as [e|] eqn:Hlook.
  - pose proof (Hall _ _ Hlook) as He. unfold window_ok, RATE_LIMIT_MAX in *.
    destruct (resetTime e <? now); simpl.
    + apply map_Forall_insert_2; [simpl; lia | done].
    + destruct (2 <=? count e) eqn:Hmax; simpl; [done|].
      apply Z.leb_gt in Hmax.
      apply map_Forall_insert_2; [simpl; lia | done].
  - simpl. apply map_Forall_insert_2; [unfold window_ok, RATE_LIMIT_MAX; simpl; lia | done].
Qed.

Lemma sweepRateLimits_keeps_windows now limits :
  map_Forall (fun _ e => window_ok e) limits ->
  map_Forall (fun _ e => window_ok e) (sweepRateLimits now limits).
Proof.
  intros Hall k e Hk. unfold sweepRateLimits in Hk.
  apply map_lookup_filter_Some in Hk as [Hk _]. by eapply Hall.
Qed.

Lemma rateHistory_windows_from limits ops :
  map_Forall (fun _ e => window_ok e) limits ->
  map_Forall (fun _ e => window_ok e) (foldl runRateOp limits ops).
Proof.
  revert limits. induction ops as [|op ops IH]; intros limits Hall; simpl; [done|].
  apply IH. destruct op as [now userId|now]; simpl.
  - by apply checkRateLimit_keeps_windows.
  - by apply sweepRateLimits_keeps_windows.
Qed.

(** C7: over any history of rate-limit checks and sweeps, starting from the
    empty map, every window holds a count between 1 and the maximum, which
    is 2; a check made after a window's reset time (or for a caller that has
    no window) replaces the window by one with count 1 that ends one window
    length (60 s) later, and is allowed; a check made inside a window only
    ever increments its count, keeps its reset time, and is allowed exactly
    while the count is below the maximum. *)
Theorem rate_window_invariant :
  (forall ops userId e,
      rateHistory ops !! userId = Some e -> 1 <= count e <= RATE_LIMIT_MAX)
  /\ RATE_LIMIT_MAX = 2 /\ RATE_LIMIT_WINDOW = 60000
  /\ (forall now userId limits e,
         limits !! userId = Some e -> resetTime e < now ->
         checkRateLimit now userId limits
         = (true, <[userId := {| count := 1; resetTime := now + RATE_LIMIT_WINDOW |}]> limits))
  /\ (forall now userId limits,
         limits !! userId = None ->
         checkRateLimit now userId limits
         = (true, <[userId := {| count := 1; resetTime := now + RATE_LIMIT_WINDOW |}]> limits))
  /\ (forall now userId limits e,
         limits !! userId = Some e -> now <= resetTime e ->
         checkRateLimit now userId limits
         = if count e <? RATE_LIMIT_MAX
           then (true, <[userId := {| count := count e + 1; resetTime := resetTime e |}]> limits)
           else (false, limits)).
Proof.
  split; [|split; [reflexivity|split; [reflexivity|split; [|split]]]].
  - intros ops userId e He.
    exact (rateHistory_windows_from ∅ ops (map_Forall_empty _) userId e He).
  - intros now userId limits e He Hlate. unfold checkRateLimit. rewrite He.
    apply Z.ltb_lt in Hlate. by rewrite Hlate.
  - intros now userId limits He. unfold checkRateLimit. by rewrite He.
  - intros now userId limits e He Hin. unfold checkRateLimit. rewrite He.
    assert ((resetTime e <? now) = false) as -> by (apply Z.ltb_ge; lia).
    destruct (RATE_LIMIT_MAX <=? count e) eqn:Hmax.
    + apply Z.leb_le in Hmax.
      assert ((count e <? RATE_LIMIT_MAX) = false) as -> by (apply Z.ltb_ge; lia). done.
    + apply Z.leb_gt in Hmax.
      assert ((count e <? RATE_LIMIT_MAX) = true) as -> by (apply Z.ltb_lt; lia). done.
Qed.

(** ** Frames: what a computation leaves alone *)

Section Frames.

Context (R : World -> World -> Prop) `{!PreOrder R}.

Lemma preserves_ret {A} (a : A) : preserves R (mret a).
Proof. intros w. simpl. reflexivity. Qed.

Lemma preserves_throw {A} e : preserves R (@throw A e).
Proof. intros w. simpl. reflexivity. Qed.

Lemma preserves_get_world : preserves R get_world.
Proof. intros w. simpl. reflexivity. Qed.

Lemma preserves_bind {A B} (m : M A) (k : A -> M B) :
  preserves R m -> (forall a, preserves R (k a)) -> preserves R (m ≫= k).
Proof.
  intros Hm Hk w. specialize (Hm w). unfold mbind, M_bind.
  destruct (m w) as [[a|e] w1]; simpl in *; [|done].
  etransitivity; [exact Hm | apply Hk].
Qed.

Lemma preserves_try_catch {A} (m : M A) (h : string -> M A) :
  preserves R m -> (forall e, preserves R (h e)) -> preserves R (try_catch m h).
Proof.
  intros Hm Hh w. specialize (Hm w). unfold try_catch.
  destruct (m w) as [[a|e] w1]; simpl in *; [done|].
  etransitivity; [exact Hm | apply Hh].
Qed.

Lemma preserves_modify (f : World -> World) :
  (forall w, R w (f w)) -> preserves R (modify f).
Proof. intros Hf w. apply Hf. Qed.

End Frames.

Lemma nothrow_ret {A} (a : A) : nothrow (mret a).
Proof. intros w. by eexists _, _. Qed.

Lemma nothrow_bind {A B} (m : M A) (k : A -> M B) :
  nothrow m -> (forall a, nothrow (k a)) -> nothrow (m ≫= k).
Proof.
  intros Hm Hk w. destruct (Hm w) as (a & w1 & Ha).
  unfold mbind, M_bind. rewrite Ha. apply Hk.
Qed.

Lemma nothrow_try_catch {A} (m : M A) (h : string -> M A) :
  (forall e, nothrow (h e)) -> nothrow (try_catch m h).
Proof.
  intros Hh w. unfold try_catch. destruct (m w) as [[a|e] w1]; [by eexists _, _|].
  apply Hh.
Qed.

Lemma nothrow_modify f : nothrow (modify f).
Proof. intros w. by eexists _, _. Qed.

#[global] Instance extends_by_preorder P : PreOrder (extends_by P).
Proof.
  split.
  - intros w. exists []. by rewrite app_nil_r.
  - intros w1 w2 w3 (evs1 & Ht1 & HP1) (evs2 & Ht2 & HP2).
    exists (evs1 ++ evs2). split; [by rewrite Ht2, Ht1, app_assoc | by apply Forall_app].
Qed.

#[global] Instance steady_preorder {X} (f : World -> X) P : PreOrder (steady f P).
Proof.
  split.
  - intros w. split; [done | reflexivity].
  - intros w1 w2 w3 [Hf1 He1] [Hf2 He2]. split; [congruence | by etransitivity].
Qed.

#[global] Instance static_store_strings : Static store_strings.
Proof. by split. Qed.
#[global] Instance static_userRateLimits : Static userRateLimits.
Proof. by split. Qed.
#[global] Instance static_store_sets : Static store_sets.
Proof. by split. Qed.

Section PrimitiveFrames.

Context (E : Env) {X} (f : World -> X) `{!Static f} (P : Event -> Prop).

Lemma steady_here w w' : f w' = f w -> trace w' = trace w -> steady f P w w'.
Proof. intros Hf Ht. split; [done|]. exists []. by rewrite app_nil_r. Qed.

Lemma steady_Date_now : preserves (steady f P) (Date_now E).
Proof. intros w. reflexivity. Qed.

Lemma steady_await : preserves (steady f P) await.
Proof. intros w. simpl. apply steady_here; [apply static_tick | done]. Qed.

Lemma steady_emit e : P e -> preserves (steady f P) (emit e).
Proof.
  intros He w. simpl. split; [apply static_log|].
  exists [e]. split; [done | by constructor].
Qed.

Lemma steady_update_conn c g : preserves (steady f P) (update_conn c g).
Proof. intros w. simpl. apply steady_here; [apply static_conn | by destruct c]. Qed.

Lemma steady_on_error c t : preserves (steady f P) (on_error E c t).
Proof.
  unfold on_error. destruct (error_event E c t); [|apply preserves_ret; apply _].
  apply preserves_bind; [apply _ | apply steady_Date_now | intros; apply steady_update_conn].
Qed.

Lemma steady_sleep ms : preserves (steady f P) (sleep ms).
Proof.
  unfold sleep. apply preserves_bind; [apply _ | apply steady_await |].
  intros. apply preserves_ret; apply _.
Qed.

Lemma steady_response_text body : preserves (steady f P) (response_text body).
Proof.
  unfold response_text. apply preserves_bind; [apply _ | apply steady_await |].
  intros. destruct body; (apply preserves_ret || apply preserves_throw); apply _.
Qed.

Lemma steady_response_content body : preserves (steady f P) (response_content body).
Proof.
  unfold response_content. apply preserves_bind; [apply _ | apply steady_await |].
  intros. destruct body; (apply preserves_ret || apply preserves_throw); apply _.
Qed.

End PrimitiveFrames.

#[global] Instance blind_userRateLimits : StoreBlind userRateLimits.
Proof. by intros m w. Qed.
#[global] Instance blind_store_sets : StoreBlind store_sets.
Proof. by intros m w. Qed.

(** Splits a goal [preserves R m] along the structure of [m]; [frame_leaf]
    closes the calls that have a lemma of their own. *)
Ltac frame_leaf := fail.

Ltac frame_step :=
  lazymatch goal with
  | |- PreOrder _ => apply _
  | |- Static _ => apply _
  | |- StoreBlind _ => apply _
  | |- forall _, _ => intros ?
  | |- preserves _ (mret _) => apply preserves_ret
  | |- preserves _ (throw _) => apply preserves_throw
  | |- preserves _ get_world => apply preserves_get_world
  | |- preserves _ (_ ≫= _) => apply preserves_bind
  | |- preserves _ (try_catch _ _) => apply preserves_try_catch
  | |- preserves _ (Date_now _) => apply steady_Date_now
  | |- preserves _ await => apply steady_await
  | |- preserves _ (sleep _) => apply steady_sleep
  | |- preserves _ (emit _) => apply steady_emit
  | |- preserves _ (update_conn _ _) => apply steady_update_conn
  | |- preserves _ (on_error _ _ _) => apply steady_on_error
  | |- preserves _ (response_text _) => apply steady_response_text
  | |- preserves _ (response_content _) => apply steady_response_content
  | |- preserves _ (match ?x with _ => _ end) => destruct x
  | |- preserves _ _ => frame_leaf
  end.

Ltac frame := repeat frame_step; try done.

Section CallFrames.

Context (E : Env) {X} (f : World -> X) `{!Static f} (P : Event -> Prop).

Lemma steady_client_connect c :
  P (EvConnect c (REDIS_URL E)) -> preserves (steady f P) (client_connect E c).
Proof. intros HP. unfold client_connect. frame. Qed.

Lemma steady_client_get c key :
  P (EvGet key) -> preserves (steady f P) (client_get E c key).
Proof. intros HP. unfold client_get. frame. Qed.

Lemma steady_client_setEx `{!StoreBlind f} c key ttl value :
  P (EvSetEx key ttl value) -> preserves (steady f P) (client_setEx E c key ttl value).
Proof.
  intros HP. unfold client_setEx. frame.
  intros w. simpl. apply steady_here; [apply blind_store | done].
Qed.

Lemma steady_fetch p : P (EvFetch p) -> preserves (steady f P) (fetch E p).
Proof. intros HP. unfold fetch. frame. Qed.

Lemma steady_acquire c :
  P (EvConnect c (REDIS_URL E)) -> preserves (steady f P) (acquire E c).
Proof.
  intros HP. unfold acquire. frame. by apply steady_client_connect.
Qed.

Lemma steady_getCachedProfile key :
  P (EvConnect CacheConn (REDIS_URL E)) -> P (EvGet key) ->
  preserves (steady f P) (getCachedProfile E key).
Proof.
  intros HP1 HP2. unfold getCachedProfile, getRedis. frame.
  - by apply steady_acquire.
  - by apply steady_client_get.
Qed.

Lemma steady_getAuctionCache key :
  P (EvConnect CacheConn (REDIS_URL E)) -> P (EvGet key) ->
  preserves (steady f P) (getAuctionCache E key).
Proof.
  intros HP1 HP2. unfold getAuctionCache, getRedis. frame.
  - by apply steady_acquire.
  - by apply steady_client_get.
Qed.

Lemma steady_cacheProfile `{!StoreBlind f} key v :
  P (EvConnect CacheConn (REDIS_URL E)) -> P (EvCacheProfile key v) ->
  P (EvSetEx key (CACHE_TTL) (JSON_stringify E v)) ->
  preserves (steady f P) (cacheProfile E key v).
Proof.
  intros HP1 HP2 HP3. unfold cacheProfile, getRedis. frame.
  - by apply steady_acquire.
  - by apply steady_client_setEx.
Qed.

Lemma steady_setAuctionCache `{!StoreBlind f} key v :
  P (EvConnect CacheConn (REDIS_URL E)) -> P (EvSetAuctionCache key v) ->
  P (EvSetEx key (AUCTION_CACHE_TTL) (JSON_stringify E v)) ->
  preserves (steady f P) (setAuctionCache E key v).
Proof.
  intros HP1 HP2 HP3. unfold setAuctionCache, getRedis. frame.
  - by apply steady_acquire.
  - by apply steady_client_setEx.
Qed.

End CallFrames.

(** ** Calls that never throw *)

Ltac nothrow_step :=
  lazymatch goal with
  | |- forall _, _ => intros ?
  | |- nothrow (mret _) => apply nothrow_ret
  | |- nothrow (_ ≫= _) => apply nothrow_bind
  | |- nothrow (try_catch _ _) => apply nothrow_try_catch
  | |- nothrow (modify _) => apply nothrow_modify
  | |- nothrow (emit _) => apply nothrow_modify
  | |- nothrow (update_conn _ _) => apply nothrow_modify
  | |- nothrow get_world => intros ?; by eexists _, _
  | |- nothrow (Date_now _) => intros ?; by eexists _, _
  | |- nothrow (match ?x with _ => _ end) => destruct x
  end.

Lemma nothrow_acquire E c : nothrow (acquire E c).
Proof. unfold acquire. repeat nothrow_step. Qed.

Lemma nothrow_getCachedProfile E key : nothrow (getCachedProfile E key).
Proof. unfold getCachedProfile. repeat nothrow_step. Qed.

Lemma nothrow_getAuctionCache E key : nothrow (getAuctionCache E key).
Proof. unfold getAuctionCache. repeat nothrow_step. Qed.

Lemma nothrow_cacheProfile E key v : nothrow (cacheProfile E key v).
Proof. unfold cacheProfile. repeat nothrow_step. Qed.

Lemma nothrow_setAuctionCache E key v : nothrow (setAuctionCache E key v).
Proof. unfold setAuctionCache. repeat nothrow_step. Qed.

Lemma nothrow_tryMiMo E : nothrow (tryMiMo E).
Proof. unfold tryMiMo. repeat nothrow_step. Qed.

Lemma nothrow_tryMiMoAuction E : nothrow (tryMiMoAuction E).
Proof. unfold tryMiMoAuction. repeat nothrow_step. Qed.

Lemma nothrow_mimoOrFallback E ci geo key err : nothrow (mimoOrFallback E ci geo key err).
Proof.
  unfold mimoOrFallback. apply nothrow_bind; [apply nothrow_tryMiMo|]. intros r.
  destruct (truthy (mimo_profile r)); [|apply nothrow_ret].
  apply nothrow_bind; [apply nothrow_cacheProfile | intros; apply nothrow_ret].
Qed.

Lemma nothrow_checkRateLimitM E userId : nothrow (checkRateLimitM E userId).
Proof. unfold checkRateLimitM. repeat nothrow_step. Qed.

Lemma nothrow_generateAIProfile E ci geo : nothrow (generateAIProfile E ci geo).
Proof.
  unfold generateAIProfile.
  apply nothrow_bind; [apply nothrow_getCachedProfile|]. intros cached.
  destruct (truthy cached); [apply nothrow_ret|].
  destruct (negb _ && negb _); [apply nothrow_ret|].
  apply nothrow_bind; [apply nothrow_checkRateLimitM|]. intros allowed.
  destruct (negb allowed); [apply nothrow_ret|].
  destruct (negb _); [apply nothrow_mimoOrFallback|].
  apply nothrow_try_catch. intros e. apply nothrow_mimoOrFallback.
Qed.

Lemma nothrow_generateAIAuction E s country cc : nothrow (generateAIAuction E s country cc).
Proof.
  unfold generateAIAuction.
  apply nothrow_bind; [apply nothrow_getAuctionCache|]. intros cached.
  destruct (truthy cached); [apply nothrow_ret|].
  apply nothrow_bind.
  - destruct (truthy_str _); [|apply nothrow_ret].
    apply nothrow_try_catch. intros; apply nothrow_ret.
  - intros [r|]; [apply nothrow_ret|].
    apply nothrow_bind; [apply nothrow_tryMiMoAuction|].
    intros [r|]; [|apply nothrow_ret].
    apply nothrow_bind; [apply nothrow_setAuctionCache | intros; apply nothrow_ret].
Qed.

(** ** One run of the profile chain *)

Lemma steady_log {X} (f : World -> X) `{!Static f} (P : Event -> Prop) e w w' :
  P e -> steady f P w w' -> steady f P w (log e w').
Proof.
  intros He Hs. etransitivity; [exact Hs|]. split; [apply static_log|].
  exists [e]. split; [done | by constructor].
Qed.

Lemma steady_set_tick {X} (f : World -> X) `{!Static f} (P : Event -> Prop) t w w' :
  steady f P w w' -> steady f P w (set_tick t w').
Proof.
  intros Hs. etransitivity; [exact Hs|]. apply steady_here; [apply static_tick | done].
Qed.

Lemma quiet_set_userRateLimits m w w' : quiet w w' -> quiet w (set_userRateLimits m w').
Proof. intros Hs. etransitivity; [exact Hs|]. by apply steady_here. Qed.

Ltac quiet_steps :=
  repeat first
    [ assumption
    | reflexivity
    | apply steady_set_tick; [apply _|]
    | apply steady_log; [apply _ | exact I |]
    | apply quiet_set_userRateLimits ].

Lemma parseAIResponse_object E s p :
  parseAIResponse E s = Some p -> exists fs, p = JObject fs.
Proof.
  unfold parseAIResponse. intros H.
  repeat case_match; try discriminate; inversion H; eauto.
Qed.

Lemma generateFallbackProfile_object ci geo :
  exists fs, generateFallbackProfile ci geo = JObject fs.
Proof.
  unfold generateFallbackProfile.
  destruct (_ || _ || test_any_ci _ _); [by eexists|].
  destruct (_ || _); [by eexists|].
  destruct (_ && _); by eexists.
Qed.

Lemma generateFallbackProfile_truthy ci geo :
  truthy (generateFallbackProfile ci geo) = true.
Proof. destruct (generateFallbackProfile_object ci geo) as [fs ->]. done. Qed.

(** Unfolds the primitive steps of a computation applied to a world. *)
Ltac run :=
  unfold fetch, response_text, response_content, checkRateLimitM, emit, modify, await,
    throw, get_world, Date_now, update_conn, on_error, try_catch,
    mbind, M_bind, mret, M_ret;
  cbn [fst snd tick trace store_strings userRateLimits set_tick log].

Lemma contacts_after P p w w1 w' : extends_by P w w1 -> contacts p w1 w' -> contacts p w w'.
Proof.
  intros (evs1 & Htr1 & _) (evs & Htr & Hin). exists (evs1 ++ evs).
  split; [by rewrite Htr, Htr1, app_assoc | apply elem_of_app; by right].
Qed.

Lemma contacts_before P p w w1 w' : contacts p w w1 -> extends_by P w1 w' -> contacts p w w'.
Proof.
  intros (evs & Htr & Hin) (evs1 & Htr1 & _). exists (evs ++ evs1).
  split; [by rewrite Htr1, Htr, app_assoc | apply elem_of_app; by left].
Qed.

Lemma contacts_here p w w' evs :
  trace w' = (trace w ++ [EvFetch p]) ++ evs -> contacts p w w'.
Proof.
  intros Htr. exists (EvFetch p :: evs). split; [by rewrite Htr, <- app_assoc | by left].
Qed.

Lemma tryMiMo_spec E w :
  exists r w', tryMiMo E w = (Ret r, w')
    /\ userRateLimits w' = userRateLimits w
    /\ (truthy_str (OPENROUTER_API_KEY E) = true -> contacts MiMo w w')
    /\ ((mimo_profile r = JNull /\ quiet w w')
        \/ (truthy (mimo_profile r) = true /\ store_strings w' = store_strings w
            /\ exists evs,
              trace w' = trace w ++ evs ++ [EvAccepted MiMo (mimo_profile r)]
              /\ Forall quiet_event evs)).
Proof.
  unfold tryMiMo. destruct (truthy_str (OPENROUTER_API_KEY E)); cbn [negb].
  2:{ eexists _, _. split; [reflexivity|]. split; [done|]. split; [done|].
      left. split; [done | quiet_steps]. }
  assert (forall w' : World, trace w' = trace w ++ [EvFetch MiMo] ->
            true = true -> contacts MiMo w w') as Hcontact.
  { intros w' Htr _. apply (contacts_here MiMo w w' []). by rewrite app_nil_r. }
  run.
  destruct (fetch_result E MiMo _) as [err|ok st body]; cbn.
  { eexists _, _. split; [reflexivity|]. split; [done|]. split; [by apply Hcontact|].
    left. split; [done | quiet_steps]. }
  destruct ok, body as [| |content]; cbn;
    try (eexists _, _; split; [reflexivity|]; split; [done|];
         split; [by apply Hcontact|]; left; split; [done | quiet_steps]).
  destruct (truthy_str content); cbn.
  2:{ eexists _, _; split; [reflexivity|]; split; [done|];
      split; [by apply Hcontact|]; left; split; [done | quiet_steps]. }
  destruct (parseAIResponse E _) as [p|] eqn:Hp; cbn.
  2:{ eexists _, _; split; [reflexivity|]; split; [done|];
      split; [by apply Hcontact|]; left; split; [done | quiet_steps]. }
  apply parseAIResponse_object in Hp as [fs ->].
  eexists _, _; split; [reflexivity|]; split; [done|].
  split; [intros _; by eapply contacts_here|]. right.
  split; [done|]. split; [done|]. exists [EvFetch MiMo]. split; [|by repeat constructor].
  cbn. by rewrite <- app_assoc.
Qed.

(** Case analysis on every test a fully unfolded run still contains. *)
Ltac split_ifs :=
  repeat match goal with
         | |- context [if ?b then _ else _] => destruct b eqn:?; cbn
         | |- context [match ?x with Some _ => _ | None => _ end] => destruct x eqn:?; cbn
         end.

Lemma cacheProfile_spec E key v w :
  exists w' post, cacheProfile E key v w = (Ret (), w')
    /\ trace w' = trace w ++ EvCacheProfile key v :: post
    /\ Forall store_event post
    /\ userRateLimits w' = userRateLimits w
    /\ (store_strings w' = store_strings w
        \/ exists expiry,
             store_strings w' = <[key := (JSON_stringify E v, expiry)]> (store_strings w)).
Proof.
  unfold cacheProfile, getRedis, acquire, client_connect, client_setEx. run.
  cbn. split_ifs.
  all: eexists _, _; split; [reflexivity|]; cbn.
  all: split; [rewrite <- ?app_assoc; cbn; reflexivity|].
  all: split; [repeat constructor|].
  all: split; [destruct w; reflexivity|].
  all: try (left; reflexivity).
  all: try (right; eexists; reflexivity).
Qed.

Lemma run_shape_after E ci geo key w w1 w' res :
  quiet w w1 -> source res <> cache ->
  run_shape E ci geo key w1 w' res -> run_shape E ci geo key w w' res.
Proof.
  intros Hq Hsrc [Ht Hs]. split; [done|]. destruct (source res).
  - destruct Hs as (pre & p & post & Htr & Hpre & Hpost & Hst).
    destruct Hq as [Hst1 (evs1 & Htr1 & Hevs1)].
    exists (evs1 ++ pre), p, post. split; [|split; [|split]].
    + rewrite Htr, Htr1. by rewrite <- !app_assoc.
    + by apply Forall_app.
    + done.
    + by rewrite <- Hst1.
  - done.
  - destruct Hs as [Hp Hs]. split; [done | by etransitivity].
Qed.

(** The trace grows along a run of that shape. *)
Lemma run_shape_extends E ci geo key w w' res :
  source res <> cache -> run_shape E ci geo key w w' res -> extends_by (fun _ => True) w w'.
Proof.
  intros Hsrc [_ Hs]. destruct (source res); [|done|].
  - destruct Hs as (pre & p & post & Htr & _). eexists. split; [exact Htr|].
    apply Forall_forall. done.
  - destruct Hs as [_ [_ (evs & Htr & _)]]. exists evs. split; [done|].
    apply Forall_forall. done.
Qed.

Lemma mimoOrFallback_spec E ci geo key err w :
  exists res w', mimoOrFallback E ci geo key err w = (Ret res, w')
    /\ run_shape E ci geo key w w' res /\ source res <> cache
    /\ userRateLimits w' = userRateLimits w
    /\ (truthy_str (OPENROUTER_API_KEY E) = true -> contacts MiMo w w').
Proof.
  unfold mimoOrFallback. run.
  destruct (tryMiMo_spec E w)
    as (r & w1 & -> & Hrl & Hfetch & [[Hnull Hq]|(Htr & Hst & evs & Hev & Hevs)]).
  - rewrite Hnull. cbn. eexists _, _. split; [reflexivity|].
    split; [|split; [done|split; [done|done]]].
    split; [apply generateFallbackProfile_truthy|]. cbn. done.
  - rewrite Htr.
    destruct (cacheProfile_spec E key (mimo_profile r) w1)
      as (w2 & post & -> & Hpost & Hposts & Hrl2 & Hst2).
    eexists _, _. split; [reflexivity|].
    split; [|split; [done | split; [congruence|]]].
    + split; [done|]. cbn. exists evs, MiMo, post. split; [|split; [done|split; [done|]]].
      * rewrite Hpost, Hev. by rewrite <- !app_assoc.
      * by rewrite <- Hst.
    + intros Hkey. eapply (contacts_before (fun _ => True)); [by apply Hfetch|].
      eexists. split; [exact Hpost|]. apply Forall_forall. done.
Qed.

(** Closes a branch of the chain that ends in [mimoOrFallback]. *)
Ltac via_mimo :=
  match goal with
  | |- context [mimoOrFallback ?E ?ci ?geo ?key ?err ?w] =>
      let res := fresh "res" in let w' := fresh "w'" in let Hs := fresh "Hs" in
      let Hsrc := fresh "Hsrc" in let Hrl := fresh "Hrl" in
      destruct (mimoOrFallback_spec E ci geo key err w)
        as (res & w' & -> & Hs & Hsrc & Hrl & _);
      eexists _, _; split; [reflexivity|];
      split; [eapply run_shape_after; [|exact Hsrc|exact Hs]; quiet_steps|];
      split; [exact Hsrc|]; split; [exact Hrl|];
      split; [|done]; intros _;
      let evs := fresh "evs" in let Htr := fresh "Htr" in
      destruct (run_shape_extends _ _ _ _ _ _ _ Hsrc Hs) as (evs & Htr & _);
      eapply contacts_here; exact Htr
  end.

Lemma providerChain_spec E ci geo key w :
  exists res w', providerChain E ci geo key w = (Ret res, w')
    /\ run_shape E ci geo key w w' res /\ source res <> cache
    /\ userRateLimits w' = userRateLimits w
    /\ (truthy_str (GROK_API_KEY E) = true -> contacts Grok w w')
    /\ (truthy_str (GROK_API_KEY E) = false ->
        truthy_str (OPENROUTER_API_KEY E) = true -> contacts MiMo w w').
Proof.
  unfold providerChain. destruct (truthy_str (GROK_API_KEY E)); cbn [negb].
  2:{ destruct (mimoOrFallback_spec E ci geo key mimo_error w)
        as (res & w' & -> & Hs & Hsrc & Hrl & Hm).
      eexists _, _. split; [reflexivity|].
      split; [done|]. split; [done|]. split; [done|]. split; [done|]. auto. }
  run.
  destruct (fetch_result E Grok _) as [e|ok st body]; cbn; [via_mimo|].
  destruct ok, body as [| |content]; cbn; try via_mimo.
  destruct (truthy_str content); cbn; [|via_mimo].
  destruct (parseAIResponse E _) as [p|] eqn:Hp; cbn; [|via_mimo].
  apply parseAIResponse_object in Hp as [fs ->].
  match goal with
  | |- context [cacheProfile ?E ?key ?v ?w] =>
      destruct (cacheProfile_spec E key v w) as (w3 & post & -> & Hpost & Hposts & Hrl & Hst)
  end.
  eexists _, _. split; [reflexivity|].
  split; [|split; [done|split; [done|split; [|done]]]].
  - split; [done|]. cbn. exists [EvFetch Grok], Grok, post.
    split; [|split; [by repeat constructor | split; [done | exact Hst]]].
    rewrite Hpost. cbn. by rewrite <- !app_assoc.
  - intros _. eapply contacts_here. rewrite Hpost. cbn. by rewrite <- !app_assoc.
Qed.

Lemma generateAIProfile_gates E ci geo :
  generateAIProfile E ci geo
  = (let fingerprintId := str_or (fingerprintId ci) "unknown" in
     let crossBrowserId := str_or (crossBrowserId ci) "unknown" in
     let cacheKey := getCacheKey fingerprintId crossBrowserId in
     cached ← getCachedProfile E cacheKey;
     if truthy cached then mret {| profile := cached; source := cache; error := None |}
     else if negb (truthy_str (GROK_API_KEY E)) && negb (truthy_str (OPENROUTER_API_KEY E))
     then mret {| profile := generateFallbackProfile ci geo; source := fallback;
                  error := Some "No AI configured" |}
     else
       allowed ← checkRateLimitM E (fingerprintId +:+ ":" +:+ crossBrowserId);
       if negb allowed
       then mret {| profile := generateFallbackProfile ci geo; source := fallback;
                    error := Some "Rate limited" |}
       else providerChain E ci geo cacheKey).
Proof. reflexivity. Qed.

Lemma generateAIProfile_spec E ci geo w :
  exists res w', generateAIProfile E ci geo w = (Ret res, w')
    /\ run_shape E ci geo
         (getCacheKey (str_or (fingerprintId ci) "unknown")
                      (str_or (crossBrowserId ci) "unknown")) w w' res.
Proof.
  rewrite generateAIProfile_gates. cbv zeta.
  set (key := getCacheKey _ _). set (uid := _ +:+ ":" +:+ _).
  destruct (nothrow_getCachedProfile E key w) as (cached & w1 & Hc).
  assert (quiet w w1) as Hq1.
  { pose proof (steady_getCachedProfile E store_strings quiet_event key I I w) as H.
    by rewrite Hc in H. }
  unfold mbind at 1, M_bind at 1. rewrite Hc.
  destruct (truthy cached) eqn:Htc.
  { eexists _, _. split; [reflexivity|]. split; done. }
  destruct (negb _ && negb _).
  { eexists _, _. split; [reflexivity|]. split; [apply generateFallbackProfile_truthy|].
    cbn. done. }
  run.
  set (w2 := set_userRateLimits _ _).
  assert (quiet w w2) as Hq2 by (subst w2; quiet_steps).
  destruct (checkRateLimit _ _ _).1; cbn.
  2:{ eexists _, _. split; [reflexivity|]. split; [apply generateFallbackProfile_truthy|].
      cbn. done. }
  destruct (providerChain_spec E ci geo key w2) as (res & w' & -> & Hs & Hsrc & _).
  eexists _, _. split; [reflexivity|]. by eapply run_shape_after.
Qed.

Lemma cache_writes_app l1 l2 : cache_writes (l1 ++ l2) = cache_writes l1 ++ cache_writes l2.
Proof. apply omap_app. Qed.

Lemma cache_writes_quiet l : Forall quiet_event l -> cache_writes l = [].
Proof.
  induction 1 as [|e l He _ IH]; [done|].
  unfold cache_writes in *. destruct e; simpl in *; done.
Qed.

Lemma cache_writes_store l : Forall store_event l -> cache_writes l = [].
Proof.
  induction 1 as [|e l He _ IH]; [done|].
  unfold cache_writes in *. destruct e; simpl in *; done.
Qed.

Lemma cacheProfile_writes E key v w r :
  client (cacheConn w) = Some r -> isOpen r = true -> lastError (cacheConn w) = 0 ->
  command_ok E (S (tick w)) = true ->
  store_strings (cacheProfile E key v w).2 !! key
  = Some (JSON_stringify E v, clock E (S (tick w)) + CACHE_TTL * 1000).
Proof.
  intros Hc Ho Hl Hk.
  unfold cacheProfile, getRedis, acquire, client_setEx. run. cbn.
  rewrite Hl, Hc. cbn. rewrite Ho. cbn. rewrite Hk.
  destruct (error_event E CacheConn _); cbn; apply lookup_insert_eq.
Qed.

(** C1: whatever the request, the state of the process and the behaviour
    of Grok, MiMo and Redis, [generateAIProfile] returns (it never throws),
    the profile it returns is not [null], and its provenance tag is one of
    [cache], [ai] and [fallback]. *)
Theorem always_a_result E ci geo w :
  exists res w',
    generateAIProfile E ci geo w = (Ret res, w')
    /\ profile res <> JNull
    /\ (source res = cache \/ source res = ai \/ source res = fallback).
Proof.
  destruct (generateAIProfile_spec E ci geo w) as (res & w' & Hrun & Htruthy & _).
  exists res, w'. split; [done|]. split.
  - intros Hnull. by rewrite Hnull in Htruthy.
  - destruct (source res); auto.
Qed.

(** C6: in every run of [generateAIProfile], a profile accepted from Grok or
    MiMo is the one returned, with source [ai], and [cacheProfile] is called
    exactly once, with the request's cache key and that profile (the store
    then holds it under that key unless the write was dropped because Redis
    could not be reached; with an open connection and a command that
    succeeds it holds it for 30 days); a run that returns with source
    [fallback] returns the rule-based profile, calls [cacheProfile] and
    [SETEX] not at all, and leaves the strings of the store as they were. *)
Theorem write_through_only_for_ai E ci geo w :
  let key := getCacheKey (str_or (fingerprintId ci) "unknown")
                         (str_or (crossBrowserId ci) "unknown") in
  (exists res w' evs,
    generateAIProfile E ci geo w = (Ret res, w')
    /\ trace w' = trace w ++ evs
    /\ (forall p v, EvAccepted p v ∈ evs -> source res = ai /\ profile res = v)
    /\ (source res = ai ->
          (exists p, EvAccepted p (profile res) ∈ evs)
          /\ cache_writes evs = [(key, profile res)]
          /\ (store_strings w' = store_strings w
              \/ exists expiry,
                   store_strings w'
                   = <[key := (JSON_stringify E (profile res), expiry)]> (store_strings w)))
    /\ (source res = fallback ->
          profile res = generateFallbackProfile ci geo
          /\ cache_writes evs = []
          /\ (forall k ttl s, EvSetEx k ttl s ∉ evs)
          /\ store_strings w' = store_strings w))
  /\ (forall k v w0 r,
        client (cacheConn w0) = Some r -> isOpen r = true ->
        lastError (cacheConn w0) = 0 -> command_ok E (S (tick w0)) = true ->
        store_strings (cacheProfile E k v w0).2 !! k
        = Some (JSON_stringify E v, clock E (S (tick w0)) + CACHE_TTL * 1000)).
Proof.
  intros key. split; [|apply cacheProfile_writes].
  destruct (generateAIProfile_spec E ci geo w) as (res & w' & Hrun & Htruthy & Hshape).
  fold key in Hshape. exists res, w'.
  assert (forall evs : list Event, Forall quiet_event evs ->
            (forall p v, EvAccepted p v ∉ evs) /\ (forall k ttl s, EvSetEx k ttl s ∉ evs))
    as Hquiet.
  { intros evs Hevs. split; intros; intros Hin;
      by apply (proj1 (Forall_forall _ _) Hevs) in Hin. }
  destruct (source res) eqn:Hsrc.
  - destruct Hshape as (pre & p & post & Htr & Hpre & Hpost & Hst).
    eexists. split; [done|]. split; [exact Htr|]. split; [|split; [|done]].
    + intros p' v Hin. split; [done|].
      apply elem_of_app in Hin as [Hin|Hin]; [by apply (Hquiet _ Hpre) in Hin|].
      apply elem_of_app in Hin as [Hin|Hin].
      * apply elem_of_cons in Hin as [Hin|Hin]; [congruence|].
        apply elem_of_cons in Hin as [Hin|Hin]; [done | by apply elem_of_nil in Hin].
      * by apply (proj1 (Forall_forall _ _) Hpost) in Hin.
    + intros _. split; [|split; [|done]].
      * exists p. apply elem_of_app. right. apply elem_of_app. left. by left.
      * rewrite !cache_writes_app, (cache_writes_quiet pre), (cache_writes_store post); done.
  - pose proof (steady_getCachedProfile E store_strings quiet_event key I I w)
      as [_ (evs & Htr & Hevs)].
    rewrite Hshape in Htr. cbn in Htr.
    exists evs. split; [done|]. split; [done|]. split; [|split; [done|done]].
    intros p v Hin. by apply (Hquiet _ Hevs) in Hin.
  - destruct Hshape as [Hfb [Hst (evs & Htr & Hevs)]].
    exists evs. split; [done|]. split; [done|]. split; [|split; [done|]].
    + intros p v Hin. by apply (Hquiet _ Hevs) in Hin.
    + intros _. split; [done|]. split; [by apply cache_writes_quiet|].
      split; [apply (Hquiet _ Hevs) | done].
Qed.

(** ** Cooldown of a connection *)

Lemma acquire_cooling E c w :
  0 < lastError (conn_of c w) ->
  clock E (tick w) - lastError (conn_of c w) < REDIS_BACKOFF_MS ->
  acquire E c w = (Ret None, w).
Proof.
  intros Hpos Hin. unfold acquire. run.
  apply Z.ltb_lt in Hpos, Hin. by rewrite Hpos, Hin.
Qed.

Lemma acquire_series_cooling E c ts : forall w,
  0 < lastError (conn_of c w) ->
  Forall (fun t => clock E t - lastError (conn_of c w) < REDIS_BACKOFF_MS) ts ->
  exists w', acquire_series E c ts w = (repeat (Ret None) (length ts), w')
    /\ trace w' = trace w /\ conn_of c w' = conn_of c w.
Proof.
  induction ts as [|t ts IH]; intros w Hpos Hall; [by eexists|].
  apply Forall_cons in Hall as [Ht Hall]. cbn [acquire_series].
  assert (conn_of c (set_tick t w) = conn_of c w) as Hc by (by destruct c).
  rewrite (acquire_cooling E c (set_tick t w)); [|by rewrite Hc..].
  destruct (IH (set_tick t w)) as (w' & -> & Htr & Hconn); [by rewrite Hc..|].
  exists w'. split; [done|]. split; [done | by rewrite Hconn].
Qed.

(** C5: while a connection's last-error time is set and less than the
    backoff (5000 ms) in the past, [getRedis] and [getTrackingRedis] return
    [null] and change nothing: no [connect] is attempted, by one call or by
    any series of calls made during the backoff. *)
Theorem cooldown_short_circuit E c w ts :
  0 < lastError (conn_of c w) ->
  Forall (fun t => clock E t - lastError (conn_of c w) < REDIS_BACKOFF_MS) (tick w :: ts) ->
  REDIS_BACKOFF_MS = 5000
  /\ getRedis E = acquire E CacheConn /\ getTrackingRedis E = acquire E TrackingConn
  /\ acquire E c w = (Ret None, w)
  /\ exists w',
       acquire_series E c ts w = (repeat (Ret None) (length ts), w')
       /\ connect_attempts (trace w') = connect_attempts (trace w)
       /\ conn_of c w' = conn_of c w.
Proof.
  intros Hpos Hall. apply Forall_cons in Hall as [Hnow Hall].
  split; [done|]. split; [done|]. split; [done|].
  split; [by apply acquire_cooling|].
  destruct (acquire_series_cooling E c ts w Hpos Hall) as (w' & Hs & Htr & Hc).
  exists w'. by rewrite Htr.
Qed.

(** ** Runs against a store that is up *)

Lemma open_usable x : open_for_use x -> usable x.
Proof. intros [? ?]. split; auto. Qed.

Lemma acquire_up E c w :
  store_up E -> usable (conn_of c w) ->
  exists r w', acquire E c w = (Ret (Some r), w')
    /\ open_for_use (conn_of c w')
    /\ store_strings w' = store_strings w /\ store_sets w' = store_sets w
    /\ userRateLimits w' = userRateLimits w
    /\ extends_by (fun e => e = EvConnect c (REDIS_URL E)) w w'
    /\ (tick w <= tick w' <= tick w + 1)%nat.
Proof.
  intros Hup [Hl Hu]. unfold acquire. run. rewrite Hl. cbn.
  destruct (is_open (client (conn_of c w))) eqn:Ho.
  { destruct (client (conn_of c w)) as [r|] eqn:Hc; [|done].
    exists r, w. split; [done|]. split; [split; [done | by rewrite Hc]|].
    repeat split; try reflexivity; lia. }
  destruct Hu as [?|Hu]; [done|]. rewrite Hu.
  unfold client_connect. run. cbn.
  destruct (Hup (S (tick w))) as [_ Hc']. destruct (Hc' c) as [-> ->]. run.
  destruct c; cbn.
  all: eexists _, _; split; [reflexivity|]; split; [by split|].
  all: repeat split; try done; try (cbn; lia).
  all: eexists [_]; split; [done | by repeat constructor].
Qed.

(** ** Visitor tracking against a store that is up *)

Lemma trackAttempt_up E maxRetries attempt key w :
  store_up E -> usable (trackingConn w) ->
  exists w', trackAttempt E maxRetries attempt key w
             = (Ret (Some (bool_decide (key ∉ members UNIQUE_VISITORS_KEY w))), w')
    /\ open_for_use (trackingConn w')
    /\ members UNIQUE_VISITORS_KEY w' = {[key]} ∪ members UNIQUE_VISITORS_KEY w.
Proof.
  intros Hup Hu. unfold trackAttempt, getTrackingRedis. run.
  destruct (acquire_up E TrackingConn w Hup Hu)
    as (r & w1 & -> & Hopen & _ & Hsets & _ & _ & _).
  assert (members UNIQUE_VISITORS_KEY w1 = members UNIQUE_VISITORS_KEY w) as Hm
    by (unfold members; by rewrite Hsets).
  unfold client_sAdd. run. cbn.
  destruct (Hup (S (tick w1))) as [-> He]. destruct (He TrackingConn) as [_ ->].
  run. cbn.
  assert (forall t e, members UNIQUE_VISITORS_KEY (set_tick t (log e w1))
                      = members UNIQUE_VISITORS_KEY w) as Hs by (intros; exact Hm).
  rewrite !Hs.
  destruct (decide (key ∈ members UNIQUE_VISITORS_KEY w)) as [Hin|Hout].
  - rewrite (bool_decide_eq_true_2 _ Hin), bool_decide_eq_false_2 by (by intros ?).
    cbn. eexists. split; [reflexivity|]. split; [done|].
    rewrite Hs. symmetry. apply subseteq_union_1_L. by apply singleton_subseteq_l.
  - rewrite (bool_decide_eq_false_2 _ Hout), (bool_decide_eq_true_2 _ Hout).
    run. cbn. eexists. split; [reflexivity|]. split; [done|].
    unfold members. cbn. by rewrite lookup_insert_eq.
Qed.

Lemma trackUniqueVisitor_up E fp cb w :
  store_up E -> usable (trackingConn w) ->
  exists w', trackUniqueVisitor E fp cb w
             = (Ret (bool_decide (fp +:+ ":" +:+ cb ∉ members UNIQUE_VISITORS_KEY w)), w')
    /\ open_for_use (trackingConn w')
    /\ members UNIQUE_VISITORS_KEY w'
       = {[fp +:+ ":" +:+ cb]} ∪ members UNIQUE_VISITORS_KEY w.
Proof.
  intros Hup Hu. unfold trackUniqueVisitor.
  change (Z.to_nat 3) with 3%nat. cbn [trackLoop]. run.
  destruct (trackAttempt_up E 3 1 (fp +:+ ":" +:+ cb) w Hup Hu) as (w' & -> & Ho & Hm).
  by exists w'.
Qed.

Lemma getTotalUniqueVisitors_up E w :
  store_up E -> usable (trackingConn w) ->
  exists w', getTotalUniqueVisitors E w
             = (Ret (Z.of_nat (size (members UNIQUE_VISITORS_KEY w))), w').
Proof.
  intros Hup Hu. unfold getTotalUniqueVisitors.
  change (Z.to_nat 2) with 2%nat. cbn [countLoop]. unfold countAttempt, getTrackingRedis. run.
  destruct (acquire_up E TrackingConn w Hup Hu)
    as (r & w1 & -> & Hopen & _ & Hsets & _ & _ & _).
  unfold client_sCard. run. cbn.
  destruct (Hup (S (tick w1))) as [-> He]. destruct (He TrackingConn) as [_ ->].
  assert (members UNIQUE_VISITORS_KEY w1 = members UNIQUE_VISITORS_KEY w) as Hm
    by (unfold members; by rewrite Hsets).
  cbn. eexists. f_equal. f_equal. f_equal. f_equal. exact Hm.
Qed.

Lemma track_series_seen E fp cb n : forall w,
  store_up E -> usable (trackingConn w) ->
  fp +:+ ":" +:+ cb ∈ members UNIQUE_VISITORS_KEY w ->
  exists w', track_series E fp cb n w = (repeat (Ret false) n, w')
    /\ usable (trackingConn w')
    /\ members UNIQUE_VISITORS_KEY w' = members UNIQUE_VISITORS_KEY w.
Proof.
  induction n as [|n IH]; intros w Hup Hu Hin; [by exists w|].
  cbn [track_series].
  destruct (trackUniqueVisitor_up E fp cb w Hup Hu) as (w1 & -> & Ho & Hm).
  assert (members UNIQUE_VISITORS_KEY w1 = members UNIQUE_VISITORS_KEY w) as Hm'.
  { rewrite Hm. apply subseteq_union_1_L. by apply singleton_subseteq_l. }
  destruct (IH w1 Hup (open_usable _ Ho)) as (w' & -> & Hu' & Hm''); [by rewrite Hm'|].
  rewrite bool_decide_eq_false_2 by (by intros ?).
  exists w'. split; [done|]. split; [done | congruence].
Qed.

(** C8: while Redis is up and the tracking connection is usable, a call of
    [trackUniqueVisitor] returns [true] exactly when the visitor was not in
    the set before it (the first-ever insert), any number of further calls
    for the same visitor all return [false], and [getTotalUniqueVisitors]
    reads one more after a first-ever insert, the same after any other call,
    and the same again after each of the further calls. *)
Theorem visitor_idempotence E fp cb w n :
  store_up E -> usable (trackingConn w) ->
  let visitorKey := fp +:+ ":" +:+ cb in
  let first := bool_decide (visitorKey ∉ members UNIQUE_VISITORS_KEY w) in
  exists w1 w' total,
    trackUniqueVisitor E fp cb w = (Ret first, w1)
    /\ track_series E fp cb n w1 = (repeat (Ret false) n, w')
    /\ (getTotalUniqueVisitors E w).1 = Ret total
    /\ (getTotalUniqueVisitors E w1).1 = Ret (if first then total + 1 else total)
    /\ (getTotalUniqueVisitors E w').1 = (getTotalUniqueVisitors E w1).1.
Proof.
  intros Hup Hu visitorKey first.
  destruct (trackUniqueVisitor_up E fp cb w Hup Hu) as (w1 & Hrun & Ho & Hm).
  assert (visitorKey ∈ members UNIQUE_VISITORS_KEY w1) as Hin.
  { subst visitorKey. rewrite Hm. apply elem_of_union_l. by apply elem_of_singleton. }
  destruct (track_series_seen E fp cb n w1 Hup (open_usable _ Ho) Hin)
    as (w' & Hseries & Hu' & Hm').
  destruct (getTotalUniqueVisitors_up E w Hup Hu) as (v0 & H0).
  destruct (getTotalUniqueVisitors_up E w1 Hup (open_usable _ Ho)) as (v1 & H1).
  destruct (getTotalUniqueVisitors_up E w' Hup Hu') as (v2 & H2).
  exists w1, w', (Z.of_nat (size (members UNIQUE_VISITORS_KEY w))).
  split; [done|]. split; [done|]. rewrite H0, H1, H2. cbn.
  split; [done|]. split; [|by rewrite Hm'].
  f_equal. rewrite Hm. subst first. fold visitorKey.
  destruct (decide (visitorKey ∈ members UNIQUE_VISITORS_KEY w)) as [Hi|Ho'].
  - rewrite bool_decide_eq_false_2 by (by intros ?).
    f_equal. f_equal. apply subseteq_union_1_L. by apply singleton_subseteq_l.
  - rewrite (bool_decide_eq_true_2 _ Ho').
    rewrite size_union by (by apply disjoint_singleton_l).
    rewrite size_singleton. lia.
Qed.

(** ** Auction cache keys *)

Lemma slice_to_cons n c s : slice_to (S n) (String c s) = String c (slice_to n s).
Proof. reflexivity. Qed.

Lemma slice_to_nil n : slice_to n "" = "".
Proof. by destruct n. Qed.

Lemma slice_to_idem n s : slice_to n (slice_to n s) = slice_to n s.
Proof.
  revert s. induction n as [|n IH]; intros s; [by destruct s|].
  destruct s as [|c s]; [done|]. rewrite !slice_to_cons. by rewrite IH.
Qed.

(** The first [4k] characters of the encoding are those of the encoding of
    the first [3k] bytes. *)
Lemma base64_prefix k : forall s1 s2,
  slice_to (3 * k) s1 = slice_to (3 * k) s2 ->
  slice_to (4 * k) (base64 s1) = slice_to (4 * k) (base64 s2).
Proof.
  induction k as [|k IH]; intros s1 s2 Heq.
  { by destruct (base64 s1), (base64 s2). }
  replace (3 * S k)%nat with (S (S (S (3 * k)))) in Heq by lia.
  replace (4 * S k)%nat with (S (S (S (S (4 * k))))) by lia.
  destruct s1 as [|a1 [|b1 [|c1 r1]]], s2 as [|a2 [|b2 [|c2 r2]]];
    rewrite ?slice_to_cons, ?slice_to_nil in Heq; try discriminate;
    try (by inversion Heq).
  injection Heq as -> -> -> Heq. cbn [base64]. rewrite !slice_to_cons.
  by rewrite (IH _ _ Heq).
Qed.

Lemma auctionCacheKey_prefix s1 s2 cc :
  slice_to 24 s1 = slice_to 24 s2 -> auctionCacheKey s1 cc = auctionCacheKey s2 cc.
Proof.
  intros Heq. unfold auctionCacheKey.
  pose proof (base64_prefix 8 s1 s2 Heq) as H.
  change (4 * 8)%nat with 32%nat in H. by rewrite H.
Qed.

(** ** Cache hits *)

Lemma getCachedProfile_up E key w str expiry v :
  store_up E -> usable (cacheConn w) ->
  store_strings w !! key = Some (str, expiry) ->
  (forall t, (tick w <= t <= tick w + 2)%nat -> clock E t < expiry) ->
  str <> "" -> JSON_parse E str = Some v ->
  exists w', getCachedProfile E key w = (Ret v, w')
    /\ open_for_use (cacheConn w')
    /\ store_strings w' = store_strings w
    /\ userRateLimits w' = userRateLimits w.
Proof.
  intros Hup Hu Hlook Hclock Hstr Hparse. unfold getCachedProfile, getRedis. run.
  destruct (acquire_up E CacheConn w Hup Hu)
    as (r & w1 & -> & Hopen & Hss & _ & Hrl & _ & Ht).
  unfold client_get. run. cbn.
  destruct (Hup (S (tick w1))) as [-> He]. destruct (He CacheConn) as [_ ->].
  cbn. rewrite Hss, Hlook. cbn.
  assert ((clock E (S (tick w1)) <? expiry) = true) as ->
    by (apply Z.ltb_lt, Hclock; lia).
  cbn. assert ((str =? "")%string = false) as -> by (by apply String.eqb_neq).
  cbn. rewrite Hparse. by eexists.
Qed.

Lemma getAuctionCache_is_getCachedProfile E key :
  getAuctionCache E key = getCachedProfile E key.
Proof. reflexivity. Qed.

Lemma profile_cache_hit E ci geo w str expiry v :
  store_up E -> usable (cacheConn w) ->
  store_strings w !! getCacheKey (str_or (fingerprintId ci) "unknown")
                                 (str_or (crossBrowserId ci) "unknown")
  = Some (str, expiry) ->
  (forall t, (tick w <= t <= tick w + 2)%nat -> clock E t < expiry) ->
  str <> "" -> JSON_parse E str = Some v -> truthy v = true ->
  exists w', generateAIProfile E ci geo w
             = (Ret {| profile := v; source := cache; error := None |}, w')
    /\ extends_by no_fetch w w'.
Proof.
  intros Hup Hu Hlook Hclock Hstr Hparse Htruthy. unfold generateAIProfile.
  set (key := getCacheKey _ _) in *.
  pose proof (steady_getCachedProfile E store_strings no_fetch key I I w) as [_ Hev].
  destruct (getCachedProfile_up E key w str expiry v)
    as (w' & Hrun & _); [done..|].
  unfold mbind at 1, M_bind at 1. rewrite Hrun in *. rewrite Htruthy. by exists w'.
Qed.

Lemma auction_cache_hit E s country cc w str expiry v :
  store_up E -> usable (cacheConn w) ->
  store_strings w !! auctionCacheKey s cc = Some (str, expiry) ->
  (forall t, (tick w <= t <= tick w + 2)%nat -> clock E t < expiry) ->
  str <> "" -> JSON_parse E str = Some v -> truthy v = true ->
  exists w', generateAIAuction E s country cc w = (Ret v, w')
    /\ extends_by no_fetch w w'.
Proof.
  intros Hup Hu Hlook Hclock Hstr Hparse Htruthy. unfold generateAIAuction.
  set (key := auctionCacheKey _ _) in *.
  pose proof (steady_getAuctionCache E store_strings no_fetch key I I w) as [_ Hev].
  rewrite getAuctionCache_is_getCachedProfile in *.
  destruct (getCachedProfile_up E key w str expiry v)
    as (w' & Hrun & _); [done..|].
  unfold mbind at 1, M_bind at 1. rewrite Hrun in *. rewrite Htruthy. by exists w'.
Qed.

(** ** One run of the auction chain *)

Lemma setAuctionCache_spec E key v w :
  exists w' post, setAuctionCache E key v w = (Ret (), w')
    /\ trace w' = trace w ++ EvSetAuctionCache key v :: post
    /\ Forall store_event post
    /\ userRateLimits w' = userRateLimits w.
Proof.
  unfold setAuctionCache, getRedis, acquire, client_connect, client_setEx. run.
  cbn. split_ifs.
  all: eexists _, _; split; [reflexivity|]; cbn.
  all: split; [rewrite <- ?app_assoc; cbn; reflexivity|].
  all: split; [repeat constructor|].
  all: destruct w; reflexivity.
Qed.

Lemma auctionAttempt_spec E p src w :
  exists w', userRateLimits w' = userRateLimits w /\
    ((exists e, auctionAttempt E p src w = (Throw e, w') /\ trace w' = trace w ++ [EvFetch p])
     \/ (auctionAttempt E p src w = (Ret None, w') /\ trace w' = trace w ++ [EvFetch p])
     \/ (exists r, auctionAttempt E p src w = (Ret (Some r), w')
                   /\ trace w' = trace w ++ [EvFetch p; EvAccepted p r])).
Proof.
  unfold auctionAttempt. run.
  destruct (fetch_result E p _) as [err|ok st body]; cbn.
  { eexists. split; [|left; eexists; split; reflexivity]. done. }
  destruct ok; cbn; [|eexists; split; [|right; left; split; reflexivity]; done].
  destruct body as [| |content]; cbn;
    try (eexists; split; [|left; eexists; split; reflexivity]; done).
  destruct (truthy_str content); cbn;
    [|eexists; split; [|right; left; split; reflexivity]; done].
  destruct (parseAuctionResponse E _) as [r|]; cbn;
    [|eexists; split; [|right; left; split; reflexivity]; done].
  eexists. split; [|right; right; eexists; split; [reflexivity|]].
  - done.
  - cbn. by rewrite <- app_assoc.
Qed.

Lemma mimoAuctionTail_spec E key w :
  exists r w' chain write, mimoAuctionTail E key w = (Ret r, w')
    /\ trace w' = trace w ++ chain ++ write
    /\ Forall chain_event chain /\ auction_write key r chain write
    /\ userRateLimits w' = userRateLimits w.
Proof.
  unfold mimoAuctionTail, tryMiMoAuction. destruct (negb _).
  { exists auctionFallback, w, [], []. cbn. rewrite app_nil_r. repeat split; try done.
    by left. }
  run.
  destruct (auctionAttempt_spec E MiMo "mimo" w)
    as (w1 & Hrl & [(e & -> & Htr)|[[-> Htr]|(r & -> & Htr)]]).
  - exists auctionFallback, w1, [EvFetch MiMo], []. rewrite app_nil_r.
    repeat split; try done; [by repeat constructor | by left].
  - exists auctionFallback, w1, [EvFetch MiMo], []. rewrite app_nil_r.
    repeat split; try done; [by repeat constructor | by left].
  - destruct (setAuctionCache_spec E key r w1) as (w2 & post & -> & Htr2 & Hpost & Hrl2).
    exists r, w2, [EvFetch MiMo; EvAccepted MiMo r], (EvSetAuctionCache key r :: post).
    split; [done|]. split; [|split; [by repeat constructor|split; [|congruence]]].
    + rewrite Htr2, Htr. by rewrite <- !app_assoc.
    + right. exists MiMo, post. split; [|done]. apply elem_of_cons. right. by left.
Qed.

Lemma generateAIAuction_spec E s country cc w :
  exists r w' lookup chain write,
    generateAIAuction E s country cc w = (Ret r, w')
    /\ trace w' = trace w ++ lookup ++ chain ++ write
    /\ Forall (lookup_event (auctionCacheKey s cc)) lookup
    /\ Forall chain_event chain
    /\ auction_write (auctionCacheKey s cc) r chain write
    /\ userRateLimits w' = userRateLimits w.
Proof.
  unfold generateAIAuction. set (key := auctionCacheKey s cc).
  destruct (nothrow_getAuctionCache E key w) as (cached & w1 & Hc).
  pose proof (steady_getAuctionCache E userRateLimits (lookup_event key) key I eq_refl w)
    as [Hrl1 (lookup & Htr1 & Hlookup)].
  rewrite Hc in Hrl1, Htr1. cbn in Hrl1, Htr1.
  unfold mbind at 1, M_bind at 1. rewrite Hc.
  destruct (truthy cached).
  { exists cached, w1, lookup, [], []. cbn. rewrite app_nil_r.
    repeat split; try done. by left. }
  fold (mimoAuctionTail E key).
  destruct (truthy_str (GROK_API_KEY E)).
  2:{ run. destruct (mimoAuctionTail_spec E key w1)
        as (r & w' & chain & write & -> & Htr & Hchain & Hwrite & Hrl).
      exists r, w', lookup, chain, write. split; [done|].
      split; [by rewrite Htr, Htr1, <- !app_assoc|]. repeat split; try done. congruence. }
  run.
  destruct (auctionAttempt_spec E Grok "grok" w1)
    as (w2 & Hrl2 & [(e & -> & Htr2)|[[-> Htr2]|(r & -> & Htr2)]]).
  1,2: destruct (mimoAuctionTail_spec E key w2)
        as (r & w' & chain & write & -> & Htr & Hchain & Hwrite & Hrl);
      exists r, w', lookup, (EvFetch Grok :: chain), write; (split; [done|]);
      (split; [by rewrite Htr, Htr2, Htr1, <- !app_assoc|]);
      repeat split; try done;
        [by constructor
        | destruct Hwrite as [?|(p & post & ? & ? & ?)];
            [by left | right; exists p, post; split; [by right | done]]
        | congruence].
  destruct (setAuctionCache_spec E key r w2) as (w3 & post & -> & Htr3 & Hpost & Hrl3).
  exists r, w3, lookup, [EvFetch Grok; EvAccepted Grok r], (EvSetAuctionCache key r :: post).
  split; [done|]. split; [by rewrite Htr3, Htr2, Htr1, <- !app_assoc|].
  repeat split; try done; [by repeat constructor | | congruence].
  right. exists Grok, post. split; [|done]. apply elem_of_cons. right. by left.
Qed.

(** ** The auction path has no rate gate *)

(** C2, as stated, fails: an auction request that misses the cache goes
    from the lookup straight to Grok, with no rate-limit check in between,
    whereas the same miss on the profile path checks the limiter first. *)
Lemma auction_skips_rate_check :
  trace (generateAIAuction auctionDemoEnv "Developer, premium device, Toronto"
                           "Canada" "CA" (boot ∅ ∅)).2
  = [EvConnect CacheConn "redis://cache:6379";
     EvGet "yourinfo:auction:RGV2ZWxvcGVyLCBwcmVtaXVtIGRldmlj:CA";
     EvFetch Grok;
     EvAccepted Grok storedAuction;
     EvSetAuctionCache "yourinfo:auction:RGV2ZWxvcGVyLCBwcmVtaXVtIGRldmlj:CA" storedAuction;
     EvSetEx "yourinfo:auction:RGV2ZWxvcGVyLCBwcmVtaXVtIGRldmlj:CA" 3600 "<stored auction>"]
  /\ trace (generateAIProfile profileDemoEnv (visitor (Some "fp1") (Some "hw1")) None
                              (boot ∅ ∅)).2
     = [EvConnect CacheConn "redis://cache:6379";
        EvGet "yourinfo:profile:fp1:hw1";
        EvRateCheck "fp1:hw1";
        EvFetch Grok;
        EvAccepted Grok storedProfile;
        EvCacheProfile "yourinfo:profile:fp1:hw1" storedProfile;
        EvSetEx "yourinfo:profile:fp1:hw1" 2592000 "<stored profile>"].
Proof. split; vm_compute; reflexivity. Qed.

Lemma setAuctionCache_writes E key v w :
  exists w', setAuctionCache E key v w = (Ret (), w')
    /\ (exists write, trace w' = trace w ++ write /\ auction_write_through E key v write)
    /\ userRateLimits w' = userRateLimits w.
Proof.
  unfold setAuctionCache, getRedis, acquire, client_connect, client_setEx,
    auction_write_through. run.
  cbn. split_ifs.
  all: eexists; split; [reflexivity|]; cbn.
  all: split; [|destruct w; reflexivity].
  all: eexists; split;
    [rewrite <- ?app_assoc; cbn; reflexivity | eexists; split; [reflexivity|]].
  all: repeat constructor.
Qed.

Lemma mimoAuctionTail_chain E key w :
  exists r w' chain write, mimoAuctionTail E key w = (Ret r, w')
    /\ trace w' = trace w ++ chain ++ write
    /\ ((truthy_str (OPENROUTER_API_KEY E) = true
         /\ chain = [EvFetch MiMo; EvAccepted MiMo r]
         /\ auction_write_through E key r write)
        \/ (r = auctionFallback /\ chain = called E MiMo /\ write = []))
    /\ userRateLimits w' = userRateLimits w.
Proof.
  unfold mimoAuctionTail, tryMiMoAuction, called.
  destruct (truthy_str (OPENROUTER_API_KEY E)); cbn [negb].
  2:{ exists auctionFallback, w, [], []. cbn. rewrite app_nil_r. repeat split; try done.
      by right. }
  run.
  destruct (auctionAttempt_spec E MiMo "mimo" w)
    as (w1 & Hrl & [(e & -> & Htr)|[[-> Htr]|(r & -> & Htr)]]).
  - exists auctionFallback, w1, [EvFetch MiMo], []. rewrite app_nil_r.
    repeat split; try done. by right.
  - exists auctionFallback, w1, [EvFetch MiMo], []. rewrite app_nil_r.
    repeat split; try done. by right.
  - destruct (setAuctionCache_writes E key r w1) as (w2 & -> & (write & Htr2 & Hwrite) & Hrl2).
    exists r, w2, [EvFetch MiMo; EvAccepted MiMo r], write.
    split; [done|]. split; [|split; [by left|congruence]].
    rewrite Htr2, Htr. by rewrite <- !app_assoc.
Qed.

Lemma generateAIAuction_chain E s country cc w cached w1 :
  getAuctionCache E (auctionCacheKey s cc) w = (Ret cached, w1) ->
  exists r w' chain write,
    generateAIAuction E s country cc w = (Ret r, w')
    /\ trace w' = trace w1 ++ chain ++ write
    /\ (if truthy cached then r = cached /\ chain = [] /\ write = []
        else auction_chain E (auctionCacheKey s cc) r chain write)
    /\ userRateLimits w' = userRateLimits w1.
Proof.
  intros Hc. unfold generateAIAuction. set (key := auctionCacheKey s cc) in *.
  unfold mbind at 1, M_bind at 1. rewrite Hc.
  destruct (truthy cached).
  { exists cached, w1, [], []. cbn. by rewrite app_nil_r. }
  fold (mimoAuctionTail E key). unfold auction_chain, called at 1 2.
  destruct (truthy_str (GROK_API_KEY E)).
  2:{ run. destruct (mimoAuctionTail_chain E key w1)
        as (r & w' & chain & write & -> & Htr & Hshape & Hrl).
      exists r, w', chain, write. split; [done|]. split; [done|]. split; [|done].
      destruct Hshape as [(? & ? & ?)|(? & ? & ?)]; [right; left | right; right]; done. }
  run.
  destruct (auctionAttempt_spec E Grok "grok" w1)
    as (w2 & Hrl2 & [(e & -> & Htr2)|[[-> Htr2]|(r & -> & Htr2)]]).
  1,2: destruct (mimoAuctionTail_chain E key w2)
        as (r & w' & chain & write & -> & Htr & Hshape & Hrl);
      exists r, w', (EvFetch Grok :: chain), write; (split; [done|]);
      (split; [by rewrite Htr, Htr2, <- !app_assoc|]);
      (split; [|congruence]);
      destruct Hshape as [(? & -> & ?)|(? & -> & ?)]; [right; left | right; right]; done.
  destruct (setAuctionCache_writes E key r w2) as (w3 & -> & (write & Htr3 & Hwrite) & Hrl3).
  exists r, w3, [EvFetch Grok; EvAccepted Grok r], write.
  split; [done|]. split; [by rewrite Htr3, Htr2, <- !app_assoc|].
  split; [by left | congruence].
Qed.

Ltac not_listed Hin :=
  repeat (apply elem_of_cons in Hin as [Hin|Hin]; [done|]); by apply elem_of_nil in Hin.

(** C2, amended: every auction request returns, and its calls are, in this
    order: the cache lookup under the request's key; on a hit, nothing
    more, the cached value being returned; on a miss, the provider chain
    (Grok when its key is configured, then MiMo, when its key is configured,
    unless an answer of Grok has been accepted) and the write-through, under
    the request's key, of the result a provider was accepted with, which is
    the result returned; with no answer accepted the empty auction is
    returned and nothing is written.  No rate-limit check is made and the
    rate-limit map is left as it was. *)
Theorem auction_flow E s country cc w :
  exists cached w1 lookup r w' chain write,
    getAuctionCache E (auctionCacheKey s cc) w = (Ret cached, w1)
    /\ trace w1 = trace w ++ lookup
    /\ Forall (lookup_event (auctionCacheKey s cc)) lookup
    /\ generateAIAuction E s country cc w = (Ret r, w')
    /\ trace w' = trace w1 ++ chain ++ write
    /\ (if truthy cached then r = cached /\ chain = [] /\ write = []
        else auction_chain E (auctionCacheKey s cc) r chain write)
    /\ (forall userId, EvRateCheck userId ∉ lookup ++ chain ++ write)
    /\ userRateLimits w' = userRateLimits w.
Proof.
  set (key := auctionCacheKey s cc).
  destruct (nothrow_getAuctionCache E key w) as (cached & w1 & Hc).
  pose proof (steady_getAuctionCache E userRateLimits (lookup_event key) key I eq_refl w)
    as [Hrl1 (lookup & Htr1 & Hlookup)].
  rewrite Hc in Hrl1, Htr1. cbn in Hrl1, Htr1.
  destruct (generateAIAuction_chain E s country cc w cached w1 Hc)
    as (r & w' & chain & write & Hrun & Htr & Hshape & Hrl).
  fold key in Hshape.
  exists cached, w1, lookup, r, w', chain, write.
  repeat split; try done; [|congruence].
  intros userId Hin.
  apply elem_of_app in Hin as [Hin|Hin];
    [by apply (proj1 (Forall_forall _ _) Hlookup) in Hin|].
  assert (forall p, EvRateCheck userId ∉ called E p) as Hcalled.
  { intros [] Hp; unfold called in Hp;
      [destruct (truthy_str (GROK_API_KEY E)) | destruct (truthy_str (OPENROUTER_API_KEY E))];
      not_listed Hp. }
  assert (forall wr, auction_write_through E key r wr -> EvRateCheck userId ∉ wr) as Hwt.
  { intros wr (post & -> & Hpost) Hp. apply elem_of_cons in Hp as [Hp|Hp]; [done|].
    by apply (proj1 (Forall_forall _ _) Hpost) in Hp. }
  destruct (truthy cached).
  - destruct Hshape as (_ & -> & ->). by apply elem_of_nil in Hin.
  - destruct Hshape as [(_ & -> & Hw)|[(_ & -> & Hw)|(_ & -> & ->)]].
    + apply elem_of_app in Hin as [Hin|Hin]; [not_listed Hin | by apply (Hwt write)].
    + apply elem_of_app in Hin as [Hin|Hin]; [|by apply (Hwt write)].
      apply elem_of_app in Hin as [Hin|Hin]; [by apply (Hcalled Grok) | not_listed Hin].
    + rewrite app_nil_r in Hin.
      apply elem_of_app in Hin as [Hin|Hin]; [by apply (Hcalled Grok) | by apply (Hcalled MiMo)].
Qed.

(** ** Runs against a store that cannot be reached *)

Lemma acquire_down E c w :
  store_down E -> is_open (client (conn_of c w)) = false ->
  exists w', acquire E c w = (Ret None, w')
    /\ is_open (client (conn_of c w')) = false
    /\ store_sets w' = store_sets w.
Proof.
  intros Hdown Hclosed. unfold acquire. run.
  destruct (_ && _); [by exists w|]. rewrite Hclosed.
  destruct (connecting (conn_of c w)); [by exists w|].
  unfold client_connect. run. cbn. rewrite Hdown.
  destruct (error_event E c _); run; destruct c; cbn; by eexists.
Qed.

Lemma getCachedProfile_down E key w :
  store_down E -> is_open (client (cacheConn w)) = false ->
  exists w', getCachedProfile E key w = (Ret JNull, w').
Proof.
  intros Hdown Hclosed. unfold getCachedProfile, getRedis. run.
  destruct (acquire_down E CacheConn w Hdown Hclosed) as (w' & -> & _). by exists w'.
Qed.

Lemma trackAttempt_down E attempt key w :
  store_down E -> is_open (client (trackingConn w)) = false ->
  exists w', trackAttempt E 3 attempt key w
             = (Ret (if attempt <? 3 then None else Some false), w')
    /\ is_open (client (trackingConn w')) = false.
Proof.
  intros Hdown Hclosed. unfold trackAttempt, getTrackingRedis. run.
  destruct (acquire_down E TrackingConn w Hdown Hclosed) as (w' & -> & Hc & _).
  destruct (attempt <? 3); [|by exists w']. unfold sleep. run. by eexists.
Qed.

Lemma trackUniqueVisitor_down E fp cb w :
  store_down E -> is_open (client (trackingConn w)) = false ->
  (trackUniqueVisitor E fp cb w).1 = Ret false.
Proof.
  intros Hdown Hclosed. unfold trackUniqueVisitor.
  change (Z.to_nat 3) with 3%nat. cbn [trackLoop]. run.
  destruct (trackAttempt_down E 1 (fp +:+ ":" +:+ cb) w Hdown Hclosed) as (w1 & -> & Hc1).
  change (1 <? 3) with true. cbv beta iota.
  destruct (trackAttempt_down E (1 + 1) (fp +:+ ":" +:+ cb) w1 Hdown Hc1)
    as (w2 & -> & Hc2).
  change (1 + 1 <? 3) with true. cbv beta iota.
  destruct (trackAttempt_down E (1 + 1 + 1) (fp +:+ ":" +:+ cb) w2 Hdown Hc2)
    as (w3 & -> & Hc3).
  done.
Qed.

Lemma countAttempt_down E attempt w :
  store_down E -> is_open (client (trackingConn w)) = false ->
  exists w', countAttempt E 2 attempt w
             = (Ret (if attempt <? 2 then None else Some 0), w')
    /\ is_open (client (trackingConn w')) = false.
Proof.
  intros Hdown Hclosed. unfold countAttempt, getTrackingRedis. run.
  destruct (acquire_down E TrackingConn w Hdown Hclosed) as (w' & -> & Hc & _).
  destruct (attempt <? 2); [|by exists w']. unfold sleep. run. by eexists.
Qed.

Lemma getTotalUniqueVisitors_down E w :
  store_down E -> is_open (client (trackingConn w)) = false ->
  (getTotalUniqueVisitors E w).1 = Ret 0.
Proof.
  intros Hdown Hclosed. unfold getTotalUniqueVisitors.
  change (Z.to_nat 2) with 2%nat. cbn [countLoop]. run.
  destruct (countAttempt_down E 1 w Hdown Hclosed) as (w1 & -> & Hc1).
  change (1 <? 2) with true. cbv beta iota.
  destruct (countAttempt_down E (1 + 1) w1 Hdown Hc1) as (w2 & -> & Hc2).
  done.
Qed.

Lemma acquire_attempts E c w :
  free_to_connect (conn_of c w) ->
  trace (acquire E c w).2 = trace w ++ [EvConnect c (REDIS_URL E)].
Proof.
  intros (Hl & Ho & Hc). unfold acquire. run. rewrite Hl, Ho, Hc. cbn.
  unfold client_connect. run. cbn.
  destruct (error_event E c _), (connect_ok E c _); run; by destruct c.
Qed.

(** ** REDIS_URL left unset *)

(** C3, as stated, fails: with REDIS_URL unset the clients are created for
    [redis://localhost:6379] and both acquisition functions do call
    [connect]; when a Redis answers there, profiles are cached (the second
    and third request of a visitor are served from the cache) and visitors
    are tracked. *)
Lemma unset_url_still_connects :
  env_REDIS_URL localRedisEnv = None
  /\ (getRedis localRedisEnv (boot ∅ ∅)).1
     = Ret (Some {| url := "redis://localhost:6379"; tls := false; isOpen := true |})
  /\ trace (getRedis localRedisEnv (boot ∅ ∅)).2
     = [EvConnect CacheConn "redis://localhost:6379"]
  /\ trace (getTrackingRedis localRedisEnv (boot ∅ ∅)).2
     = [EvConnect TrackingConn "redis://localhost:6379"]
  /\ map source_of
       (three_calls localRedisEnv (visitor (Some "fp1") (Some "hw1"))
          (visitor (Some "fp1") (Some "hw1")) (visitor (Some "fp1") (Some "hw1"))
          (boot ∅ ∅)).1
     = [Some ai; Some cache; Some cache]
  /\ (trackUniqueVisitor localRedisEnv "fp1" "hw1" (boot ∅ ∅)).1 = Ret true.
Proof. repeat split; vm_compute; reflexivity. Qed.

(** C3, amended: with REDIS_URL unset the store URL is
    [redis://localhost:6379], and a connection that is free to connect
    still makes its attempt, to that address; it is when no connection to
    Redis can be established that caching and tracking are off: then no
    profile request is served from the cache, each still returns a profile
    that is not [null] (the rule-based one when no provider is configured),
    [trackUniqueVisitor] returns [false] and [getTotalUniqueVisitors] 0. *)
Theorem unset_redis_url E :
  env_REDIS_URL E = None ->
  REDIS_URL E = "redis://localhost:6379"
  /\ (forall c w, free_to_connect (conn_of c w) ->
        trace (acquire E c w).2 = trace w ++ [EvConnect c "redis://localhost:6379"])
  /\ (store_down E ->
      (forall ci geo w, is_open (client (cacheConn w)) = false ->
         exists res w',
           generateAIProfile E ci geo w = (Ret res, w')
           /\ profile res <> JNull /\ source res <> cache
           /\ (truthy_str (GROK_API_KEY E) = false ->
               truthy_str (OPENROUTER_API_KEY E) = false ->
               source res = fallback /\ profile res = generateFallbackProfile ci geo))
      /\ (forall fp cb w, is_open (client (trackingConn w)) = false ->
            (trackUniqueVisitor E fp cb w).1 = Ret false
            /\ (getTotalUniqueVisitors E w).1 = Ret 0)).
Proof.
  intros Hunset.
  assert (REDIS_URL E = "redis://localhost:6379") as Hurl
    by (unfold REDIS_URL; by rewrite Hunset).
  split; [done|]. split.
  { intros c w Hfree. rewrite <- Hurl. by apply acquire_attempts. }
  intros Hdown. split.
  - intros ci geo w Hclosed.
    destruct (generateAIProfile_spec E ci geo w) as (res & w' & Hrun & Htruthy & Hshape).
    destruct (getCachedProfile_down E
                (getCacheKey (str_or (fingerprintId ci) "unknown")
                             (str_or (crossBrowserId ci) "unknown")) w Hdown Hclosed)
      as (w1 & Hmiss).
    exists res, w'. split; [done|]. split; [|split].
    + intros Hnull. by rewrite Hnull in Htruthy.
    + intros Hsrc. rewrite Hsrc in Hshape. rewrite Hshape in Hmiss.
      injection Hmiss as Hnull _. by rewrite Hnull in Htruthy.
    + intros Hg Hr. revert Hrun. unfold generateAIProfile.
      unfold mbind at 1, M_bind at 1. rewrite Hmiss. cbn [truthy].
      rewrite Hg, Hr. cbn. intros [= <- _]. done.
  - intros fp cb w Hclosed. split.
    + by apply trackUniqueVisitor_down.
    + by apply getTotalUniqueVisitors_down.
Qed.

(** A process started with no REDIS_URL, no provider key and no Redis
    within reach answers with the rule-based profile. *)
Lemma unset_redis_url_witness :
  env_REDIS_URL coldStartEnv = None
  /\ exists res w',
       generateAIProfile coldStartEnv noClientInfo None (boot ∅ ∅) = (Ret res, w')
       /\ source res = fallback
       /\ profile res = generateFallbackProfile noClientInfo None.
Proof.
  split; [reflexivity|].
  destruct (unset_redis_url coldStartEnv eq_refl) as (_ & _ & Hdown).
  destruct Hdown as [Hprofile _]; [intros c t; reflexivity|].
  destruct (Hprofile noClientInfo None (boot ∅ ∅) eq_refl)
    as (res & w' & Hrun & _ & _ & Hfb).
  exists res, w'. split; [exact Hrun|]. apply Hfb; reflexivity.
Defined.

(** ** The rate gate of the profile chain *)

Lemma checkRateLimit_fresh now userId limits :
  starts_window now (limits !! userId) ->
  checkRateLimit now userId limits
  = (true, <[userId := {| count := 1; resetTime := now + RATE_LIMIT_WINDOW |}]> limits).
Proof.
  unfold starts_window, checkRateLimit. destruct (limits !! userId) as [e|]; [|done].
  intros Hlate. apply Z.ltb_lt in Hlate. by rewrite Hlate.
Qed.

Lemma checkRateLimit_inside now userId limits e :
  limits !! userId = Some e -> now <= resetTime e ->
  checkRateLimit now userId limits
  = if count e <? RATE_LIMIT_MAX
    then (true, <[userId := {| count := count e + 1; resetTime := resetTime e |}]> limits)
    else (false, limits).
Proof.
  intros He Hin. unfold checkRateLimit. rewrite He.
  assert ((resetTime e <? now) = false) as -> by (apply Z.ltb_ge; lia).
  destruct (RATE_LIMIT_MAX <=? count e) eqn:Hmax.
  - apply Z.leb_le in Hmax.
    assert ((count e <? RATE_LIMIT_MAX) = false) as -> by (apply Z.ltb_ge; lia). done.
  - apply Z.leb_gt in Hmax.
    assert ((count e <? RATE_LIMIT_MAX) = true) as -> by (apply Z.ltb_lt; lia). done.
Qed.

Lemma window_boundary now1 now2 now3 now4 userId limits :
  starts_window now1 (limits !! userId) ->
  now2 <= now1 + RATE_LIMIT_WINDOW -> now3 <= now1 + RATE_LIMIT_WINDOW ->
  now1 + RATE_LIMIT_WINDOW < now4 ->
  (run_checks userId [now1; now2; now3] limits).1 = [true; true; false]
  /\ (checkRateLimit now4 userId (run_checks userId [now1; now2; now3] limits).2).1 = true.
Proof.
  intros Hstart H2 H3 H4.
  assert (run_checks userId [now1; now2; now3] limits
          = ([true; true; false],
             <[userId := {| count := 2; resetTime := now1 + RATE_LIMIT_WINDOW |}]> limits))
    as ->.
  { cbn [run_checks]. rewrite (checkRateLimit_fresh _ _ _ Hstart).
    erewrite (checkRateLimit_inside now2) by (by rewrite ?lookup_insert_eq).
    cbn. rewrite insert_insert_eq.
    erewrite (checkRateLimit_inside now3) by (by rewrite ?lookup_insert_eq).
    done. }
  split; [done|]. cbn [snd].
  rewrite checkRateLimit_fresh; [done|]. by rewrite lookup_insert_eq.
Qed.

Lemma getCachedProfile_ticks E key w :
  (tick w <= tick (getCachedProfile E key w).2 <= tick w + 2)%nat.
Proof.
  unfold getCachedProfile, getRedis, acquire, client_connect, client_get. run.
  cbn. split_ifs; run; cbn; split_ifs; cbn; lia.
Qed.

(** The lookup that opens a run, with what it leaves alone. *)
Lemma lookup_step E key w :
  exists cached w1, getCachedProfile E key w = (Ret cached, w1)
    /\ userRateLimits w1 = userRateLimits w
    /\ extends_by no_fetch w w1
    /\ (tick w <= tick w1 <= tick w + 2)%nat.
Proof.
  destruct (nothrow_getCachedProfile E key w) as (cached & w1 & Hc).
  pose proof (steady_getCachedProfile E userRateLimits no_fetch key I I w) as [Hrl Hev].
  pose proof (getCachedProfile_ticks E key w) as Ht.
  rewrite Hc in Hrl, Hev, Ht. by exists cached, w1.
Qed.

Lemma configured_gate E :
  configured E ->
  negb (truthy_str (GROK_API_KEY E)) && negb (truthy_str (OPENROUTER_API_KEY E)) = false.
Proof. intros [-> | ->]; [done | by rewrite andb_false_r]. Qed.

Lemma gate_denied E ci geo w e res w' :
  let userId := str_or (fingerprintId ci) "unknown" +:+ ":"
                +:+ str_or (crossBrowserId ci) "unknown" in
  configured E ->
  userRateLimits w !! userId = Some e -> RATE_LIMIT_MAX <= count e ->
  (forall t, (tick w <= t <= tick w + 2)%nat -> clock E t <= resetTime e) ->
  generateAIProfile E ci geo w = (Ret res, w') -> source res <> cache ->
  res = {| profile := generateFallbackProfile ci geo; source := fallback;
           error := Some "Rate limited" |}
  /\ extends_by no_fetch w w'
  /\ userRateLimits w' = userRateLimits w.
Proof.
  intros userId Hconf He Hfull Hin. rewrite generateAIProfile_gates. cbv zeta.
  destruct (lookup_step E (getCacheKey (str_or (fingerprintId ci) "unknown")
                                        (str_or (crossBrowserId ci) "unknown")) w)
    as (cached & w1 & Hc & Hrl & Hev & Ht).
  unfold mbind at 1, M_bind at 1. rewrite Hc.
  destruct (truthy cached); [by intros [= <- _]|].
  rewrite (configured_gate E Hconf). run. fold userId. rewrite Hrl.
  unfold checkRateLimit. rewrite He.
  assert ((resetTime e <? clock E (tick w1)) = false) as ->
    by (apply Z.ltb_ge, Hin; lia).
  assert ((RATE_LIMIT_MAX <=? count e) = true) as -> by (by apply Z.leb_le).
  cbn. intros [= <- <-] _. split; [done|]. split; [|done].
  etransitivity; [exact Hev|]. eexists [_]. split; [done | by repeat constructor].
Qed.

Lemma gate_passed E ci geo w res w' :
  let userId := str_or (fingerprintId ci) "unknown" +:+ ":"
                +:+ str_or (crossBrowserId ci) "unknown" in
  configured E ->
  (forall t, (tick w <= t <= tick w + 2)%nat ->
             starts_window (clock E t) (userRateLimits w !! userId)) ->
  generateAIProfile E ci geo w = (Ret res, w') -> source res <> cache ->
  (exists p, contacts p w w')
  /\ exists now,
       userRateLimits w'
       = <[userId := {| count := 1; resetTime := now + RATE_LIMIT_WINDOW |}]>
           (userRateLimits w).
Proof.
  intros userId Hconf Hin. rewrite generateAIProfile_gates. cbv zeta.
  set (key := getCacheKey _ _).
  destruct (lookup_step E key w) as (cached & w1 & Hc & Hrl & Hev & Ht).
  unfold mbind at 1, M_bind at 1. rewrite Hc.
  destruct (truthy cached); [by intros [= <- _]|].
  rewrite (configured_gate E Hconf). run. fold userId. rewrite Hrl.
  rewrite checkRateLimit_fresh by (apply Hin; lia). cbn.
  set (w2 := set_userRateLimits _ _).
  destruct (providerChain_spec E ci geo key w2)
    as (res' & w'' & -> & Hs & Hsrc & Hrl2 & Hgrok & Hmimo).
  intros [= <- <-] _. split.
  - assert (extends_by no_fetch w w2) as Hev2.
    { etransitivity; [exact Hev|]. eexists [_]. split; [done | by repeat constructor]. }
    destruct (truthy_str (GROK_API_KEY E)) eqn:Hg.
    + exists Grok. eapply contacts_after; [exact Hev2 | by apply Hgrok].
    + exists MiMo. eapply contacts_after; [exact Hev2|]. apply Hmimo; [done|].
      destruct Hconf as [Hc'|Hc']; [by rewrite Hc' in Hg | done].
  - exists (clock E (tick w1)). by rewrite Hrl2.
Qed.

(** C4, as stated, fails: with Redis up and both providers healthy, the
    first call of a caller is answered by Grok and cached, so the second and
    the third call inside the same window (it ends at 1700000062000, the
    third call returns at 1700000007000) are served from the cache, and the
    third is not routed to the fallback; the window has counted one call. *)
Lemma third_call_served_from_cache :
  let run := three_calls profileDemoEnv (visitor (Some "fp1") (Some "hw1"))
               (visitor (Some "fp1") (Some "hw1")) (visitor (Some "fp1") (Some "hw1"))
               (boot ∅ ∅) in
  map source_of run.1 = [Some ai; Some cache; Some cache]
  /\ userRateLimits run.2 !! "fp1:hw1"
     = Some {| count := 1; resetTime := 1700000062000 |}
  /\ clock profileDemoEnv (tick run.2) = 1700000007000.
Proof. repeat split; vm_compute; reflexivity. Qed.

(** C4, amended: the limiter allows the first two checks of a caller in a
    window and denies the third, and allows the check that falls after the
    window's reset time; in [generateAIProfile], with a provider configured,
    a call that is not served from the cache and finds the caller's window
    open and full returns the rule-based profile with "Rate limited", calls
    no provider whatever their health, and leaves the window as it is; a
    call that is not served from the cache and comes when the caller has no
    window or after its window's reset time passes the gate: a provider is
    called and a new window with count 1 is opened. *)
Theorem rate_limit_boundary :
  (forall now1 now2 now3 now4 userId limits,
      starts_window now1 (limits !! userId) ->
      now2 <= now1 + RATE_LIMIT_WINDOW -> now3 <= now1 + RATE_LIMIT_WINDOW ->
      now1 + RATE_LIMIT_WINDOW < now4 ->
      (run_checks userId [now1; now2; now3] limits).1 = [true; true; false]
      /\ (checkRateLimit now4 userId
            (run_checks userId [now1; now2; now3] limits).2).1 = true)
  /\ (forall E ci geo w e res w',
        let userId := str_or (fingerprintId ci) "unknown" +:+ ":"
                      +:+ str_or (crossBrowserId ci) "unknown" in
        configured E ->
        userRateLimits w !! userId = Some e -> RATE_LIMIT_MAX <= count e ->
        (forall t, (tick w <= t <= tick w + 2)%nat -> clock E t <= resetTime e) ->
        generateAIProfile E ci geo w = (Ret res, w') -> source res <> cache ->
        res = {| profile := generateFallbackProfile ci geo; source := fallback;
                 error := Some "Rate limited" |}
        /\ extends_by no_fetch w w'
        /\ userRateLimits w' = userRateLimits w)
  /\ (forall E ci geo w res w',
        let userId := str_or (fingerprintId ci) "unknown" +:+ ":"
                      +:+ str_or (crossBrowserId ci) "unknown" in
        configured E ->
        (forall t, (tick w <= t <= tick w + 2)%nat ->
                   starts_window (clock E t) (userRateLimits w !! userId)) ->
        generateAIProfile E ci geo w = (Ret res, w') -> source res <> cache ->
        (exists p, contacts p w w')
        /\ exists now,
             userRateLimits w'
             = <[userId := {| count := 1; resetTime := now + RATE_LIMIT_WINDOW |}]>
                 (userRateLimits w)).
Proof.
  split; [|split].
  - intros. by apply window_boundary.
  - intros E ci geo w e res w' userId. by apply gate_denied.
  - intros E ci geo w res w' userId. by apply gate_passed.
Qed.

(** With Redis out of reach and both providers healthy, the caller whose
    window is full gets the rule-based profile. *)
Lemma rate_limit_boundary_witness :
  configured offlineDemoEnv
  /\ userRateLimits exhaustedWorld !! "fp1:hw1"
     = Some {| count := 2; resetTime := 1700000060000 |}
  /\ exists res w',
       generateAIProfile offlineDemoEnv (visitor (Some "fp1") (Some "hw1")) None
                         exhaustedWorld = (Ret res, w')
       /\ res = {| profile := generateFallbackProfile (visitor (Some "fp1") (Some "hw1")) None;
                   source := fallback; error := Some "Rate limited" |}.
Proof.
  assert (configured offlineDemoEnv) as Hconf by (left; reflexivity).
  split; [exact Hconf|]. split; [reflexivity|].
  assert (exists res w',
            generateAIProfile offlineDemoEnv (visitor (Some "fp1") (Some "hw1")) None
                              exhaustedWorld = (Ret res, w')
            /\ source res <> cache) as (res & w' & Hrun & Hsrc)
    by (eexists _, _; split; [vm_compute; reflexivity | discriminate]).
  exists res, w'. split; [exact Hrun|].
  destruct rate_limit_boundary as (_ & Hdenied & _).
  refine (proj1 (Hdenied offlineDemoEnv (visitor (Some "fp1") (Some "hw1")) None
                         exhaustedWorld {| count := 2; resetTime := 1700000060000 |}
                         res w' Hconf eq_refl _ _ Hrun Hsrc)).
  - unfold RATE_LIMIT_MAX. simpl. lia.
  - intros t Ht. change (tick exhaustedWorld) with 0%nat in Ht.
    change (clock offlineDemoEnv t) with (demo_clock t). unfold demo_clock. simpl. lia.
Defined.

(** ** The keys a profile request uses *)

#[global] Instance static_nothing : Static nothing.
Proof. by split. Qed.
#[global] Instance blind_nothing : StoreBlind nothing.
Proof. by intros m w. Qed.

Ltac frame_leaf ::=
  first
    [ apply steady_getCachedProfile
    | apply steady_cacheProfile
    | apply steady_fetch
    | apply preserves_modify; intros ?; apply steady_here ].

Lemma generateAIProfile_events E ci geo w :
  extends_by
    (profile_event E
       (getCacheKey (str_or (fingerprintId ci) "unknown")
                    (str_or (crossBrowserId ci) "unknown"))
       (str_or (fingerprintId ci) "unknown" +:+ ":"
        +:+ str_or (crossBrowserId ci) "unknown"))
    w (generateAIProfile E ci geo w).2.
Proof.
  set (key := getCacheKey _ _). set (userId := _ +:+ ":" +:+ _).
  enough (preserves (steady nothing (profile_event E key userId))
                    (generateAIProfile E ci geo)) as H by apply H.
  unfold generateAIProfile, mimoOrFallback, tryMiMo, checkRateLimitM.
  fold key. fold userId. frame.
Qed.

Lemma length_append s t :
  String.length (s +:+ t) = (String.length s + String.length t)%nat.
Proof.
  induction s as [|a s IH]; [done|].
  change (String a s +:+ t) with (String a (s +:+ t)). cbn [String.length]. by rewrite IH.
Qed.

Lemma append_inj_r t s1 : forall s2, s1 +:+ t = s2 +:+ t -> s1 = s2.
Proof.
  induction s1 as [|a s1 IH]; intros [|b s2] Heq.
  - done.
  - apply (f_equal String.length) in Heq. rewrite !length_append in Heq. cbn in Heq. lia.
  - apply (f_equal String.length) in Heq. rewrite !length_append in Heq. cbn in Heq. lia.
  - change (String a (s1 +:+ t) = String b (s2 +:+ t)) in Heq.
    injection Heq as -> Heq. by rewrite (IH s2 Heq).
Qed.

Lemma same_key_same_first fp fp' cb :
  (getCacheKey fp cb = getCacheKey fp' cb <-> fp = fp')
  /\ (fp +:+ ":" +:+ cb = fp' +:+ ":" +:+ cb <-> fp = fp').
Proof.
  split; (split; [|by intros ->]); intros Heq.
  - unfold getCacheKey in Heq. apply (inj (String.app "yourinfo:profile:")) in Heq.
    by apply append_inj_r in Heq.
  - by apply append_inj_r in Heq.
Qed.

Lemma same_key_same_second fp cb cb' :
  (getCacheKey fp cb = getCacheKey fp cb' <-> cb = cb')
  /\ (fp +:+ ":" +:+ cb = fp +:+ ":" +:+ cb' <-> cb = cb').
Proof.
  split; (split; [|by intros ->]); intros Heq.
  - unfold getCacheKey in Heq. apply (inj (String.app "yourinfo:profile:")) in Heq.
    apply (inj (String.app fp)) in Heq. by apply (inj (String.app ":")) in Heq.
  - apply (inj (String.app fp)) in Heq. by apply (inj (String.app ":")) in Heq.
Qed.

(** C9, as stated, fails: two requests that both lack [crossBrowserId],
    with the fingerprint ids [alice] and [bob], share neither the cache key
    nor the bucket.  The second is not served the profile stored for the
    first: it looks up its own key, is checked under its own bucket, calls
    Grok and writes under its own key; and each bucket counts one
    request. *)
Lemma partial_identity_is_not_shared :
  crossBrowserId aliceOnly = None /\ crossBrowserId bobOnly = None
  /\ source_of (generateAIProfile profileDemoEnv aliceOnly None (boot ∅ ∅)).1 = Some ai
  /\ trace afterAlice
     = [EvConnect CacheConn "redis://cache:6379";
        EvGet "yourinfo:profile:alice:unknown";
        EvRateCheck "alice:unknown";
        EvFetch Grok;
        EvAccepted Grok storedProfile;
        EvCacheProfile "yourinfo:profile:alice:unknown" storedProfile;
        EvSetEx "yourinfo:profile:alice:unknown" 2592000 "<stored profile>"]
  /\ source_of (generateAIProfile profileDemoEnv bobOnly None afterAlice).1 = Some ai
  /\ drop (length (trace afterAlice))
          (trace (generateAIProfile profileDemoEnv bobOnly None afterAlice).2)
     = [EvGet "yourinfo:profile:bob:unknown";
        EvRateCheck "bob:unknown";
        EvFetch Grok;
        EvAccepted Grok storedProfile;
        EvCacheProfile "yourinfo:profile:bob:unknown" storedProfile;
        EvSetEx "yourinfo:profile:bob:unknown" 2592000 "<stored profile>"]
  /\ userRateLimits (generateAIProfile profileDemoEnv bobOnly None afterAlice).2
       !! "alice:unknown"
     = Some {| count := 1; resetTime := 1700000062000 |}
  /\ userRateLimits (generateAIProfile profileDemoEnv bobOnly None afterAlice).2
       !! "bob:unknown"
     = Some {| count := 1; resetTime := 1700000066000 |}.
Proof. repeat split; vm_compute; reflexivity. Qed.

(** C9, amended: [generateAIProfile] puts the literal [unknown] in the place
    of each identity field that is absent (or empty), and every cache access
    and rate-limit check of a run uses the key and the bucket built from the
    resulting pair.  The requests that carry neither field all use the one
    key [yourinfo:profile:unknown:unknown] and the one bucket
    [unknown:unknown]: such a request is served whatever profile is stored
    under that key, writes the profile a provider gives it under that key,
    is refused by the limiter once that bucket's window is full, and counts
    against that bucket when it passes.  Requests that lack one field only
    do not all share: two requests without [crossBrowserId], or two without
    [fingerprintId], have the same key, and the same bucket, exactly when
    their other field is, after the substitution, the same. *)
Theorem unknown_identity_is_shared E ci geo w :
  (forall d, str_or None d = d /\ str_or (Some "") d = d)
  /\ extends_by
       (profile_event E
          (getCacheKey (str_or (fingerprintId ci) "unknown")
                       (str_or (crossBrowserId ci) "unknown"))
          (str_or (fingerprintId ci) "unknown" +:+ ":"
           +:+ str_or (crossBrowserId ci) "unknown"))
       w (generateAIProfile E ci geo w).2
  /\ (truthy_str (fingerprintId ci) = false -> truthy_str (crossBrowserId ci) = false ->
      let key := "yourinfo:profile:unknown:unknown" in
      let userId := "unknown:unknown" in
      extends_by (profile_event E key userId) w (generateAIProfile E ci geo w).2
      /\ (forall str expiry v,
            store_up E -> usable (cacheConn w) ->
            store_strings w !! key = Some (str, expiry) ->
            (forall t, (tick w <= t <= tick w + 2)%nat -> clock E t < expiry) ->
            str <> "" -> JSON_parse E str = Some v -> truthy v = true ->
            (generateAIProfile E ci geo w).1
            = Ret {| profile := v; source := cache; error := None |})
      /\ (forall res w',
            generateAIProfile E ci geo w = (Ret res, w') -> source res = ai ->
            cache_writes (drop (length (trace w)) (trace w')) = [(key, profile res)])
      /\ (forall e res w',
            configured E ->
            userRateLimits w !! userId = Some e -> RATE_LIMIT_MAX <= count e ->
            (forall t, (tick w <= t <= tick w + 2)%nat -> clock E t <= resetTime e) ->
            generateAIProfile E ci geo w = (Ret res, w') -> source res <> cache ->
            res = {| profile := generateFallbackProfile ci geo; source := fallback;
                     error := Some "Rate limited" |})
      /\ (forall res w',
            configured E ->
            (forall t, (tick w <= t <= tick w + 2)%nat ->
                       starts_window (clock E t) (userRateLimits w !! userId)) ->
            generateAIProfile E ci geo w = (Ret res, w') -> source res <> cache ->
            exists now,
              userRateLimits w'
              = <[userId := {| count := 1; resetTime := now + RATE_LIMIT_WINDOW |}]>
                  (userRateLimits w)))
  /\ (forall ci',
        let fp := str_or (fingerprintId ci) "unknown" in
        let cb := str_or (crossBrowserId ci) "unknown" in
        let fp' := str_or (fingerprintId ci') "unknown" in
        let cb' := str_or (crossBrowserId ci') "unknown" in
        (truthy_str (crossBrowserId ci) = false -> truthy_str (crossBrowserId ci') = false ->
         (getCacheKey fp cb = getCacheKey fp' cb' <-> fp = fp')
         /\ (fp +:+ ":" +:+ cb = fp' +:+ ":" +:+ cb' <-> fp = fp'))
        /\ (truthy_str (fingerprintId ci) = false -> truthy_str (fingerprintId ci') = false ->
            (getCacheKey fp cb = getCacheKey fp' cb' <-> cb = cb')
            /\ (fp +:+ ":" +:+ cb = fp' +:+ ":" +:+ cb' <-> cb = cb'))).
Proof.
  split; [done|]. split; [apply generateAIProfile_events|].
  split.
  2:{ intros ci' fp cb fp' cb'. subst fp cb fp' cb'. unfold str_or. split; intros -> ->.
      - apply same_key_same_first.
      - apply same_key_same_second. }
  intros Hfp Hcb key userId.
  assert (str_or (fingerprintId ci) "unknown" = "unknown") as Hfp'
    by (unfold str_or; by rewrite Hfp).
  assert (str_or (crossBrowserId ci) "unknown" = "unknown") as Hcb'
    by (unfold str_or; by rewrite Hcb).
  pose proof (generateAIProfile_events E ci geo w) as Hev.
  rewrite Hfp', Hcb' in Hev.
  split; [exact Hev|]. split; [|split; [|split]].
  - intros str expiry v Hup Hu Hlook Hclock Hstr Hparse Htruthy.
    destruct (profile_cache_hit E ci geo w str expiry v) as (w' & -> & _); try done.
    by rewrite Hfp', Hcb'.
  - intros res w' Hrun Hsrc.
    destruct (generateAIProfile_spec E ci geo w) as (res0 & w0 & Hrun0 & _ & Hshape).
    rewrite Hrun in Hrun0. injection Hrun0 as <- <-.
    rewrite Hfp', Hcb', Hsrc in Hshape.
    destruct Hshape as (pre & p & post & Htr & Hpre & Hpost & _).
    rewrite Htr, drop_app_length, !cache_writes_app.
    by rewrite (cache_writes_quiet pre), (cache_writes_store post).
  - intros e res w' Hconf He Hfull Hin Hrun Hsrc.
    refine (proj1 (gate_denied E ci geo w e res w' Hconf _ Hfull Hin Hrun Hsrc)).
    by rewrite Hfp', Hcb'.
  - intros res w' Hconf Hin Hrun Hsrc.
    destruct (gate_passed E ci geo w res w' Hconf) as [_ (now & Hnow)]; try done.
    + by rewrite Hfp', Hcb'.
    + exists now. by rewrite Hfp', Hcb' in Hnow.
Qed.

(** Two requests without identity, from different devices, one after the
    other: the second is served the profile Grok gave the first. *)
Lemma unknown_identity_is_shared_witness :
  truthy_str (fingerprintId anonymousGamer) = false
  /\ truthy_str (crossBrowserId anonymousGamer) = false
  /\ (generateAIProfile profileDemoEnv noClientInfo None (boot ∅ ∅)).1
     = Ret {| profile := storedProfile; source := ai; error := None |}
  /\ (generateAIProfile profileDemoEnv anonymousGamer None afterFirstAnonymous).1
     = Ret {| profile := storedProfile; source := cache; error := None |}.
Proof.
  split; [reflexivity|]. split; [reflexivity|]. split; [vm_compute; reflexivity|].
  destruct (unknown_identity_is_shared profileDemoEnv anonymousGamer None
              afterFirstAnonymous) as (_ & _ & Hshared & _).
  destruct (Hshared eq_refl eq_refl) as (_ & Hread & _).
  apply (Hread "<stored profile>" 1702592005000 storedProfile).
  - intros t. split; [reflexivity|]. intros c. split; reflexivity.
  - split; [reflexivity | left; reflexivity].
  - vm_compute. reflexivity.
  - intros t Ht. change (tick afterFirstAnonymous) with 5%nat in Ht.
    change (clock profileDemoEnv t) with (demo_clock t). unfold demo_clock. lia.
  - discriminate.
  - reflexivity.
  - reflexivity.
Defined.

(** C10: the auction cache key is made of the first 32 base64 characters of
    the profile summary, which encode its first 24 bytes and nothing else,
    and of the country code; two summaries that agree on their first 24
    bytes have, with one country code, the same key, so the cache accesses
    and the write-through of a request for the one use the key of the
    other, and a request for the second is served whatever auction is
    stored under the key of the first, without any call to a provider. *)
Theorem auction_key_prefix_collision :
  (forall s cc,
      auctionCacheKey s cc
      = "yourinfo:auction:" +:+ slice_to 32 (base64 (slice_to 24 s)) +:+ ":" +:+ cc)
  /\ (forall s1 s2 cc,
        slice_to 24 s1 = slice_to 24 s2 -> auctionCacheKey s1 cc = auctionCacheKey s2 cc)
  /\ (forall E s1 s2 country1 country2 cc w,
        slice_to 24 s1 = slice_to 24 s2 ->
        (exists r w' lookup chain write,
            generateAIAuction E s1 country1 cc w = (Ret r, w')
            /\ trace w' = trace w ++ lookup ++ chain ++ write
            /\ Forall (lookup_event (auctionCacheKey s2 cc)) lookup
            /\ Forall chain_event chain
            /\ auction_write (auctionCacheKey s2 cc) r chain write)
        /\ (forall str expiry v,
              store_up E -> usable (cacheConn w) ->
              store_strings w !! auctionCacheKey s1 cc = Some (str, expiry) ->
              (forall t, (tick w <= t <= tick w + 2)%nat -> clock E t < expiry) ->
              str <> "" -> JSON_parse E str = Some v -> truthy v = true ->
              exists w', generateAIAuction E s2 country2 cc w = (Ret v, w')
                         /\ extends_by no_fetch w w')).
Proof.
  split; [|split].
  - intros s cc. apply (auctionCacheKey_prefix s (slice_to 24 s) cc).
    by rewrite slice_to_idem.
  - apply auctionCacheKey_prefix.
  - intros E s1 s2 country1 country2 cc w Heq.
    pose proof (auctionCacheKey_prefix s1 s2 cc Heq) as Hkey. split.
    + destruct (generateAIAuction_spec E s1 country1 cc w)
        as (r & w' & lookup & chain & write & Hrun & Htr & Hl & Hc & Hw & _).
      rewrite Hkey in Hl, Hw. by exists r, w', lookup, chain, write.
    + intros str expiry v Hup Hu Hlook Hclock Hstr Hparse Htruthy.
      rewrite Hkey in Hlook. by eapply auction_cache_hit.
Qed.

(** Two different summaries with the same first 24 bytes: the auction made
    for the first is what the second request gets. *)
Lemma auction_key_prefix_collision_witness :
  slice_to 24 "Developer, premium device, Toronto"
  = slice_to 24 "Developer, premium device, gamer, crypto wallets"
  /\ (generateAIAuction auctionDemoEnv "Developer, premium device, Toronto" "Canada" "CA"
        (boot ∅ ∅)).1 = Ret storedAuction
  /\ exists w',
       generateAIAuction auctionDemoEnv "Developer, premium device, gamer, crypto wallets"
                         "Canada" "CA" afterFirstAuction = (Ret storedAuction, w')
       /\ extends_by no_fetch afterFirstAuction w'.
Proof.
  split; [reflexivity|]. split; [vm_compute; reflexivity|].
  destruct auction_key_prefix_collision as (_ & _ & Hserved).
  destruct (Hserved auctionDemoEnv "Developer, premium device, Toronto"
              "Developer, premium device, gamer, crypto wallets" "Canada" "Canada" "CA"
              afterFirstAuction eq_refl) as [_ Hread].
  apply (Hread "<stored auction>" 1700003605000 storedAuction).
  - intros t. split; [reflexivity|]. intros c. split; reflexivity.
  - split; [reflexivity | left; reflexivity].
  - vm_compute. reflexivity.
  - intros t Ht. change (tick afterFirstAuction) with 5%nat in Ht.
    change (clock auctionDemoEnv t) with (demo_clock t). unfold demo_clock. lia.
  - discriminate.
  - reflexivity.
  - reflexivity.
Defined.

(** ** Further witnesses *)

(** Four acquisitions within five seconds of the failure: none connects. *)
Lemma cooldown_short_circuit_witness :
  0 < lastError (conn_of CacheConn coolingWorld)
  /\ acquire localRedisEnv CacheConn coolingWorld = (Ret None, coolingWorld)
  /\ exists w',
       acquire_series localRedisEnv CacheConn [1; 2; 4]%nat coolingWorld
       = (repeat (Ret None) 3, w')
       /\ connect_attempts (trace w') = connect_attempts (trace coolingWorld).
Proof.
  assert (0 < lastError (conn_of CacheConn coolingWorld)) as Hpos by (simpl; lia).
  split; [exact Hpos|].
  destruct (cooldown_short_circuit localRedisEnv CacheConn coolingWorld [1; 2; 4]%nat Hpos)
    as (_ & _ & _ & Hone & w' & Hseries & Hattempts & _).
  - repeat constructor; simpl; unfold demo_clock, REDIS_BACKOFF_MS; simpl; lia.
  - split; [exact Hone|]. exists w'. split; [exact Hseries | exact Hattempts].
Defined.

(** A new visitor tracked four times from start-up: counted once. *)
Lemma visitor_idempotence_witness :
  store_up localRedisEnv /\ usable (trackingConn (boot ∅ ∅))
  /\ exists w1 w' total,
       trackUniqueVisitor localRedisEnv "fp1" "hw1" (boot ∅ ∅) = (Ret true, w1)
       /\ track_series localRedisEnv "fp1" "hw1" 3 w1 = (repeat (Ret false) 3, w')
       /\ (getTotalUniqueVisitors localRedisEnv (boot ∅ ∅)).1 = Ret total
       /\ (getTotalUniqueVisitors localRedisEnv w1).1 = Ret (total + 1)
       /\ (getTotalUniqueVisitors localRedisEnv w').1 = Ret (total + 1).
Proof.
  assert (store_up localRedisEnv) as Hup
    by (intros t; split; [reflexivity | intros c; split; reflexivity]).
  assert (usable (trackingConn (boot ∅ ∅))) as Hu by (split; [reflexivity | by right]).
  split; [exact Hup|]. split; [exact Hu|].
  destruct (visitor_idempotence localRedisEnv "fp1" "hw1" (boot ∅ ∅) 3 Hup Hu)
    as (w1 & w' & total & Hfirst & Hseries & H0 & H1 & H2).
  exists w1, w', total. split; [exact Hfirst|]. split; [exact Hseries|].
  split; [exact H0|]. split; [exact H1|]. rewrite H2. exact H1.
Defined.

(** A caller checked three times within a minute, and once after it. *)
Lemma rate_window_invariant_witness :
  rateHistory [OpCheck 0 "u"; OpCheck 10 "u"; OpCheck 20 "u"; OpSweep 30] !! "u"
  = Some {| count := 2; resetTime := 60000 |}
  /\ 1 <= 2 <= RATE_LIMIT_MAX
  /\ checkRateLimit 60001 "u"
       (rateHistory [OpCheck 0 "u"; OpCheck 10 "u"; OpCheck 20 "u"; OpSweep 30])
     = (true, <["u" := {| count := 1; resetTime := 60001 + RATE_LIMIT_WINDOW |}]>
                (rateHistory [OpCheck 0 "u"; OpCheck 10 "u"; OpCheck 20 "u"; OpSweep 30])).
Proof.
  destruct rate_window_invariant as (Hinv & _ & _ & Hexpired & _).
  assert (rateHistory [OpCheck 0 "u"; OpCheck 10 "u"; OpCheck 20 "u"; OpSweep 30] !! "u"
          = Some {| count := 2; resetTime := 60000 |}) as Hlook
    by (vm_compute; reflexivity).
  split; [exact Hlook|]. split.
  - exact (Hinv _ "u" _ Hlook).
  - apply (Hexpired 60001 "u" _ _ Hlook). simpl. lia.
Defined.

(** A first request answered by Grok with Redis up: one call of
    [cacheProfile], with the request's key and the profile returned. *)
Lemma write_through_only_for_ai_witness :
  (generateAIProfile profileDemoEnv (visitor (Some "fp1") (Some "hw1")) None (boot ∅ ∅)).1
  = Ret {| profile := storedProfile; source := ai; error := None |}
  /\ cache_writes
       (trace (generateAIProfile profileDemoEnv (visitor (Some "fp1") (Some "hw1")) None
                                 (boot ∅ ∅)).2)
     = [("yourinfo:profile:fp1:hw1", storedProfile)].
Proof.
  split; [vm_compute; reflexivity|].
  destruct (write_through_only_for_ai profileDemoEnv (visitor (Some "fp1") (Some "hw1"))
              None (boot ∅ ∅)) as [(res & w' & evs & Hrun & Htr & _ & Hai & _) _].
  rewrite Hrun. cbn [snd]. rewrite Htr. cbn [trace boot app].
  assert (res = {| profile := storedProfile; source := ai; error := None |}) as Hres.
  { vm_compute in Hrun. by injection Hrun as <- _. }
  destruct Hai as (_ & Hwrites & _); [by rewrite Hres|].
  rewrite Hwrites, Hres. reflexivity.
Defined.

(** ** The limiter over a history *)

Lemma checkRateLimit_alive now userId m1 m2 :
  alive now (m1 !! userId) = alive now (m2 !! userId) ->
  (checkRateLimit now userId m1).1 = (checkRateLimit now userId m2).1
  /\ (checkRateLimit now userId m1).2 !! userId = (checkRateLimit now userId m2).2 !! userId.
Proof.
  unfold checkRateLimit, alive.
  destruct (m1 !! userId) as [e1|] eqn:H1, (m2 !! userId) as [e2|] eqn:H2; cbn;
    repeat case_match; intros; simplify_eq; cbn;
    rewrite ?lookup_insert_eq; try done; try lia.
  all: by rewrite H1, H2.
Qed.

Lemma checkRateLimit_other now u userId m :
  u <> userId -> (checkRateLimit now u m).2 !! userId = m !! userId.
Proof.
  intros Hne. unfold checkRateLimit.
  repeat case_match; cbn; rewrite ?lookup_insert_ne; done.
Qed.

Lemma sweepRateLimits_alive t now userId m :
  t <= now -> alive now (sweepRateLimits t m !! userId) = alive now (m !! userId).
Proof.
  intros Ht. unfold sweepRateLimits, alive.
  destruct (m !! userId) as [e|] eqn:He.
  - destruct (decide (resetTime e < t)) as [Hx|Hx].
    + rewrite (proj2 (map_lookup_filter_None _ _ _)).
      * case_match; [done|lia].
      * right. intros x Hx'. simplify_eq. cbn. tauto.
    + rewrite (map_lookup_filter_Some_2 _ _ _ e); [done|done|]. cbn. done.
  - rewrite (proj2 (map_lookup_filter_None _ _ _)); [done|]. by left.
Qed.

Lemma alive_mono t t' x y : t <= t' -> alive t x = alive t y -> alive t' x = alive t' y.
Proof.
  unfold alive. intros Ht. destruct x as [e1|], y as [e2|]; repeat case_match; intros; simplify_eq; try done; lia.
Qed.

Lemma run_checks_cons userId now nows m :
  (run_checks userId (now :: nows) m).1
  = (checkRateLimit now userId m).1
    :: (run_checks userId nows (checkRateLimit now userId m).2).1.
Proof.
  cbn [run_checks]. destruct (checkRateLimit now userId m) as [b m']. cbn [fst snd].
  by destruct (run_checks userId nows m') as [bs m''].
Qed.

Lemma own_checks_check now u userId ops :
  own_checks userId (OpCheck now u :: ops)
  = if String.eqb u userId then now :: own_checks userId ops else own_checks userId ops.
Proof. unfold own_checks. cbn. by destruct (String.eqb u userId). Qed.

Lemma own_checks_sweep now userId ops :
  own_checks userId (OpSweep now :: ops) = own_checks userId ops.
Proof. done. Qed.

Lemma verdicts_own userId ops : forall t0 m1 m2,
  Forall (fun op => t0 <= op_time op) ops ->
  StronglySorted Z.le (map op_time ops) ->
  alive t0 (m1 !! userId) = alive t0 (m2 !! userId) ->
  verdicts userId ops m1 = (run_checks userId (own_checks userId ops) m2).1.
Proof.
  induction ops as [|op ops IH]; intros t0 m1 m2 Hlow Hsort Hal; [done|].
  apply Forall_cons_1 in Hlow as [Hop Hlow].
  cbn [map] in Hsort. apply StronglySorted_inv in Hsort as [Hsort Hle].
  assert (Hnext : Forall (fun op' => op_time op <= op_time op') ops).
  { apply List.Forall_forall. intros x Hx. rewrite List.Forall_forall in Hle.
    apply Hle. by apply in_map. }
  destruct op as [now u|now]; cbn [verdicts op_time] in *.
  - rewrite own_checks_check. destruct (String.eqb u userId) eqn:Heq.
    + apply String.eqb_eq in Heq as ->. rewrite run_checks_cons.
      pose proof (checkRateLimit_alive now userId m1 m2 (alive_mono _ _ _ _ Hop Hal)) as [Hv Hm].
      rewrite Hv. f_equal. apply (IH now); [done|done|]. by rewrite Hm.
    + apply String.eqb_neq in Heq. apply (IH now); [done|done|].
      rewrite checkRateLimit_other by done. by eapply alive_mono.
  - rewrite own_checks_sweep. apply (IH now); [done|done|].
    rewrite sweepRateLimits_alive by lia. by eapply alive_mono.
Qed.

Lemma allowed_cons b bs : allowed (b :: bs) = ((if b then 1 else 0) + allowed bs)%nat.
Proof. unfold allowed. cbn. by destruct b. Qed.

Lemma allowed_inside userId nows : forall m e,
  m !! userId = Some e -> Forall (fun t => t <= resetTime e) nows ->
  (allowed (run_checks userId nows m).1 <= Z.to_nat (RATE_LIMIT_MAX - count e))%nat.
Proof.
  induction nows as [|now nows IH]; intros m e He Hin; [cbn; lia|].
  apply Forall_cons_1 in Hin as [Hnow Hin].
  rewrite run_checks_cons, allowed_cons.
  rewrite (checkRateLimit_inside now userId m e) by done.
  destruct (count e <? RATE_LIMIT_MAX) eqn:Hc; cbn [fst snd].
  - specialize (IH (<[userId := {| count := count e + 1; resetTime := resetTime e |}]> m)
                   {| count := count e + 1; resetTime := resetTime e |}).
    rewrite lookup_insert_eq in IH. specialize (IH eq_refl Hin). cbn in IH. lia.
  - specialize (IH m e He Hin). lia.
Qed.

Lemma allowed_headroom userId a nows : forall m,
  Forall (fun t => a <= t <= a + RATE_LIMIT_WINDOW) nows ->
  (allowed (run_checks userId nows m).1 <= headroom (m !! userId))%nat.
Proof.
  induction nows as [|now nows IH]; intros m Hin; [unfold headroom; cbn; case_match; lia|].
  apply Forall_cons_1 in Hin as [Hnow Hin].
  rewrite run_checks_cons, allowed_cons.
  assert (Hfresh : starts_window now (m !! userId) ->
    ((if (checkRateLimit now userId m).1 then 1 else 0)
     + allowed (run_checks userId nows (checkRateLimit now userId m).2).1
     <= Z.to_nat RATE_LIMIT_MAX)%nat).
  { intros Hs. rewrite (checkRateLimit_fresh now userId m Hs). cbn [fst snd].
    pose proof (allowed_inside userId nows
      (<[userId := {| count := 1; resetTime := now + RATE_LIMIT_WINDOW |}]> m)
      {| count := 1; resetTime := now + RATE_LIMIT_WINDOW |}) as HA.
    rewrite lookup_insert_eq in HA. specialize (HA eq_refl).
    cbn in HA. unfold RATE_LIMIT_MAX in *.
    assert (HF : Forall (fun t => t <= now + RATE_LIMIT_WINDOW) nows).
    { eapply Forall_impl; [exact Hin|]. cbn. intros; lia. }
    specialize (HA HF). lia. }
  destruct (m !! userId) as [e|] eqn:He; cbn [headroom].
  - destruct (decide (resetTime e < now)) as [Hx|Hx].
    + specialize (Hfresh Hx). lia.
    + clear Hfresh. rewrite (checkRateLimit_inside now userId m e) by (done || lia).
      destruct (count e <? RATE_LIMIT_MAX) eqn:Hc; cbn [fst snd].
      * specialize (IH (<[userId := {| count := count e + 1; resetTime := resetTime e |}]> m) Hin).
        rewrite lookup_insert_eq in IH. cbn in IH. unfold RATE_LIMIT_MAX in *. lia.
      * specialize (IH m Hin). rewrite He in IH. cbn in IH. lia.
  - specialize (Hfresh I). lia.
Qed.

(** X1: the answers a caller gets from the limiter depend on that caller's
    own checks only: checks of other callers and runs of the periodic sweep,
    interleaved with them at instants that never decrease, change none of
    them. *)
Theorem rate_limit_isolation userId ops limits :
  StronglySorted Z.le (map op_time ops) ->
  verdicts userId ops limits = (run_checks userId (own_checks userId ops) limits).1.
Proof.
  intros Hsort. destruct ops as [|op ops]; [done|].
  apply (verdicts_own userId (op :: ops) (op_time op)); [|done|done].
  constructor; [lia|]. cbn [map] in Hsort. apply StronglySorted_inv in Hsort as [_ Hle].
  apply List.Forall_forall. intros x Hx. rewrite List.Forall_forall in Hle.
  apply Hle. by apply in_map.
Qed.

Lemma rate_limit_isolation_witness :
  StronglySorted Z.le (map op_time mixedHistory)
  /\ own_checks "a" mixedHistory = [0; 20; 30; 70000]
  /\ verdicts "a" mixedHistory ∅ = [true; true; false; true]
  /\ verdicts "a" mixedHistory ∅ = (run_checks "a" [0; 20; 30; 70000] ∅).1.
Proof.
  assert (StronglySorted Z.le (map op_time mixedHistory)) as Hs.
  { cbn. repeat constructor; lia. }
  split; [exact Hs|]. split; [reflexivity|]. split; [by vm_compute|].
  exact (rate_limit_isolation "a" mixedHistory ∅ Hs).
Defined.

(** X2: among the checks one caller makes within any span of
    [RATE_LIMIT_WINDOW] milliseconds, whatever the history before, at most
    three are allowed (one left over from the window that was open, two
    from the window that opens); and three can be. *)
Theorem rate_limit_burst userId ops a nows :
  Forall (fun t => a <= t <= a + RATE_LIMIT_WINDOW) nows ->
  (allowed (run_checks userId nows (rateHistory ops)).1 <= 3)%nat.
Proof.
  intros Hin. etransitivity; [by eapply allowed_headroom|].
  unfold headroom. destruct (rateHistory ops !! userId) as [e|] eqn:He;
    [|unfold RATE_LIMIT_MAX; lia].
  pose proof (rateHistory_windows_from ∅ ops (map_Forall_empty _) userId e He) as [H1 _].
  unfold RATE_LIMIT_MAX in *. lia.
Qed.

Lemma rate_limit_burst_witness :
  Forall (fun t => 60000 <= t <= 60000 + RATE_LIMIT_WINDOW) burstInstants
  /\ (run_checks "a" burstInstants (rateHistory [OpCheck 0 "a"])).1 = [true; true; true]
  /\ (allowed (run_checks "a" burstInstants (rateHistory [OpCheck 0 "a"])).1 <= 3)%nat.
Proof.
  assert (Forall (fun t => 60000 <= t <= 60000 + RATE_LIMIT_WINDOW) burstInstants)
    as Hin by (repeat (apply Forall_cons_2; [unfold RATE_LIMIT_WINDOW; lia|]);
               apply Forall_nil_2).
  split; [exact Hin|]. split; [by vm_compute|].
  exact (rate_limit_burst "a" [OpCheck 0 "a"] 60000 burstInstants Hin).
Defined.

(** ** The connection manager *)

Lemma acquire_failed E c w :
  free_to_connect (conn_of c w) -> connect_ok E c (S (tick w)) = false ->
  exists w', acquire E c w = (Ret None, w')
    /\ conn_of c w' = failed_at (clock E (S (tick w)))
    /\ tick w' = S (tick w)
    /\ trace w' = trace w ++ [EvConnect c (REDIS_URL E)]
    /\ store_strings w' = store_strings w /\ store_sets w' = store_sets w
    /\ userRateLimits w' = userRateLimits w.
Proof.
  intros (Hl & Ho & Hc) Hfail. unfold acquire, client_connect. run.
  rewrite Hl, Ho, Hc. cbn. rewrite Hfail.
  destruct (error_event E c (S (tick w))); destruct c; cbn.
  all: eexists; split; [reflexivity|]; cbn; done.
Qed.

Lemma acquire_open E c w :
  lastError (conn_of c w) = 0 -> is_open (client (conn_of c w)) = true ->
  acquire E c w = (Ret (client (conn_of c w)), w).
Proof. intros Hl Ho. unfold acquire. run. by rewrite Hl, Ho. Qed.

Lemma acquire_connects E c w :
  store_up E -> free_to_connect (conn_of c w) ->
  exists w', acquire E c w = (Ret (Some (opened (createRedisClient E))), w')
    /\ conn_of c w' = {| client := Some (opened (createRedisClient E));
                         connecting := false; lastError := 0 |}
    /\ trace w' = trace w ++ [EvConnect c (REDIS_URL E)]
    /\ tick w' = S (tick w).
Proof.
  intros Hup (Hl & Ho & Hc). unfold acquire, client_connect. run.
  rewrite Hl, Ho, Hc. cbn.
  destruct (Hup (S (tick w))) as [_ Hc']. destruct (Hc' c) as [-> ->]. run.
  destruct c; cbn; eexists; split; reflexivity || (cbn; done).
Qed.

Lemma conn_of_set_tick c t w : conn_of c (set_tick t w) = conn_of c w.
Proof. by destruct c. Qed.

Lemma acquire_series_open E c ts : forall w r,
  conn_of c w = {| client := Some r; connecting := false; lastError := 0 |} ->
  isOpen r = true ->
  exists w', acquire_series E c ts w = (repeat (Ret (Some r)) (length ts), w')
    /\ trace w' = trace w.
Proof.
  induction ts as [|t ts IH]; intros w r Hc Ho; [by eexists|].
  cbn [acquire_series length repeat].
  rewrite acquire_open; rewrite ?conn_of_set_tick, Hc; [|done..]. cbn [client].
  destruct (IH (set_tick t w) r) as (w' & -> & Htr); [by rewrite conn_of_set_tick|done|].
  by exists w'.
Qed.

Lemma connect_attempts_snoc evs c to :
  connect_attempts (evs ++ [EvConnect c to]) = S (connect_attempts evs).
Proof.
  unfold connect_attempts. rewrite List.filter_app, List.length_app. cbn. lia.
Qed.

Lemma trackAttempt_none E maxRetries attempt key w w1 :
  acquire E TrackingConn w = (Ret None, w1) ->
  trackAttempt E maxRetries attempt key w
  = if attempt <? maxRetries then (Ret None, set_tick (S (tick w1)) w1)
    else (Ret (Some false), w1).
Proof.
  intros Ha. unfold trackAttempt, getTrackingRedis, sleep. run. rewrite Ha.
  by destruct (attempt <? maxRetries).
Qed.

Lemma countAttempt_none E maxRetries attempt w w1 :
  acquire E TrackingConn w = (Ret None, w1) ->
  countAttempt E maxRetries attempt w
  = if attempt <? maxRetries then (Ret None, set_tick (S (tick w1)) w1)
    else (Ret (Some 0), w1).
Proof.
  intros Ha. unfold countAttempt, getTrackingRedis, sleep. run. rewrite Ha.
  by destruct (attempt <? maxRetries).
Qed.

Lemma acquire_cooling_at E c w t now :
  conn_of c w = failed_at now -> 0 < now -> clock E t - now < REDIS_BACKOFF_MS ->
  acquire E c (set_tick t w) = (Ret None, set_tick t w).
Proof.
  intros Hc Hpos Hin. apply acquire_cooling; rewrite conn_of_set_tick, Hc; done.
Qed.

(** X4: against a store that is up, the first acquisition of a connection
    that is free to connect opens it, at the address of [REDIS_URL], and
    every later acquisition returns that same open client: one [connect]
    for any number of calls. *)
Theorem one_connection_serves_all E c t ts w :
  store_up E -> free_to_connect (conn_of c w) ->
  exists w',
    acquire_series E c (t :: ts) w
    = (repeat (Ret (Some (opened (createRedisClient E)))) (S (length ts)), w')
    /\ connect_attempts (trace w') = S (connect_attempts (trace w))
    /\ url (opened (createRedisClient E)) = REDIS_URL E
    /\ isOpen (opened (createRedisClient E)) = true.
Proof.
  intros Hup Hfree. cbn [acquire_series].
  destruct (acquire_connects E c (set_tick t w) Hup) as (w1 & -> & Hc & Htr & _).
  { by rewrite conn_of_set_tick. }
  destruct (acquire_series_open E c ts w1 _ Hc eq_refl) as (w' & -> & Htr').
  exists w'. split; [done|]. split; [|done].
  rewrite Htr', Htr. apply connect_attempts_snoc.
Qed.

(** X5: when the first connection attempt of a tracking call fails, the
    failure starts the cooldown and the retries, which come less than five
    seconds later, fall inside it: [trackUniqueVisitor] answers [false] and
    [getTotalUniqueVisitors] answers 0 after one [connect] and no command,
    whatever the store would have answered to a second attempt. *)
Theorem failed_connect_exhausts_retries E fp cb w :
  free_to_connect (trackingConn w) ->
  connect_ok E TrackingConn (S (tick w)) = false ->
  0 < clock E (S (tick w)) ->
  (forall t, (tick w + 2 <= t <= tick w + 3)%nat ->
             clock E t - clock E (S (tick w)) < REDIS_BACKOFF_MS) ->
  (exists w', trackUniqueVisitor E fp cb w = (Ret false, w')
     /\ trace w' = trace w ++ [EvConnect TrackingConn (REDIS_URL E)]
     /\ store_sets w' = store_sets w)
  /\ (exists w', getTotalUniqueVisitors E w = (Ret 0, w')
        /\ trace w' = trace w ++ [EvConnect TrackingConn (REDIS_URL E)]).
Proof.
  intros Hfree Hfail Hpos Hclock.
  destruct (acquire_failed E TrackingConn w Hfree Hfail)
    as (w1 & Ha & Hc & Ht & Htr & _ & Hsets & _).
  assert (H2 : acquire E TrackingConn (set_tick (S (tick w1)) w1)
               = (Ret None, set_tick (S (tick w1)) w1)).
  { eapply acquire_cooling_at; [exact Hc|done|]. apply Hclock. lia. }
  assert (H3 : acquire E TrackingConn (set_tick (S (S (tick w1))) (set_tick (S (tick w1)) w1))
               = (Ret None, set_tick (S (S (tick w1))) (set_tick (S (tick w1)) w1))).
  { eapply acquire_cooling_at; [by rewrite conn_of_set_tick|done|]. apply Hclock. lia. }
  split.
  - unfold trackUniqueVisitor. change (Z.to_nat 3) with 3%nat. cbn [trackLoop].
    unfold mbind, M_bind.
    rewrite (trackAttempt_none _ _ _ _ _ _ Ha). change (1 <? 3) with true. cbv beta iota.
    rewrite (trackAttempt_none _ _ _ _ _ _ H2). change (1 + 1 <? 3) with true. cbv beta iota.
    cbn [tick set_tick].
    rewrite (trackAttempt_none _ _ _ _ _ _ H3). change (1 + 1 + 1 <? 3) with false.
    cbv beta iota. eexists. split; [reflexivity|]. done.
  - unfold getTotalUniqueVisitors. change (Z.to_nat 2) with 2%nat. cbn [countLoop].
    unfold mbind, M_bind.
    rewrite (countAttempt_none _ _ _ _ _ Ha). change (1 <? 2) with true. cbv beta iota.
    rewrite (countAttempt_none _ _ _ _ _ H2). change (1 + 1 <? 2) with false.
    cbv beta iota. eexists. split; [reflexivity|]. done.
Qed.

Lemma closeRedis_closed E w w' :
  closeRedis E w = (Ret (), w') ->
  is_open (client (cacheConn w')) = false
  /\ is_open (client (trackingConn w')) = false
  /\ store_strings w' = store_strings w /\ store_sets w' = store_sets w
  /\ userRateLimits w' = userRateLimits w /\ trace w' = trace w
  /\ (is_open (client (cacheConn w)) = false ->
      is_open (client (trackingConn w)) = false -> w' = w).
Proof.
  unfold closeRedis, client_quit. run. cbn.
  destruct w as [t [cc cg cl] [tc tg tl] rl ss st tr]; cbn.
  destruct cc as [[cu ct []]|], tc as [[tu tt []]|]; cbn.
  all: repeat (match goal with
               | |- context [if ?b then _ else _] => destruct b; cbn
               end).
  all: intros [= <-]; cbn; done.
Qed.


(** X7: when [closeRedis] returns, neither connection is open, and the
    store, the rate-limit map and the trace are as they were; with no
    connection open to begin with it changes nothing at all. *)
Theorem closeRedis_closes E w w' :
  closeRedis E w = (Ret (), w') ->
  is_open (client (cacheConn w')) = false
  /\ is_open (client (trackingConn w')) = false
  /\ store_strings w' = store_strings w /\ store_sets w' = store_sets w
  /\ userRateLimits w' = userRateLimits w /\ trace w' = trace w
  /\ (is_open (client (cacheConn w)) = false ->
      is_open (client (trackingConn w)) = false -> w' = w).
Proof. apply closeRedis_closed. Qed.

(** X8: [closeRedis] has no [try]: when the quit of the cache connection
    is rejected the error reaches the caller and the tracking connection is
    never quit: it is left as it was, open if it was open.  The cache
    client is no longer open, the call itself having closed it. *)
Theorem closeRedis_stops_at_first_failure E w :
  is_open (client (cacheConn w)) = true -> command_ok E (S (tick w)) = false ->
  exists e w', closeRedis E w = (Throw e, w')
    /\ trackingConn w' = trackingConn w
    /\ is_open (client (cacheConn w')) = false.
Proof.
  destruct w as [t [cc cg cl] tracking rl ss st tr]; cbn. intros Ho Hk.
  unfold closeRedis, client_quit. run. cbn. rewrite Ho. cbn. rewrite Ho. cbn. rewrite Hk.
  destruct (error_event E CacheConn (S t)); cbn; eexists _, _;
    (split; [reflexivity|]); cbn; (split; [done|]); by destruct cc.
Qed.

Ltac store_is_up Hup :=
  repeat match goal with
         | |- context [command_ok _ ?t] => rewrite (proj1 (Hup t)); cbn
         | |- context [connect_ok _ ?c ?t] => rewrite (proj1 (proj2 (Hup t) c)); cbn
         | |- context [error_event _ ?c ?t] => rewrite (proj2 (proj2 (Hup t) c)); cbn
         end.

(** X9: closing is not final: after [closeRedis], with the store up, the
    next [getRedis] connects again and returns a fresh open client. *)
Theorem closeRedis_then_reconnect E w :
  store_up E -> open_for_use (cacheConn w) -> connecting (cacheConn w) = false ->
  exists w1 w2,
    closeRedis E w = (Ret (), w1)
    /\ is_open (client (cacheConn w1)) = false
    /\ getRedis E w1 = (Ret (Some (opened (createRedisClient E))), w2)
    /\ trace w2 = trace w ++ [EvConnect CacheConn (REDIS_URL E)].
Proof.
  intros Hup [Hl Ho] Hc.
  assert (exists w1, closeRedis E w = (Ret (), w1) /\ free_to_connect (conn_of CacheConn w1))
    as (w1 & H1 & Hfree).
  { unfold closeRedis, client_quit. run. cbn. rewrite Ho. cbn. rewrite Ho. cbn.
    store_is_up Hup.
    destruct (is_open (client (trackingConn w))) eqn:Ht; run; cbn;
      rewrite ?Ht; cbn; store_is_up Hup.
    all: eexists; split; [reflexivity|]; cbn.
    all: split; [done|]; split; [|done]; by destruct (client (cacheConn w)). }
  pose proof (closeRedis_closed E w w1 H1) as (Hc1 & _ & _ & _ & _ & Htr & _).
  destruct (acquire_connects E CacheConn w1 Hup Hfree) as (w2 & Ha & _ & Htr2 & _).
  exists w1, w2. split; [done|]. split; [done|]. split; [exact Ha|]. by rewrite Htr2, Htr.
Qed.

Lemma store_up_localRedisEnv : store_up localRedisEnv.
Proof. intros t; split; [reflexivity | intros c; split; reflexivity]. Qed.

(** X3: the reconnection delay grows by 200 ms per retry and retrying stops
    after the fifth; the 2000 ms cap is never reached, the longest delay
    being 1000 ms. *)
Theorem reconnectStrategy_schedule retries :
  reconnectStrategy retries = (if retries <=? 5 then Some (retries * 200) else None)
  /\ forall delay, reconnectStrategy retries = Some delay -> delay <= 1000.
Proof.
  unfold reconnectStrategy.
  destruct (Z.ltb_spec 5 retries), (Z.leb_spec retries 5); try lia.
  - split; [done | by intros ? [=]].
  - split; [f_equal; lia | intros ? [= <-]; lia].
Qed.

Lemma reconnectStrategy_schedule_witness :
  map reconnectStrategy [1; 2; 3; 4; 5; 6]
  = [Some 200; Some 400; Some 600; Some 800; Some 1000; None]
  /\ 1000 <= 1000.
Proof.
  split; [reflexivity|].
  exact (proj2 (reconnectStrategy_schedule 5) 1000 eq_refl).
Defined.

Lemma one_connection_serves_all_witness :
  store_up localRedisEnv /\ free_to_connect (conn_of TrackingConn (boot ∅ ∅))
  /\ exists w',
       acquire_series localRedisEnv TrackingConn [0; 5; 9]%nat (boot ∅ ∅)
       = (repeat (Ret (Some {| url := "redis://localhost:6379"; tls := false;
                               isOpen := true |})) 3, w')
       /\ connect_attempts (trace w') = 1%nat.
Proof.
  assert (free_to_connect (conn_of TrackingConn (boot ∅ ∅))) as Hfree by done.
  split; [exact store_up_localRedisEnv|]. split; [exact Hfree|].
  destruct (one_connection_serves_all localRedisEnv TrackingConn 0%nat [5; 9]%nat (boot ∅ ∅)
              store_up_localRedisEnv Hfree) as (w' & Hs & Hn & _).
  exists w'. split; [exact Hs | exact Hn].
Defined.

Lemma failed_connect_exhausts_retries_witness :
  free_to_connect (trackingConn (boot ∅ ∅))
  /\ connect_ok lateRedisEnv TrackingConn 1 = false
  /\ connect_ok lateRedisEnv TrackingConn 2 = true
  /\ (exists w', trackUniqueVisitor lateRedisEnv "fp1" "hw1" (boot ∅ ∅) = (Ret false, w')
        /\ trace w' = [EvConnect TrackingConn "redis://localhost:6379"])
  /\ (exists w', getTotalUniqueVisitors lateRedisEnv (boot ∅ ∅) = (Ret 0, w')
        /\ trace w' = [EvConnect TrackingConn "redis://localhost:6379"]).
Proof.
  assert (free_to_connect (trackingConn (boot ∅ ∅))) as Hfree by done.
  split; [exact Hfree|]. split; [reflexivity|]. split; [reflexivity|].
  destruct (failed_connect_exhausts_retries lateRedisEnv "fp1" "hw1" (boot ∅ ∅) Hfree)
    as [(w1 & H1 & Ht1 & _) (w2 & H2 & Ht2)].
  - reflexivity.
  - cbn. unfold demo_clock. lia.
  - intros t Ht. cbn in *. unfold demo_clock, REDIS_BACKOFF_MS. lia.
  - split; [exists w1 | exists w2]; split; done.
Defined.

Lemma closeRedis_closes_witness :
  is_open (client (cacheConn connectedWorld)) = true
  /\ is_open (client (trackingConn connectedWorld)) = true
  /\ exists w', closeRedis localRedisEnv connectedWorld = (Ret (), w')
       /\ is_open (client (cacheConn w')) = false
       /\ is_open (client (trackingConn w')) = false.
Proof.
  split; [reflexivity|]. split; [reflexivity|].
  eexists. split; [vm_compute; reflexivity|].
  match goal with
  | |- is_open (client (cacheConn ?w')) = false /\ _ =>
      destruct (closeRedis_closes localRedisEnv connectedWorld w') as (H1 & H2 & _);
        [vm_compute; reflexivity | split; [exact H1 | exact H2]]
  end.
Defined.

Lemma closeRedis_stops_at_first_failure_witness :
  is_open (client (cacheConn connectedWorld)) = true
  /\ command_ok offlineDemoEnv (S (tick connectedWorld)) = false
  /\ exists e w', closeRedis offlineDemoEnv connectedWorld = (Throw e, w')
       /\ is_open (client (trackingConn w')) = true
       /\ is_open (client (cacheConn w')) = false.
Proof.
  split; [reflexivity|]. split; [reflexivity|].
  destruct (closeRedis_stops_at_first_failure offlineDemoEnv connectedWorld)
    as (e & w' & Hc & Ht & Hclosed); [reflexivity | reflexivity |].
  exists e, w'. split; [exact Hc|]. split; [|exact Hclosed].
  rewrite Ht. reflexivity.
Defined.

Lemma closeRedis_then_reconnect_witness :
  store_up localRedisEnv /\ open_for_use (cacheConn connectedWorld)
  /\ exists w1 w2,
       closeRedis localRedisEnv connectedWorld = (Ret (), w1)
       /\ getRedis localRedisEnv w1
          = (Ret (Some {| url := "redis://localhost:6379"; tls := false;
                          isOpen := true |}), w2)
       /\ connect_attempts (trace w2) = 3%nat.
Proof.
  assert (open_for_use (cacheConn connectedWorld)) as Ho by done.
  split; [exact store_up_localRedisEnv|]. split; [exact Ho|].
  destruct (closeRedis_then_reconnect localRedisEnv connectedWorld store_up_localRedisEnv Ho)
    as (w1 & w2 & H1 & _ & H2 & Htr); [reflexivity|].
  exists w1, w2. split; [exact H1|]. split; [exact H2|]. by rewrite Htr.
Defined.

(** ** Isolation of the two connections *)

#[global] Instance cache_side_preorder : PreOrder cache_side.
Proof.
  split; [by intros w|].
  intros w1 w2 w3 [? ?] [? ?]. split; congruence.
Qed.

#[global] Instance tracking_side_preorder : PreOrder tracking_side.
Proof.
  split; [by intros w|].
  intros w1 w2 w3 (? & ? & ?) (? & ? & ?). repeat split; congruence.
Qed.

Create HintDb sides.

Ltac side_leaf :=
  let w := fresh "w" in
  intros w; unfold cache_side, tracking_side; repeat split; reflexivity.

(** Splits a goal [preserves R m] for one of the two sides. *)
Ltac side_step :=
  lazymatch goal with
  | |- PreOrder _ => apply _
  | |- forall _, _ => intros ?
  | |- preserves _ (mret _) => apply preserves_ret
  | |- preserves _ (throw _) => apply preserves_throw
  | |- preserves _ get_world => apply preserves_get_world
  | |- preserves _ (_ ≫= _) => apply preserves_bind
  | |- preserves _ (try_catch _ _) => apply preserves_try_catch
  | |- preserves _ (match ?x with _ => _ end) => destruct x
  | |- preserves _ (Date_now _) => side_leaf
  | |- preserves _ await => side_leaf
  | |- preserves _ (modify _) => side_leaf
  | |- preserves _ (emit _) => side_leaf
  | |- preserves _ (update_conn _ _) => side_leaf
  | |- preserves _ _ => solve [eauto with sides]
  end.

Ltac sides := repeat side_step.

Section Sides.

Variable E : Env.

Lemma cache_side_acquire : preserves cache_side (acquire E CacheConn).
Proof. unfold acquire, client_connect, on_error. sides. Qed.

Lemma tracking_side_acquire : preserves tracking_side (acquire E TrackingConn).
Proof. unfold acquire, client_connect, on_error. sides. Qed.

Hint Resolve cache_side_acquire tracking_side_acquire : sides.

Lemma cache_side_getCachedProfile key : preserves cache_side (getCachedProfile E key).
Proof. unfold getCachedProfile, getRedis, client_get, on_error. sides. Qed.

Lemma cache_side_getAuctionCache key : preserves cache_side (getAuctionCache E key).
Proof. unfold getAuctionCache, getRedis, client_get, on_error. sides. Qed.

Lemma cache_side_cacheProfile key v : preserves cache_side (cacheProfile E key v).
Proof. unfold cacheProfile, getRedis, client_setEx, on_error. sides. Qed.

Lemma cache_side_setAuctionCache key v : preserves cache_side (setAuctionCache E key v).
Proof. unfold setAuctionCache, getRedis, client_setEx, on_error. sides. Qed.

Lemma cache_side_fetch p : preserves cache_side (fetch E p).
Proof. unfold fetch. sides. Qed.

Lemma cache_side_response_text body : preserves cache_side (response_text body).
Proof. unfold response_text. sides. Qed.

Lemma cache_side_response_content body : preserves cache_side (response_content body).
Proof. unfold response_content. sides. Qed.

Hint Resolve cache_side_getCachedProfile cache_side_getAuctionCache cache_side_cacheProfile
  cache_side_setAuctionCache cache_side_fetch cache_side_response_text
  cache_side_response_content : sides.

Lemma cache_side_tryMiMo : preserves cache_side (tryMiMo E).
Proof. unfold tryMiMo. sides. Qed.

Hint Resolve cache_side_tryMiMo : sides.

Lemma cache_side_mimoOrFallback ci geo key err :
  preserves cache_side (mimoOrFallback E ci geo key err).
Proof. unfold mimoOrFallback. sides. Qed.

Hint Resolve cache_side_mimoOrFallback : sides.

Lemma cache_side_generateAIProfile ci geo : preserves cache_side (generateAIProfile E ci geo).
Proof. unfold generateAIProfile, checkRateLimitM. cbv zeta. sides. Qed.

Lemma cache_side_auctionAttempt p src : preserves cache_side (auctionAttempt E p src).
Proof. unfold auctionAttempt. sides. Qed.

Hint Resolve cache_side_auctionAttempt : sides.

Lemma cache_side_generateAIAuction s country cc :
  preserves cache_side (generateAIAuction E s country cc).
Proof. unfold generateAIAuction, tryMiMoAuction. cbv zeta. sides. Qed.

Lemma tracking_side_trackAttempt maxRetries attempt key :
  preserves tracking_side (trackAttempt E maxRetries attempt key).
Proof.
  unfold trackAttempt, getTrackingRedis, client_sAdd, client_disconnect, sleep, on_error.
  sides.
Qed.

Lemma tracking_side_trackLoop turns : forall maxRetries attempt key,
  preserves tracking_side (trackLoop E turns maxRetries attempt key).
Proof.
  induction turns as [|turns IH]; intros; cbn [trackLoop]; [sides|].
  apply preserves_bind; [apply _ | apply tracking_side_trackAttempt |].
  intros [b|]; [sides | apply IH].
Qed.

Lemma tracking_side_countAttempt maxRetries attempt :
  preserves tracking_side (countAttempt E maxRetries attempt).
Proof. unfold countAttempt, getTrackingRedis, client_sCard, sleep, on_error. sides. Qed.

Lemma tracking_side_countLoop turns : forall maxRetries attempt,
  preserves tracking_side (countLoop E turns maxRetries attempt).
Proof.
  induction turns as [|turns IH]; intros; cbn [countLoop]; [sides|].
  apply preserves_bind; [apply _ | apply tracking_side_countAttempt |].
  intros [b|]; [sides | apply IH].
Qed.

End Sides.

(** X6: the two connections are isolated from each other.  A profile or an
    auction request never touches the tracking connection or the sets of
    the store; a tracking call never touches the cache connection, the
    strings of the store or the rate-limit map: whatever Redis and the
    providers do, and also when the call fails. *)
Theorem connections_are_isolated E w :
  (forall ci geo, cache_side w (generateAIProfile E ci geo w).2)
  /\ (forall s country cc, cache_side w (generateAIAuction E s country cc w).2)
  /\ (forall fp cb, tracking_side w (trackUniqueVisitor E fp cb w).2)
  /\ tracking_side w (getTotalUniqueVisitors E w).2.
Proof.
  split; [intros ci geo; exact (cache_side_generateAIProfile E ci geo w)|].
  split; [intros s country cc; exact (cache_side_generateAIAuction E s country cc w)|].
  split; [intros fp cb; exact (tracking_side_trackLoop E _ _ _ _ w)|].
  exact (tracking_side_countLoop E _ _ _ w).
Qed.

(** ** The cache layer, write then read *)

Lemma client_get_up E c key w :
  store_up E ->
  exists w', client_get E c key w
             = (Ret (live (clock E (S (tick w))) (store_strings w !! key)), w')
    /\ tick w' = S (tick w) /\ store_strings w' = store_strings w
    /\ cacheConn w' = cacheConn w.
Proof.
  intros Hup. unfold client_get. run. cbn. store_is_up Hup.
  eexists. split; [reflexivity|]. done.
Qed.

Lemma client_setEx_up E c key ttl value w :
  store_up E ->
  exists w', client_setEx E c key ttl value w = (Ret (), w')
    /\ tick w' = S (tick w)
    /\ store_strings w'
       = <[key := (value, clock E (S (tick w)) + ttl * 1000)]> (store_strings w)
    /\ cacheConn w' = cacheConn w.
Proof.
  intros Hup. unfold client_setEx. run. cbn. store_is_up Hup.
  eexists. split; [reflexivity|]. done.
Qed.

Lemma getCachedProfile_value E key w :
  store_up E -> usable (cacheConn w) ->
  exists w', getCachedProfile E key w
             = (Ret (cached_value E (clock E (tick w')) (store_strings w !! key)), w')
    /\ open_for_use (cacheConn w')
    /\ store_strings w' = store_strings w
    /\ (tick w < tick w' <= tick w + 2)%nat.
Proof.
  intros Hup Hu. unfold getCachedProfile, getRedis.
  unfold try_catch, mbind, M_bind.
  destruct (acquire_up E CacheConn w Hup Hu)
    as (r & w1 & -> & Hopen & Hs & _ & _ & _ & Ht).
  destruct (client_get_up E CacheConn key w1 Hup) as (w2 & -> & Ht2 & Hs2 & Hc2).
  rewrite Hs. unfold cached_value.
  exists w2. rewrite Ht2.
  split.
  - destruct (live _ _) as [s|]; cbn; [|done].
    destruct (String.eqb s ""); cbn; [done|].
    by destruct (JSON_parse E s).
  - split; [by rewrite Hc2|]. split; [congruence | lia].
Qed.

Lemma getCachedProfile_open E key w :
  store_up E -> open_for_use (cacheConn w) ->
  exists w', getCachedProfile E key w
             = (Ret (cached_value E (clock E (S (tick w))) (store_strings w !! key)), w')
    /\ open_for_use (cacheConn w') /\ store_strings w' = store_strings w
    /\ tick w' = S (tick w).
Proof.
  intros Hup [Hl Ho]. unfold getCachedProfile, getRedis.
  unfold try_catch, mbind, M_bind.
  rewrite (acquire_open E CacheConn w Hl Ho).
  change (conn_of CacheConn w) with (cacheConn w).
  destruct (client (cacheConn w)) as [r|] eqn:Hr; [|done].
  destruct (client_get_up E CacheConn key w Hup) as (w2 & -> & Ht2 & Hs2 & Hc2).
  unfold cached_value. exists w2. split.
  - destruct (live _ _) as [s|]; cbn; [|done].
    destruct (String.eqb s ""); cbn; [done|].
    by destruct (JSON_parse E s).
  - split; [rewrite Hc2; split; [done | by rewrite Hr]|]. done.
Qed.

Lemma cached_value_stored E now str expiry v :
  str <> "" -> JSON_parse E str = Some v ->
  cached_value E now (Some (str, expiry)) = if now <? expiry then v else JNull.
Proof.
  intros Hne Hp. unfold cached_value, live. destruct (now <? expiry); [|done].
  apply String.eqb_neq in Hne. by rewrite Hne, Hp.
Qed.

Lemma cacheProfile_up E key v w :
  store_up E -> usable (cacheConn w) ->
  exists w1, cacheProfile E key v w = (Ret (), w1)
    /\ open_for_use (cacheConn w1)
    /\ store_strings w1
       = <[key := (JSON_stringify E v, clock E (tick w1) + CACHE_TTL * 1000)]>
           (store_strings w).
Proof.
  intros Hup Hu. unfold cacheProfile, getRedis, emit, modify.
  unfold try_catch, mbind, M_bind.
  destruct (acquire_up E CacheConn (log (EvCacheProfile key v) w) Hup Hu)
    as (r & w1 & -> & Hopen & Hs & _ & _ & _ & Ht).
  destruct (client_setEx_up E CacheConn key CACHE_TTL (JSON_stringify E v) w1 Hup)
    as (w2 & -> & Ht2 & Hs2 & Hc2).
  exists w2. split; [done|]. split; [by rewrite Hc2|]. by rewrite Hs2, Ht2, Hs.
Qed.

Lemma setAuctionCache_up E key v w :
  store_up E -> usable (cacheConn w) ->
  exists w1, setAuctionCache E key v w = (Ret (), w1)
    /\ open_for_use (cacheConn w1)
    /\ store_strings w1
       = <[key := (JSON_stringify E v, clock E (tick w1) + AUCTION_CACHE_TTL * 1000)]>
           (store_strings w).
Proof.
  intros Hup Hu. unfold setAuctionCache, getRedis, emit, modify.
  unfold try_catch, mbind, M_bind.
  destruct (acquire_up E CacheConn (log (EvSetAuctionCache key v) w) Hup Hu)
    as (r & w1 & -> & Hopen & Hs & _ & _ & _ & Ht).
  destruct (client_setEx_up E CacheConn key AUCTION_CACHE_TTL (JSON_stringify E v) w1 Hup)
    as (w2 & -> & Ht2 & Hs2 & Hc2).
  exists w2. split; [done|]. split; [by rewrite Hc2|]. by rewrite Hs2, Ht2, Hs.
Qed.

(** X10: against a store that is up, a lookup in the profile cache or in
    the auction cache (the two functions have the same text) returns the
    parsed entry when the entry has not expired, is not the empty string and
    parses, and [null] in every other case: no entry, an entry past its
    expiry, an empty one, one [JSON.parse] rejects.  The store is left as it
    was. *)
Theorem cache_lookup_value E key w :
  store_up E -> usable (cacheConn w) ->
  exists w',
    getCachedProfile E key w
    = (Ret (cached_value E (clock E (tick w')) (store_strings w !! key)), w')
    /\ getAuctionCache E key w = getCachedProfile E key w
    /\ store_strings w' = store_strings w
    /\ (tick w < tick w' <= tick w + 2)%nat.
Proof.
  intros Hup Hu.
  destruct (getCachedProfile_value E key w Hup Hu) as (w' & Hg & _ & Hs & Ht).
  exists w'. split; [done|]. split; [by rewrite getAuctionCache_is_getCachedProfile|]. done.
Qed.

(** X11: write, then read.  With the store up, a profile written by
    [cacheProfile] is what [getCachedProfile] returns for the same key at
    any later instant before the write instant plus 30 days, and from that
    instant on the lookup returns [null]; the profile must survive
    [JSON.stringify] followed by [JSON.parse]. *)
Theorem profile_cache_round_trip E key v w t :
  store_up E -> usable (cacheConn w) ->
  JSON_stringify E v <> "" -> JSON_parse E (JSON_stringify E v) = Some v ->
  exists w1,
    cacheProfile E key v w = (Ret (), w1)
    /\ (getCachedProfile E key (set_tick t w1)).1
       = Ret (if clock E (S t) <? clock E (tick w1) + CACHE_TTL * 1000 then v else JNull)
    /\ CACHE_TTL * 1000 = 2592000000.
Proof.
  intros Hup Hu Hne Hp.
  destruct (cacheProfile_up E key v w Hup Hu) as (w1 & Hc & Ho & Hs).
  exists w1. split; [done|]. split; [|done].
  destruct (getCachedProfile_open E key (set_tick t w1) Hup Ho) as (w2 & -> & _).
  cbn [fst tick set_tick store_strings]. rewrite Hs, lookup_insert_eq.
  by rewrite (cached_value_stored E _ _ _ v).
Qed.

(** X12: the same for auctions, with a time to live of one hour. *)
Theorem auction_cache_round_trip E key r w t :
  store_up E -> usable (cacheConn w) ->
  JSON_stringify E r <> "" -> JSON_parse E (JSON_stringify E r) = Some r ->
  exists w1,
    setAuctionCache E key r w = (Ret (), w1)
    /\ (getAuctionCache E key (set_tick t w1)).1
       = Ret (if clock E (S t) <? clock E (tick w1) + AUCTION_CACHE_TTL * 1000
              then r else JNull)
    /\ AUCTION_CACHE_TTL * 1000 = 3600000.
Proof.
  intros Hup Hu Hne Hp.
  destruct (setAuctionCache_up E key r w Hup Hu) as (w1 & Hc & Ho & Hs).
  exists w1. split; [done|]. split; [|done].
  rewrite getAuctionCache_is_getCachedProfile.
  destruct (getCachedProfile_open E key (set_tick t w1) Hup Ho) as (w2 & -> & _).
  cbn [fst tick set_tick store_strings]. rewrite Hs, lookup_insert_eq.
  by rewrite (cached_value_stored E _ _ _ r).
Qed.

Lemma usable_boot sets strings c : usable (conn_of c (boot strings sets)).
Proof. destruct c; (split; [reflexivity | by right]). Qed.

Lemma cache_lookup_value_witness :
  store_up localRedisEnv /\ usable (cacheConn staleWorld)
  /\ store_strings staleWorld !! "yourinfo:profile:fp1:hw1"
     = Some ("<stored profile>", 1600000000000)
  /\ exists w', getCachedProfile localRedisEnv "yourinfo:profile:fp1:hw1" staleWorld
                = (Ret JNull, w').
Proof.
  assert (usable (cacheConn staleWorld)) as Hu by (split; [reflexivity | by right]).
  split; [exact store_up_localRedisEnv|]. split; [exact Hu|]. split; [reflexivity|].
  destruct (cache_lookup_value localRedisEnv "yourinfo:profile:fp1:hw1" staleWorld
              store_up_localRedisEnv Hu) as (w' & Hg & _).
  exists w'. rewrite Hg. f_equal. f_equal.
  unfold cached_value, live. cbn [staleWorld boot store_strings].
  rewrite lookup_singleton_eq.
  destruct (Z.ltb_spec (clock localRedisEnv (tick w')) 1600000000000) as [Hlt|_]; [|done].
  cbn in Hlt. unfold demo_clock in Hlt. lia.
Defined.

Lemma profile_cache_round_trip_witness :
  store_up localRedisEnv /\ usable (cacheConn (boot ∅ ∅))
  /\ JSON_parse localRedisEnv (JSON_stringify localRedisEnv storedProfile) = Some storedProfile
  /\ exists w1,
       cacheProfile localRedisEnv "yourinfo:profile:fp1:hw1" storedProfile (boot ∅ ∅)
       = (Ret (), w1)
       /\ (getCachedProfile localRedisEnv "yourinfo:profile:fp1:hw1" (set_tick 5 w1)).1
          = Ret storedProfile.
Proof.
  split; [exact store_up_localRedisEnv|]. split; [apply (usable_boot ∅ ∅ CacheConn)|].
  split; [reflexivity|].
  destruct (profile_cache_round_trip localRedisEnv "yourinfo:profile:fp1:hw1" storedProfile
              (boot ∅ ∅) 5 store_up_localRedisEnv (usable_boot ∅ ∅ CacheConn))
    as (w1 & Hc & Hg & _); [done | reflexivity |].
  exists w1. split; [exact Hc|]. rewrite Hg.
  assert (tick w1 = 2%nat) as -> by (vm_compute in Hc; by injection Hc as <-).
  reflexivity.
Defined.

Lemma auction_cache_round_trip_witness :
  store_up localRedisEnv /\ usable (cacheConn (boot ∅ ∅))
  /\ JSON_parse localRedisEnv (JSON_stringify localRedisEnv storedAuction) = Some storedAuction
  /\ exists w1,
       setAuctionCache localRedisEnv "yourinfo:auction:abc:CA" storedAuction (boot ∅ ∅)
       = (Ret (), w1)
       /\ (getAuctionCache localRedisEnv "yourinfo:auction:abc:CA" (set_tick 3000 w1)).1
          = Ret storedAuction
       /\ (getAuctionCache localRedisEnv "yourinfo:auction:abc:CA" (set_tick 3601 w1)).1
          = Ret JNull.
Proof.
  split; [exact store_up_localRedisEnv|]. split; [apply (usable_boot ∅ ∅ CacheConn)|].
  split; [reflexivity|].
  destruct (auction_cache_round_trip localRedisEnv "yourinfo:auction:abc:CA" storedAuction
              (boot ∅ ∅) 3000 store_up_localRedisEnv (usable_boot ∅ ∅ CacheConn))
    as (w1 & Hc & Hg & _); [done | reflexivity |].
  destruct (auction_cache_round_trip localRedisEnv "yourinfo:auction:abc:CA" storedAuction
              (boot ∅ ∅) 3601 store_up_localRedisEnv (usable_boot ∅ ∅ CacheConn))
    as (w2 & Hc2 & Hg2 & _); [done | reflexivity |].
  assert (w2 = w1) as -> by congruence.
  exists w1. split; [exact Hc|]. rewrite Hg, Hg2.
  assert (tick w1 = 2%nat) as -> by (vm_compute in Hc; by injection Hc as <-).
  split; reflexivity.
Defined.

(** ** Keys *)

(** X13: the three kinds of Redis key never coincide: whatever the
    identity strings, the summary and the country code, a profile key is no
    auction key and neither is the key of the visitor set. *)
Theorem key_namespaces_are_disjoint fp cb s cc :
  getCacheKey fp cb <> auctionCacheKey s cc
  /\ getCacheKey fp cb <> UNIQUE_VISITORS_KEY
  /\ auctionCacheKey s cc <> UNIQUE_VISITORS_KEY.
Proof.
  unfold getCacheKey, auctionCacheKey, UNIQUE_VISITORS_KEY.
  repeat split; intros H; cbn in H; discriminate H.
Qed.

Lemma includes_colon_cons c s :
  includes (String c s) ":" = Ascii.eqb c ":" || includes s ":".
Proof.
  cbn [includes]. cbn [String.prefix].
  destruct (ascii_dec ":" c) as [<-|Hne]; [by destruct s|].
  destruct (Ascii.eqb_spec c ":"); [congruence | done].
Qed.

Lemma colon_split a : forall a' b b',
  includes a ":" = false -> includes a' ":" = false ->
  a +:+ ":" +:+ b = a' +:+ ":" +:+ b' -> a = a' /\ b = b'.
Proof.
  induction a as [|c a IH]; intros [|c' a'] b b' Ha Ha' Heq; cbn in Heq.
  - by injection Heq.
  - injection Heq as <- _. rewrite includes_colon_cons in Ha'. done.
  - injection Heq as -> _. rewrite includes_colon_cons in Ha. done.
  - injection Heq as -> Heq. rewrite includes_colon_cons in Ha, Ha'.
    apply orb_false_iff in Ha as [_ Ha], Ha' as [_ Ha'].
    destruct (IH a' b b' Ha Ha' Heq) as [-> ->]. done.
Qed.

(** X14: the profile key joins the two identity strings with a colon and
    does not escape them: requests whose fingerprint ids hold no colon get
    the same key only when both strings agree, while a colon inside an id
    lets two different pairs share one key. *)
Theorem getCacheKey_injective_without_colon :
  (forall fp1 cb1 fp2 cb2,
     includes fp1 ":" = false -> includes fp2 ":" = false ->
     getCacheKey fp1 cb1 = getCacheKey fp2 cb2 -> fp1 = fp2 /\ cb1 = cb2)
  /\ getCacheKey "a:b" "c" = getCacheKey "a" "b:c".
Proof.
  split; [|done].
  intros fp1 cb1 fp2 cb2 H1 H2 Heq. unfold getCacheKey in Heq.
  cbn in Heq. injection Heq as Heq. by apply colon_split.
Qed.

Lemma sextet_mod n : sextet n = sextet (n mod 64).
Proof. unfold sextet. by rewrite N.Div0.mod_mod. Qed.

Lemma in_sextets n : (n < 64)%N -> In n sextets.
Proof.
  intros Hn. unfold sextets. rewrite <- (N2Nat.id n). apply in_map. apply in_seq. lia.
Qed.

Lemma sextet_table :
  forallb (fun a =>
    negb (Ascii.eqb (sextet a) "=") && negb (Ascii.eqb (sextet a) ":")
    && forallb (fun b => implb (Ascii.eqb (sextet a) (sextet b)) (N.eqb a b)) sextets)
    sextets = true.
Proof. vm_compute. reflexivity. Qed.

Lemma sextet_row a :
  (a < 64)%N ->
  sextet a <> "="%char /\ sextet a <> ":"%char
  /\ forall b, (b < 64)%N -> sextet a = sextet b -> a = b.
Proof.
  intros Ha. pose proof sextet_table as T. rewrite List.forallb_forall in T.
  specialize (T a (in_sextets a Ha)).
  apply andb_prop in T as [T T3]. apply andb_prop in T as [T1 T2].
  split; [|split].
  - intros Heq. by rewrite Heq in T1.
  - intros Heq. by rewrite Heq in T2.
  - intros b Hb Heq. rewrite List.forallb_forall in T3.
    specialize (T3 b (in_sextets b Hb)). rewrite Heq, Ascii.eqb_refl in T3.
    by apply N.eqb_eq.
Qed.

Lemma sextet_plain n : sextet n <> "="%char /\ sextet n <> ":"%char.
Proof.
  rewrite sextet_mod.
  destruct (sextet_row (n mod 64)) as (? & ? & _); [|done].
  apply N.mod_upper_bound. done.
Qed.

Lemma sextet_inj a b : sextet a = sextet b -> (a mod 64 = b mod 64)%N.
Proof.
  rewrite (sextet_mod a), (sextet_mod b). intros Heq.
  destruct (sextet_row (a mod 64)) as (_ & _ & Hinj); [by apply N.mod_upper_bound|].
  apply Hinj; [by apply N.mod_upper_bound | done].
Qed.

Lemma sextets_determine n n' :
  (n < 16777216)%N -> (n' < 16777216)%N ->
  ((n / 262144) mod 64 = (n' / 262144) mod 64)%N ->
  ((n / 4096) mod 64 = (n' / 4096) mod 64)%N ->
  ((n / 64) mod 64 = (n' / 64) mod 64)%N ->
  (n mod 64 = n' mod 64)%N -> n = n'.
Proof.
  intros Hn Hn' H1 H2 H3 H4.
  replace (n / 262144)%N with (n / 64 / 64 / 64)%N in H1
    by (rewrite !N.Div0.div_div; reflexivity).
  replace (n' / 262144)%N with (n' / 64 / 64 / 64)%N in H1
    by (rewrite !N.Div0.div_div; reflexivity).
  replace (n / 4096)%N with (n / 64 / 64)%N in H2 by (rewrite !N.Div0.div_div; reflexivity).
  replace (n' / 4096)%N with (n' / 64 / 64)%N in H2 by (rewrite !N.Div0.div_div; reflexivity).
  pose proof (N.Div0.div_mod n 64) as D1. pose proof (N.Div0.div_mod (n / 64) 64) as D2.
  pose proof (N.Div0.div_mod (n / 64 / 64) 64) as D3.
  pose proof (N.Div0.div_mod n' 64) as D1'. pose proof (N.Div0.div_mod (n' / 64) 64) as D2'.
  pose proof (N.Div0.div_mod (n' / 64 / 64) 64) as D3'.
  pose proof (N.mod_upper_bound n 64) as B1.
  pose proof (N.mod_upper_bound (n / 64) 64) as B2.
  pose proof (N.mod_upper_bound (n / 64 / 64) 64) as B3.
  pose proof (N.mod_upper_bound n' 64) as B1'.
  pose proof (N.mod_upper_bound (n' / 64) 64) as B2'.
  pose proof (N.mod_upper_bound (n' / 64 / 64) 64) as B3'.
  pose proof (N.mod_small (n / 64 / 64 / 64) 64) as M.
  pose proof (N.mod_small (n' / 64 / 64 / 64) 64) as M'.
  set (q1 := (n / 64)%N) in *. set (r1 := (n mod 64)%N) in *.
  set (q2 := (q1 / 64)%N) in *. set (r2 := (q1 mod 64)%N) in *.
  set (q3 := (q2 / 64)%N) in *. set (r3 := (q2 mod 64)%N) in *.
  set (q1' := (n' / 64)%N) in *. set (r1' := (n' mod 64)%N) in *.
  set (q2' := (q1' / 64)%N) in *. set (r2' := (q1' mod 64)%N) in *.
  set (q3' := (q2' / 64)%N) in *. set (r3' := (q2' mod 64)%N) in *.
  set (m3 := (q3 mod 64)%N) in *. set (m3' := (q3' mod 64)%N) in *.
  clearbody q1 r1 q2 r2 q3 r3 q1' r1' q2' r2' q3' r3' m3 m3'.
  lia.
Qed.

Lemma quad_inj n n' :
  (n < 16777216)%N -> (n' < 16777216)%N ->
  sextet (n / 262144) = sextet (n' / 262144) -> sextet (n / 4096) = sextet (n' / 4096) ->
  sextet (n / 64) = sextet (n' / 64) -> sextet n = sextet n' -> n = n'.
Proof.
  intros Hn Hn' H1 H2 H3 H4.
  apply sextet_inj in H1, H2, H3, H4. by apply sextets_determine.
Qed.

Lemma N_of_ascii_inj a b : N_of_ascii a = N_of_ascii b -> a = b.
Proof. intros H. rewrite <- (ascii_N_embedding a), <- (ascii_N_embedding b). by rewrite H. Qed.

Lemma block3_inj a b c a' b' c' :
  let n := (N_of_ascii a * 65536 + N_of_ascii b * 256 + N_of_ascii c)%N in
  let n' := (N_of_ascii a' * 65536 + N_of_ascii b' * 256 + N_of_ascii c')%N in
  sextet (n / 262144) = sextet (n' / 262144) -> sextet (n / 4096) = sextet (n' / 4096) ->
  sextet (n / 64) = sextet (n' / 64) -> sextet n = sextet n' ->
  a = a' /\ b = b' /\ c = c'.
Proof.
  intros n n' H1 H2 H3 H4.
  pose proof (N_ascii_bounded a). pose proof (N_ascii_bounded b).
  pose proof (N_ascii_bounded c). pose proof (N_ascii_bounded a').
  pose proof (N_ascii_bounded b'). pose proof (N_ascii_bounded c').
  assert (n = n') as Hn by (apply quad_inj; try done; unfold n, n'; lia).
  unfold n, n' in Hn.
  repeat split; apply N_of_ascii_inj; lia.
Qed.

Lemma sextet_multiple k : sextet (k * 64) = sextet 0.
Proof. rewrite sextet_mod. by rewrite N.Div0.mod_mul. Qed.

Lemma block2_inj a b a' b' :
  let n := (N_of_ascii a * 65536 + N_of_ascii b * 256)%N in
  let n' := (N_of_ascii a' * 65536 + N_of_ascii b' * 256)%N in
  sextet (n / 262144) = sextet (n' / 262144) -> sextet (n / 4096) = sextet (n' / 4096) ->
  sextet (n / 64) = sextet (n' / 64) ->
  a = a' /\ b = b'.
Proof.
  intros n n' H1 H2 H3.
  destruct (block3_inj a b zero a' b' zero) as (? & ? & _); try done.
  all: change (N_of_ascii zero) with 0%N; rewrite !N.add_0_r; fold n n'; try done.
  unfold n, n'.
  replace (N_of_ascii a * 65536 + N_of_ascii b * 256)%N
    with ((N_of_ascii a * 1024 + N_of_ascii b * 4) * 64)%N by lia.
  replace (N_of_ascii a' * 65536 + N_of_ascii b' * 256)%N
    with ((N_of_ascii a' * 1024 + N_of_ascii b' * 4) * 64)%N by lia.
  by rewrite !sextet_multiple.
Qed.

Lemma block1_inj a a' :
  let n := (N_of_ascii a * 65536)%N in
  let n' := (N_of_ascii a' * 65536)%N in
  sextet (n / 262144) = sextet (n' / 262144) -> sextet (n / 4096) = sextet (n' / 4096) ->
  a = a'.
Proof.
  intros n n' H1 H2.
  destruct (block2_inj a zero a' zero) as (? & _); try done.
  all: change (N_of_ascii zero) with 0%N; rewrite !N.add_0_r; fold n n'; try done.
  unfold n, n'.
  replace (N_of_ascii a * 65536 / 64)%N with (N_of_ascii a * 16 * 64)%N.
  2:{ replace (N_of_ascii a * 65536)%N with (N_of_ascii a * 1024 * 64)%N by lia.
      rewrite N.div_mul by done. lia. }
  replace (N_of_ascii a' * 65536 / 64)%N with (N_of_ascii a' * 16 * 64)%N.
  2:{ replace (N_of_ascii a' * 65536)%N with (N_of_ascii a' * 1024 * 64)%N by lia.
      rewrite N.div_mul by done. lia. }
  by rewrite !sextet_multiple.
Qed.

Lemma quad_eq x1 x2 x3 x4 r y1 y2 y3 y4 r' :
  String x1 (String x2 (String x3 (String x4 r)))
  = String y1 (String y2 (String y3 (String y4 r'))) ->
  x1 = y1 /\ x2 = y2 /\ x3 = y3 /\ x4 = y4 /\ r = r'.
Proof. by intros [= ? ? ? ? ?]. Qed.

Ltac absurd_pad :=
  match goal with
  | H : sextet _ = "="%char |- _ => exfalso; exact (proj1 (sextet_plain _) H)
  | H : "="%char = sextet _ |- _ => exfalso; exact (proj1 (sextet_plain _) (eq_sym H))
  end.

Lemma base64_inj_upto k : forall s1 s2,
  (String.length s1 <= k)%nat -> base64 s1 = base64 s2 -> s1 = s2.
Proof.
  induction k as [|k IH]; intros s1 s2 Hlen Heq.
  - destruct s1; [|cbn in Hlen; lia].
    destruct s2 as [|a' [|b' [|c' rest']]]; [done|discriminate..].
  - destruct s1 as [|a [|b [|c rest]]], s2 as [|a' [|b' [|c' rest']]];
      cbn [base64] in Heq; cbv zeta in Heq; try done; try discriminate Heq.
    all: apply quad_eq in Heq as (E1 & E2 & E3 & E4 & E5); try absurd_pad.
    + by rewrite (block1_inj a a' E1 E2).
    + by destruct (block2_inj a b a' b' E1 E2 E3) as [-> ->].
    + destruct (block3_inj a b c a' b' c' E1 E2 E3 E4) as (-> & -> & ->).
      f_equal. f_equal. f_equal. apply IH; [cbn in Hlen; lia | done].
Qed.

Lemma base64_inj s1 s2 : base64 s1 = base64 s2 -> s1 = s2.
Proof. by apply (base64_inj_upto (String.length s1)). Qed.

Lemma base64_colon_free_upto k : forall s,
  (String.length s <= k)%nat -> includes (base64 s) ":" = false.
Proof.
  induction k as [|k IH]; intros s Hlen.
  - by destruct s; [|cbn in Hlen; lia].
  - destruct s as [|a [|b [|c rest]]]; [done|..]; cbn [base64]; cbv zeta.
    all: rewrite !includes_colon_cons.
    all: repeat match goal with
                | |- context [Ascii.eqb (sextet ?n) ":"] =>
                    rewrite (proj2 (Ascii.eqb_neq _ _) (proj2 (sextet_plain n)))
                end; cbn [orb].
    1,2: done.
    apply IH. cbn in Hlen. lia.
Qed.

Lemma slice_to_colon_free n : forall s,
  includes s ":" = false -> includes (slice_to n s) ":" = false.
Proof.
  induction n as [|n IH]; intros [|c s] H; try done.
  rewrite slice_to_cons. rewrite includes_colon_cons in *.
  apply orb_false_iff in H as [-> H]. by apply IH.
Qed.

Lemma length_slice_to n : forall s, (String.length (slice_to n s) <= n)%nat.
Proof.
  induction n as [|n IH]; intros [|c s]; cbn; try lia.
  specialize (IH s). unfold slice_to in IH. lia.
Qed.

Lemma base64_fits k : forall t,
  (String.length t <= 3 * k)%nat -> slice_to (4 * k) (base64 t) = base64 t.
Proof.
  induction k as [|k IH]; intros t Hlen.
  - by destruct t; [|cbn in Hlen; lia].
  - replace (4 * S k)%nat with (S (S (S (S (4 * k))))) by lia.
    destruct t as [|a [|b [|c rest]]]; [done|..]; cbn [base64]; cbv zeta.
    all: rewrite !slice_to_cons, ?slice_to_nil; try done.
    rewrite IH; [done|]. cbn in Hlen. lia.
Qed.

(** X15: two auction requests use the same cache key exactly when their
    summaries agree on the first 24 bytes and their country codes are equal:
    nothing but the truncation makes requests share an entry. *)
Theorem auction_key_characterisation s1 s2 cc1 cc2 :
  auctionCacheKey s1 cc1 = auctionCacheKey s2 cc2
  <-> slice_to 24 s1 = slice_to 24 s2 /\ cc1 = cc2.
Proof.
  split.
  - unfold auctionCacheKey. intros Heq. cbn in Heq. injection Heq as Heq.
    apply colon_split in Heq as [Hh ->].
    2,3: apply slice_to_colon_free, (base64_colon_free_upto _ _ (le_n _)).
    split; [|done].
    pose proof (base64_prefix 8 s1 (slice_to 24 s1)) as P1.
    pose proof (base64_prefix 8 s2 (slice_to 24 s2)) as P2.
    change (3 * 8)%nat with 24%nat in P1, P2. change (4 * 8)%nat with 32%nat in P1, P2.
    rewrite P1, P2 in Hh by (by rewrite slice_to_idem).
    pose proof (base64_fits 8 (slice_to 24 s1)) as F1.
    pose proof (base64_fits 8 (slice_to 24 s2)) as F2.
    change (4 * 8)%nat with 32%nat in F1, F2.
    rewrite F1, F2 in Hh by apply length_slice_to.
    by apply base64_inj.
  - intros [Hs ->]. by apply auctionCacheKey_prefix.
Qed.

Lemma getCacheKey_injective_without_colon_witness :
  includes "fp1" ":" = false
  /\ getCacheKey "fp1" "hw:1" = "yourinfo:profile:fp1:hw:1"
  /\ (forall cb2, getCacheKey "fp1" "hw:1" = getCacheKey "fp1" cb2 -> cb2 = "hw:1").
Proof.
  split; [reflexivity|]. split; [reflexivity|]. intros cb2 Heq.
  destruct getCacheKey_injective_without_colon as [Hinj _].
  destruct (Hinj "fp1" "hw:1" "fp1" cb2) as [_ Hcb]; [reflexivity | reflexivity | exact Heq|].
  by symmetry.
Defined.

Lemma auction_key_characterisation_witness :
  auctionCacheKey "Developer, premium device, Toronto" "CA"
  = auctionCacheKey "Developer, premium device, gamer" "CA"
  /\ slice_to 24 "Developer, premium device, Toronto"
     = slice_to 24 "Developer, premium device, gamer"
  /\ auctionCacheKey "Developer, premium device, Toronto" "CA"
     <> auctionCacheKey "Developer, budget device, Toronto" "CA".
Proof.
  assert (auctionCacheKey "Developer, premium device, Toronto" "CA"
          = auctionCacheKey "Developer, premium device, gamer" "CA") as Heq by reflexivity.
  split; [exact Heq|].
  split; [exact (proj1 (proj1 (auction_key_characterisation _ _ _ _) Heq))|].
  intros Hsame. apply auction_key_characterisation in Hsame as [Hslice _].
  vm_compute in Hslice. discriminate Hslice.
Defined.

(** ** Cleaning a provider answer *)

Lemma includes_cons c s p :
  includes (String c s) p = String.prefix p (String c s) || includes s p.
Proof. cbn [includes]. by destruct (String.prefix p (String c s)). Qed.

Lemma prefix_slashes c s :
  String.prefix "//" (String c s) = Ascii.eqb c "/" && startsWith s "/".
Proof.
  unfold startsWith. cbn [String.prefix].
  destruct (ascii_dec "/" c) as [<-|Hne]; [done|].
  by destruct (Ascii.eqb_spec c "/"); [congruence|].
Qed.

Lemma startsWith_slash_cons c s : startsWith (String c s) "/" = Ascii.eqb c "/".
Proof.
  unfold startsWith. cbn [String.prefix].
  destruct (ascii_dec "/" c) as [<-|Hne]; [by destruct s|].
  by destruct (Ascii.eqb_spec c "/"); [congruence|].
Qed.

Lemma strip_comments_head s :
  startsWith (strip_comments true s) "/" = false
  /\ (startsWith s "/" = false -> startsWith (strip_comments false s) "/" = false).
Proof.
  induction s as [|c s [IH1 IH2]]; [done|]. cbn [strip_comments]. split.
  - destruct (Ascii.eqb_spec c "010") as [->|_]; [done | exact IH1].
  - rewrite startsWith_slash_cons. intros Hc. rewrite Hc. cbn [andb].
    by rewrite startsWith_slash_cons.
Qed.

Lemma strip_comments_clean s :
  includes (strip_comments false s) "//" = false
  /\ includes (strip_comments true s) "//" = false.
Proof.
  induction s as [|c s [IH1 IH2]]; [done|]. cbn [strip_comments]. split.
  - destruct (Ascii.eqb c "/" && startsWith s "/") eqn:Hc; [exact IH2|].
    rewrite includes_cons, prefix_slashes, IH1, orb_false_r.
    destruct (Ascii.eqb c "/"); [|done]. cbn in *.
    by apply strip_comments_head.
  - destruct (Ascii.eqb_spec c "010") as [->|_]; [|exact IH2].
    by rewrite includes_cons, prefix_slashes, IH1.
Qed.

Lemma closes_after_ws_head s :
  closes_after_ws s = true -> startsWith (strip_trailing_commas true s) "/" = false.
Proof.
  induction s as [|c s IH]; [done|]. cbn [closes_after_ws strip_trailing_commas].
  destruct (is_ws c); [exact IH|]. rewrite startsWith_slash_cons.
  intros [H|H]%orb_prop; apply Ascii.eqb_eq in H; by subst.
Qed.

Lemma strip_trailing_commas_head s :
  startsWith s "/" = false -> startsWith (strip_trailing_commas false s) "/" = false.
Proof.
  destruct s as [|c s]; [done|]. cbn [strip_trailing_commas].
  rewrite startsWith_slash_cons. intros Hc.
  destruct (Ascii.eqb c "," && closes_after_ws s) eqn:Hd.
  - apply andb_prop in Hd as [_ Hd]. by apply closes_after_ws_head.
  - by rewrite startsWith_slash_cons.
Qed.

Lemma strip_trailing_commas_clean s :
  includes s "//" = false ->
  includes (strip_trailing_commas false s) "//" = false
  /\ includes (strip_trailing_commas true s) "//" = false.
Proof.
  induction s as [|c s IH]; [done|].
  rewrite includes_cons, prefix_slashes. intros [Hc Hs]%orb_false_elim.
  destruct (IH Hs) as [IH1 IH2]. cbn [strip_trailing_commas]. split.
  - destruct (Ascii.eqb c "," && closes_after_ws s); [exact IH2|].
    rewrite includes_cons, prefix_slashes, IH1, orb_false_r.
    destruct (Ascii.eqb c "/"); [|done]. cbn in *.
    by apply strip_trailing_commas_head.
  - destruct (is_ws c); [exact IH2|].
    rewrite includes_cons, prefix_slashes, IH1, orb_false_r.
    destruct (Ascii.eqb c "/"); [|done]. cbn in *.
    by apply strip_trailing_commas_head.
Qed.

(** X16: the text [parseAIResponse] hands to [JSON.parse] never contains
    [//]: the comment stripper cuts from every [//] to the end of its line,
    inside string values (a URL, say) as much as outside them, and removing
    trailing commas brings none back. *)
Theorem cleaned_response_has_no_comment response :
  includes (clean_response response) "//" = false.
Proof.
  unfold clean_response. cbv zeta.
  apply strip_trailing_commas_clean, strip_comments_clean.
Qed.

(** ** The shape of a profile *)

Lemma clamp_score_clamped E v : clamped (clamp_score E v).
Proof.
  unfold clamp_score, clamped, Math_min100, Math_max0.
  destruct (as_number E v) as [q| | |]; try done.
  split; [apply Q.min_glb; [done | apply Q.le_max_l] | apply Q.le_min_l].
Qed.

Lemma parseAIResponse_fields E response p :
  parseAIResponse E response = Some p ->
  Forall (fun k => is_Some (get_field p k)) coreFields
  /\ Forall (fun k => exists v, get_field p k = Some v /\ clamped v) scoreFields
  /\ exists b, get_field p "likelyDeveloper" = Some (JBool b).
Proof.
  unfold parseAIResponse. intros H.
  repeat case_match; try discriminate; injection H as <-.
  all: split; [repeat constructor; eexists; reflexivity|].
  all: split; [|eexists; reflexivity].
  all: repeat constructor; eexists; (split; [reflexivity | apply clamp_score_clamped]).
Qed.

Lemma min100_range a : 0 <= a -> 0 <= Z.min 100 a <= 100.
Proof. lia. Qed.

Lemma pts_nonneg c n : 0 <= n -> 0 <= pts c n.
Proof. destruct c; cbn; lia. Qed.

Lemma generateFallbackProfile_fields ci geo :
  Forall (fun k => is_Some (get_field (generateFallbackProfile ci geo) k)) coreFields
  /\ Forall (fun k => exists z, get_field (generateFallbackProfile ci geo) k = Some (jint z)
                                /\ 0 <= z <= 100) scoreFields
  /\ get_field (generateFallbackProfile ci geo) "aiGenerated" = Some (JBool false).
Proof.
  unfold generateFallbackProfile.
  assert (forall a b c, 0 <= Z.max 0 (100 - pts a 50 - pts b 30 - pts c 20) <= 100) as Hh.
  { intros [] [] []; cbn; lia. }
  destruct (_ || _ || test_any_ci _ _);
    [|destruct (_ || _); [|destruct (_ && _)]].
  all: split; [repeat constructor; eexists; reflexivity|].
  all: split; [|reflexivity].
  all: repeat constructor; eexists; (split; [reflexivity|]).
  all: try apply Hh.
  all: apply min100_range; repeat apply Z.add_nonneg_nonneg; try (by apply pts_nonneg); lia.
Qed.

(** X17: a profile [parseAIResponse] accepts carries the 22 fields of a
    [UserProfile], whatever the provider left out; [likelyDeveloper] is a
    boolean, and each of the seven scores is a number between 0 and 100, or
    [NaN] when the provider gave something that is no number. *)
Theorem parsed_profile_schema E response p :
  parseAIResponse E response = Some p ->
  Forall (fun k => is_Some (get_field p k)) coreFields
  /\ Forall (fun k => exists v, get_field p k = Some v /\ clamped v) scoreFields
  /\ exists b, get_field p "likelyDeveloper" = Some (JBool b).
Proof. apply parseAIResponse_fields. Qed.

(** X18: the rule-based profile carries the same 22 fields for every
    request, also an empty one; its seven scores are integers between 0 and
    100 and it is marked as not generated by a model. *)
Theorem fallback_profile_schema ci geo :
  Forall (fun k => is_Some (get_field (generateFallbackProfile ci geo) k)) coreFields
  /\ Forall (fun k => exists z, get_field (generateFallbackProfile ci geo) k = Some (jint z)
                                /\ 0 <= z <= 100) scoreFields
  /\ get_field (generateFallbackProfile ci geo) "aiGenerated" = Some (JBool false).
Proof. apply generateFallbackProfile_fields. Qed.

Lemma parsed_profile_schema_witness :
  exists p,
    parseAIResponse profileDemoEnv "<profile answer>" = Some p
    /\ get_field p "developerScore" = Some (jint 80)
    /\ Forall (fun k => is_Some (get_field p k)) coreFields.
Proof.
  eexists. split; [vm_compute; reflexivity|]. split; [reflexivity|].
  apply (parsed_profile_schema profileDemoEnv "<profile answer>"). vm_compute. reflexivity.
Defined.

(** ** What a run can return *)

Lemma returns_ret {A} (Q : A -> Prop) a : Q a -> returns Q (mret a).
Proof. intros HQ w a' w' [= <- _]. done. Qed.

Lemma returns_throw {A} (Q : A -> Prop) e : returns Q (throw e).
Proof. intros w a w' [=]. Qed.

Lemma returns_bind {A B} (P : A -> Prop) (Q : B -> Prop) (m : M A) (k : A -> M B) :
  returns P m -> (forall a, P a -> returns Q (k a)) -> returns Q (m ≫= k).
Proof.
  intros Hm Hk w b w'. unfold mbind, M_bind.
  destruct (m w) as [[a|e] w1] eqn:Hmw; [|done].
  intros Hb. exact (Hk a (Hm _ _ _ Hmw) _ _ _ Hb).
Qed.

Lemma returns_then {A B} (Q : B -> Prop) (m : M A) (k : A -> M B) :
  (forall a, returns Q (k a)) -> returns Q (m ≫= k).
Proof.
  intros Hk. apply (returns_bind (fun _ => True)); [done | intros a _; apply Hk].
Qed.

Lemma returns_try_catch {A} (Q : A -> Prop) (m : M A) (h : string -> M A) :
  returns Q m -> (forall e, returns Q (h e)) -> returns Q (try_catch m h).
Proof.
  intros Hm Hh w a w'. unfold try_catch.
  destruct (m w) as [[a1|e] w1] eqn:Hmw.
  - intros [= <- <-]. exact (Hm _ _ _ Hmw).
  - apply Hh.
Qed.

Lemma assoc_set_same k x l : assoc k (assoc_set k x l) = Some x.
Proof.
  induction l as [|[k' v] l IH]; cbn; [by rewrite String.eqb_refl|].
  destruct (String.eqb k k') eqn:Hk; cbn; rewrite Hk; done.
Qed.

Lemma assoc_set_other k k' x l : k' <> k -> assoc k' (assoc_set k x l) = assoc k' l.
Proof.
  intros Hne. apply String.eqb_neq in Hne.
  induction l as [|[k1 v] l IH]; cbn; [by rewrite Hne|].
  destruct (String.eqb k k1) eqn:Hk; cbn.
  - apply String.eqb_eq in Hk as <-. by rewrite Hne.
  - by destruct (String.eqb k' k1).
Qed.

Lemma tagged_fields p src fs :
  p = JObject fs ->
  get_field (tagged p src) "aiGenerated" = Some (JBool true)
  /\ get_field (tagged p src) "aiSource" = Some (JString src)
  /\ forall k, k <> "aiGenerated" -> k <> "aiSource" ->
               get_field (tagged p src) k = get_field p k.
Proof.
  intros ->. unfold tagged. cbn [set_field get_field]. split; [|split].
  - by rewrite assoc_set_other, assoc_set_same.
  - by rewrite assoc_set_same.
  - intros k H1 H2. by rewrite !assoc_set_other.
Qed.

Lemma tagged_truthy p src fs : p = JObject fs -> truthy (tagged p src) = true.
Proof. by intros ->. Qed.

Lemma ai_profile_truthy E v : ai_profile E v -> truthy v = true.
Proof.
  intros (text & p & src & Hp & _ & ->).
  destruct (parseAIResponse_object E text p Hp) as [fs ->]. done.
Qed.

Section Outcomes.

Variable E : Env.

Lemma returns_tryMiMo : returns (mimo_outcome E) (tryMiMo E).
Proof.
  unfold tryMiMo. destruct (negb _).
  { apply returns_ret. left. by split. }
  apply returns_try_catch.
  - apply returns_then. intros [[ok status] body]. destruct (negb ok).
    { apply returns_then. intros _. apply returns_ret. left. by split. }
    apply returns_then. intros mimoText. destruct (negb _).
    { apply returns_ret. left. by split. }
    destruct (parseAIResponse E _) as [p|] eqn:Hp.
    + apply returns_then. intros _. apply returns_ret. right. split; [|done].
      exists (default "" mimoText), p, "mimo". auto.
    + apply returns_ret. left. by split.
  - intros e. apply returns_ret. left. by split.
Qed.

Lemma returns_mimoOrFallback ci geo key err :
  (forall r, is_Some (mimo_error r) -> is_Some (err r)) ->
  returns (well_tagged E ci geo) (mimoOrFallback E ci geo key err).
Proof.
  intros Herr. unfold mimoOrFallback.
  apply (returns_bind (mimo_outcome E)); [apply returns_tryMiMo|].
  intros r Hr. destruct (truthy (mimo_profile r)) eqn:Ht.
  - apply returns_then. intros _. apply returns_ret. unfold well_tagged. cbn.
    destruct Hr as [[Hn _]|[Hai _]]; [by rewrite Hn in Ht | done].
  - apply returns_ret. unfold well_tagged. cbn. split; [|done].
    destruct Hr as [[_ He]|[Hai _]]; [by apply Herr|].
    apply ai_profile_truthy in Hai. congruence.
Qed.

Lemma returns_generateAIProfile ci geo :
  returns (well_tagged E ci geo) (generateAIProfile E ci geo).
Proof.
  unfold generateAIProfile. cbv zeta.
  apply returns_then. intros cached.
  destruct (truthy cached); [by apply returns_ret|].
  destruct (negb _ && negb _); [by apply returns_ret|].
  apply returns_then. intros allowed.
  destruct (negb allowed); [by apply returns_ret|].
  destruct (negb _); [by apply returns_mimoOrFallback|].
  apply returns_try_catch.
  - apply returns_then. intros [[ok status] body]. destruct (negb ok).
    { apply returns_then. intros _. by apply returns_mimoOrFallback. }
    apply returns_then. intros text. destruct (negb _).
    { by apply returns_mimoOrFallback. }
    destruct (parseAIResponse E _) as [p|] eqn:Hp.
    + apply returns_then. intros _. apply returns_then. intros _.
      apply returns_ret. unfold well_tagged. cbn. split; [done|].
      exists (default "" text), p, "grok". auto.
    + by apply returns_mimoOrFallback.
  - intros e. by apply returns_mimoOrFallback.
Qed.

End Outcomes.

Lemma coreFields_untagged :
  Forall (fun k => k <> "aiGenerated" /\ k <> "aiSource") coreFields.
Proof. repeat constructor; done. Qed.

Lemma scoreFields_untagged :
  Forall (fun k => k <> "aiGenerated" /\ k <> "aiSource") scoreFields.
Proof. repeat constructor; done. Qed.

(** X19: the tag of a result tells what the profile is.  A result tagged
    [ai] has no error text, its profile is a parsed provider answer marked
    [aiGenerated] with [aiSource] grok or mimo, with the 22 fields and
    clamped scores; a result tagged [fallback] always carries an error text
    and the rule-based profile, marked as not generated; a result tagged
    [cache] has no error text. *)
Theorem result_tagging E ci geo w res w' :
  generateAIProfile E ci geo w = (Ret res, w') ->
  match source res with
  | cache => error res = None
  | ai =>
      error res = None
      /\ get_field (profile res) "aiGenerated" = Some (JBool true)
      /\ (get_field (profile res) "aiSource" = Some (JString "grok")
          \/ get_field (profile res) "aiSource" = Some (JString "mimo"))
      /\ Forall (fun k => is_Some (get_field (profile res) k)) coreFields
      /\ Forall (fun k => exists v, get_field (profile res) k = Some v /\ clamped v)
                scoreFields
  | fallback =>
      is_Some (error res)
      /\ profile res = generateFallbackProfile ci geo
      /\ get_field (profile res) "aiGenerated" = Some (JBool false)
  end.
Proof.
  intros Hrun. pose proof (returns_generateAIProfile E ci geo w res w' Hrun) as Ht.
  unfold well_tagged in Ht. destruct (source res); [|done|].
  - destruct Ht as (He & text & p & src & Hp & Hsrc & ->). split; [done|].
    destruct (parseAIResponse_object E text p Hp) as [fs Hfs].
    destruct (tagged_fields p src fs Hfs) as (Hg & Hs & Hk).
    destruct (parseAIResponse_fields E text p Hp) as (Hcore & Hscore & _).
    split; [done|]. split; [rewrite Hs; destruct Hsrc as [-> | ->]; auto|].
    split.
    + eapply Forall_impl; [apply Forall_and; split; [exact Hcore | exact coreFields_untagged]|].
      cbn. intros k [Hc [H1 H2]]. by rewrite Hk.
    + eapply Forall_impl; [apply Forall_and; split; [exact Hscore | exact scoreFields_untagged]|].
      cbn. intros k [Hc [H1 H2]]. by rewrite Hk.
  - destruct Ht as [He ->]. split; [done|]. split; [done|].
    apply generateFallbackProfile_fields.
Qed.

Lemma parseAuctionResponse_shape E text r :
  parseAuctionResponse E text = Some r ->
  exists bids valueFactors,
    r = JObject [("bids", JArray bids); ("valueFactors", valueFactors);
                 ("source", JString "grok")].
Proof.
  unfold parseAuctionResponse. cbv zeta. intros H.
  repeat case_match; try discriminate; injection H as <-; by eexists _, _.
Qed.

Lemma returns_auctionAttempt E p src :
  returns (fun o => forall r, o = Some r ->
             exists bids valueFactors,
               r = JObject [("bids", JArray bids); ("valueFactors", valueFactors);
                            ("source", JString src)])
          (auctionAttempt E p src).
Proof.
  unfold auctionAttempt.
  apply returns_then. intros [[ok status] body].
  destruct (negb ok); [by apply returns_ret|].
  apply returns_then. intros text.
  destruct (negb _); [by apply returns_ret|].
  destruct (parseAuctionResponse E _) as [r|] eqn:Hp; [|by apply returns_ret].
  apply returns_then. intros _. apply returns_ret. intros r' [= <-].
  destruct (parseAuctionResponse_shape E _ r Hp) as (bids & vf & ->).
  by exists bids, vf.
Qed.

Lemma returns_tryMiMoAuction E :
  returns (fun o => forall r, o = Some r ->
             exists bids vf,
               r = JObject [("bids", JArray bids); ("valueFactors", vf);
                            ("source", JString "mimo")]
               /\ truthy_str (OPENROUTER_API_KEY E) = true)
          (tryMiMoAuction E).
Proof.
  unfold tryMiMoAuction.
  destruct (truthy_str (OPENROUTER_API_KEY E)) eqn:Hk; cbn [negb]; [|by apply returns_ret].
  apply returns_try_catch; [|intros; by apply returns_ret].
  intros w o w' Hrun r ->.
  destruct (returns_auctionAttempt E MiMo "mimo" w _ w' Hrun r eq_refl) as (bids & vf & ->).
  by exists bids, vf.
Qed.

(** X20: an auction result is either the truthy value found in the cache
    or an object with exactly the fields [bids] (an array), [valueFactors]
    and [source]: the source is grok or mimo, naming a configured provider
    (the [grok] that [parseAuctionResponse] writes is overwritten for MiMo),
    or it is fallback, with no bid and no value factor. *)
Theorem auction_result_shape E s country cc w r w' :
  generateAIAuction E s country cc w = (Ret r, w') ->
  ((getAuctionCache E (auctionCacheKey s cc) w).1 = Ret r /\ truthy r = true)
  \/ auction_shape E r.
Proof.
  unfold generateAIAuction. cbv zeta. unfold mbind at 1. unfold M_bind at 1.
  destruct (getAuctionCache E (auctionCacheKey s cc) w) as [[cached|e] w1] eqn:Hc; [|done].
  destruct (truthy cached) eqn:Ht.
  { intros [= <- _]. by left. }
  intros Hrun. right. revert Hrun.
  generalize w1 r w'. change (returns (auction_shape E) (
    fromGrok ←
      (if truthy_str (GROK_API_KEY E)
       then
        try_catch
          (result ← auctionAttempt E Grok "grok";
           match result with
           | Some r0 => setAuctionCache E (auctionCacheKey s cc) r0;; mret (Some r0)
           | None => mret None
           end) (λ _ : string, mret None)
       else mret None);
    match fromGrok with
    | Some r0 => mret r0
    | None =>
        mimoResult ← tryMiMoAuction E;
        match mimoResult with
        | Some r0 => setAuctionCache E (auctionCacheKey s cc) r0;; mret r0
        | None => mret auctionFallback
        end
    end)).
  apply (returns_bind (fun o => forall r, o = Some r ->
           exists bids vf, r = JObject [("bids", JArray bids); ("valueFactors", vf);
                                        ("source", JString "grok")]
                           /\ truthy_str (GROK_API_KEY E) = true)).
  - destruct (truthy_str (GROK_API_KEY E)) eqn:Hk; [|by apply returns_ret].
    apply returns_try_catch; [|intros; by apply returns_ret].
    eapply returns_bind; [apply returns_auctionAttempt|].
    intros [r0|] Hr0; [|by apply returns_ret].
    apply returns_then. intros _. apply returns_ret. intros r1 [= <-].
    destruct (Hr0 r0 eq_refl) as (bids & vf & ->). by exists bids, vf.
  - intros [r0|] Hr0.
    { apply returns_ret. destruct (Hr0 r0 eq_refl) as (bids & vf & -> & Hk).
      exists bids, vf, "grok". auto. }
    eapply returns_bind; [apply returns_tryMiMoAuction|].
    intros [r1|] Hr1.
    + apply returns_then. intros _. apply returns_ret.
      destruct (Hr1 r1 eq_refl) as (bids & vf & -> & Hk).
      exists bids, vf, "mimo". auto.
    + apply returns_ret. exists [], (JArray []), "fallback".
      split; [done|]. right. right. done.
Qed.

Ltac safe_step :=
  lazymatch goal with
  | |- forall _, _ => intros ?
  | |- nothrow (mret _) => apply nothrow_ret
  | |- nothrow (_ ≫= _) => apply nothrow_bind
  | |- nothrow (try_catch _ _) => apply nothrow_try_catch
  | |- nothrow (modify _) => apply nothrow_modify
  | |- nothrow (update_conn _ _) => apply nothrow_modify
  | |- nothrow get_world => intros ?; by eexists _, _
  | |- nothrow await => intros ?; by eexists _, _
  | |- nothrow (sleep _) => unfold sleep
  | |- nothrow (match ?x with _ => _ end) => destruct x
  end.

Lemma nothrow_trackAttempt E maxRetries attempt key :
  nothrow (trackAttempt E maxRetries attempt key).
Proof. unfold trackAttempt. repeat safe_step. Qed.

Lemma nothrow_trackLoop E turns : forall maxRetries attempt key,
  nothrow (trackLoop E turns maxRetries attempt key).
Proof.
  induction turns as [|turns IH]; intros; cbn [trackLoop]; [apply nothrow_ret|].
  apply nothrow_bind; [apply nothrow_trackAttempt|].
  intros [b|]; [apply nothrow_ret | apply IH].
Qed.

Lemma nothrow_countAttempt E maxRetries attempt : nothrow (countAttempt E maxRetries attempt).
Proof. unfold countAttempt. repeat safe_step. Qed.

Lemma nothrow_countLoop E turns : forall maxRetries attempt,
  nothrow (countLoop E turns maxRetries attempt).
Proof.
  induction turns as [|turns IH]; intros; cbn [countLoop]; [apply nothrow_ret|].
  apply nothrow_bind; [apply nothrow_countAttempt|].
  intros [b|]; [apply nothrow_ret | apply IH].
Qed.

Lemma returns_client_sCard E c key : returns (fun n => 0 <= n) (client_sCard E c key).
Proof.
  unfold client_sCard. do 3 (apply returns_then; intros ?).
  destruct (command_ok E _); [|apply returns_throw].
  apply returns_then. intros w. apply returns_ret. lia.
Qed.

Lemma returns_countAttempt E maxRetries attempt :
  returns (fun o => forall n, o = Some n -> 0 <= n) (countAttempt E maxRetries attempt).
Proof.
  unfold countAttempt. apply returns_try_catch.
  - apply returns_then. intros [r|].
    + eapply returns_bind; [apply returns_client_sCard|].
      intros n Hn. apply returns_ret. by intros ? [= <-].
    + destruct (_ <? _).
      * apply returns_then. intros _. by apply returns_ret.
      * apply returns_ret. intros ? [= <-]. done.
  - intros e. apply returns_then. intros _. by apply returns_ret.
Qed.

Lemma returns_countLoop E turns : forall maxRetries attempt,
  returns (fun n => 0 <= n) (countLoop E turns maxRetries attempt).
Proof.
  induction turns as [|turns IH]; intros; cbn [countLoop]; [by apply returns_ret|].
  eapply returns_bind; [apply returns_countAttempt|].
  intros [n|] Hn; [apply returns_ret; by apply Hn | apply IH].
Qed.

(** X21: the two tracking exports never throw, whatever Redis does:
    [trackUniqueVisitor] always returns a boolean and
    [getTotalUniqueVisitors] a number that is not negative. *)
Theorem tracking_never_throws E w :
  (forall fp cb, exists seen w', trackUniqueVisitor E fp cb w = (Ret seen, w'))
  /\ exists n w', getTotalUniqueVisitors E w = (Ret n, w') /\ 0 <= n.
Proof.
  split.
  - intros fp cb. exact (nothrow_trackLoop E _ _ _ _ w).
  - destruct (nothrow_countLoop E (Z.to_nat 2) 2 1 w) as (n & w' & Hn).
    exists n, w'. split; [exact Hn|].
    exact (returns_countLoop E _ _ _ w n w' Hn).
Qed.

Lemma result_tagging_witness :
  exists res w',
    generateAIProfile profileDemoEnv (visitor (Some "fp1") (Some "hw1")) None (boot ∅ ∅)
    = (Ret res, w')
    /\ source res = ai
    /\ get_field (profile res) "aiGenerated" = Some (JBool true).
Proof.
  destruct (nothrow_generateAIProfile profileDemoEnv (visitor (Some "fp1") (Some "hw1")) None
              (boot ∅ ∅)) as (res & w' & Hrun).
  exists res, w'. split; [exact Hrun|].
  pose proof (result_tagging _ _ _ _ _ _ Hrun) as H.
  assert (source res = ai) as Hs by (vm_compute in Hrun; by injection Hrun as <- _).
  split; [exact Hs|]. rewrite Hs in H. exact (proj1 (proj2 H)).
Defined.

Lemma auction_result_shape_witness :
  exists r w',
    generateAIAuction auctionDemoEnv "Developer, premium device, Toronto" "Canada" "CA"
                      (boot ∅ ∅) = (Ret r, w')
    /\ auction_shape auctionDemoEnv r.
Proof.
  destruct (nothrow_generateAIAuction auctionDemoEnv "Developer, premium device, Toronto"
              "Canada" "CA" (boot ∅ ∅)) as (r & w' & Hrun).
  exists r, w'. split; [exact Hrun|].
  destruct (auction_result_shape _ _ _ _ _ _ _ Hrun) as [[Hc _]|Hs]; [|exact Hs].
  vm_compute in Hrun. injection Hrun as <- _. vm_compute in Hc. discriminate Hc.
Defined.

(** ** Checks against the limiter *)

Lemma rate_checks_app l1 l2 : rate_checks (l1 ++ l2) = rate_checks l1 ++ rate_checks l2.
Proof. apply omap_app. Qed.

Lemma rate_checks_none l : Forall no_rate_check l -> rate_checks l = [].
Proof.
  induction 1 as [|e l He _ IH]; [done|].
  unfold rate_checks in *. cbn. rewrite IH. by destruct e.
Qed.

Lemma providerChain_no_rate_check E ci geo key :
  preserves (steady userRateLimits no_rate_check) (providerChain E ci geo key).
Proof. unfold providerChain, mimoOrFallback, tryMiMo. frame. Qed.

Lemma checkRateLimitM_run E userId w :
  checkRateLimitM E userId w
  = (Ret (checkRateLimit (clock E (tick w)) userId (userRateLimits w)).1,
     set_userRateLimits (checkRateLimit (clock E (tick w)) userId (userRateLimits w)).2
                        (log (EvRateCheck userId) w)).
Proof. done. Qed.

(** X22: a profile request is checked against the limiter at most once.
    A request served from the cache, and any request made while no provider
    is configured, is not checked and leaves the rate-limit map as it was;
    every other request is checked exactly once, for its own bucket, with
    the effect of one [checkRateLimit] on the map, and when that check
    refuses, the result is the fallback with the error [Rate limited]. *)
Theorem rate_slot_accounting E ci geo w res w' :
  generateAIProfile E ci geo w = (Ret res, w') ->
  let userId := str_or (fingerprintId ci) "unknown" +:+ ":"
                +:+ str_or (crossBrowserId ci) "unknown" in
  exists evs,
    trace w' = trace w ++ evs
    /\ (source res = cache \/ ~ configured E ->
        userRateLimits w' = userRateLimits w /\ rate_checks evs = [])
    /\ (source res <> cache -> configured E ->
        rate_checks evs = [userId]
        /\ exists now,
             userRateLimits w' = (checkRateLimit now userId (userRateLimits w)).2
             /\ ((checkRateLimit now userId (userRateLimits w)).1 = false ->
                 source res = fallback /\ error res = Some "Rate limited")).
Proof.
  intros Hrun userId. rewrite generateAIProfile_gates in Hrun. cbv zeta in Hrun.
  fold userId in Hrun. revert Hrun. unfold mbind at 1. unfold M_bind at 1.
  set (key := getCacheKey _ _).
  pose proof (steady_getCachedProfile E userRateLimits no_rate_check key I I w) as [Hrl Hev].
  destruct (getCachedProfile E key w) as [[cached|e] w1]; [|done].
  cbn [snd] in Hrl, Hev. destruct Hev as (evs1 & Htr1 & Hq1).
  destruct (truthy cached) eqn:Ht.
  { intros [= <- <-]. exists evs1. split; [done|]. cbn [source]. split; [|done].
    intros _. split; [done | by apply rate_checks_none]. }
  destruct (negb _ && negb _) eqn:Hcfg.
  { intros [= <- <-]. exists evs1. split; [done|]. cbn [source].
    split; [intros _; split; [done | by apply rate_checks_none]|].
    intros _ Hc. by rewrite configured_gate in Hcfg. }
  assert (configured E) as Hconf.
  { unfold configured. apply andb_false_iff in Hcfg as [H|H]; apply negb_false_iff in H; auto. }
  unfold mbind at 1. unfold M_bind at 1. rewrite checkRateLimitM_run.
  set (now := clock E (tick w1)). rewrite Hrl.
  destruct (checkRateLimit now userId (userRateLimits w)) as [allowed limits] eqn:Hchk.
  cbn [fst snd]. destruct allowed; cbn [negb].
  - set (w2 := set_userRateLimits limits (log (EvRateCheck userId) w1)).
    pose proof (providerChain_no_rate_check E ci geo key w2) as [Hrl2 (evs2 & Htr2 & Hq2)].
    destruct (providerChain_spec E ci geo key w2) as (res' & w'' & Hp & _ & Hsrc & _).
    rewrite Hp in Hrl2, Htr2 |- *. cbn [snd] in Hrl2, Htr2. intros [= <- <-].
    exists (evs1 ++ [EvRateCheck userId] ++ evs2).
    split; [rewrite Htr2; cbn; rewrite Htr1; by rewrite <- !app_assoc|].
    split; [intros [?|?]; done|]. intros _ _.
    split.
    + rewrite !rate_checks_app, (rate_checks_none evs1), (rate_checks_none evs2); done.
    + exists now. rewrite Hchk. cbn [fst snd]. split; [by rewrite Hrl2 | done].
  - intros [= <- <-]. exists (evs1 ++ [EvRateCheck userId]).
    split; [cbn; rewrite Htr1; by rewrite <- app_assoc|].
    cbn [source error]. split; [intros [?|?]; done|]. intros _ _. split.
    + rewrite rate_checks_app, (rate_checks_none evs1); done.
    + exists now. rewrite Hchk. done.
Qed.

Lemma rate_slot_accounting_witness :
  exists res w' evs,
    generateAIProfile profileDemoEnv (visitor (Some "fp1") (Some "hw1")) None (boot ∅ ∅)
    = (Ret res, w')
    /\ source res = ai /\ configured profileDemoEnv
    /\ trace w' = evs /\ rate_checks evs = ["fp1:hw1"].
Proof.
  destruct (nothrow_generateAIProfile profileDemoEnv (visitor (Some "fp1") (Some "hw1")) None
              (boot ∅ ∅)) as (res & w' & Hrun).
  assert (configured profileDemoEnv) as Hc by (by left).
  assert (source res = ai) as Hs by (vm_compute in Hrun; by injection Hrun as <- _).
  destruct (rate_slot_accounting _ _ _ _ _ _ Hrun) as (evs & Htr & _ & Hchk).
  exists res, w', evs. split; [exact Hrun|]. split; [exact Hs|]. split; [exact Hc|].
  split; [exact Htr|]. destruct Hchk as [Hr _]; [by rewrite Hs | exact Hc | exact Hr].
Defined.

(** ** Provider calls *)

Lemma fetches_app l1 l2 : fetches (l1 ++ l2) = fetches l1 ++ fetches l2.
Proof. apply omap_app. Qed.

Lemma fetches_after_grok l : Forall after_grok l -> fetches l = [].
Proof.
  induction 1 as [|e l He _ IH]; [done|].
  unfold fetches in *. cbn. rewrite IH. by destruct e.
Qed.

Lemma store_event_after_grok l : Forall store_event l -> Forall after_grok l.
Proof. intros H. eapply Forall_impl; [exact H|]. by intros []. Qed.

Lemma tryMiMo_calls E w :
  exists r w' evs, tryMiMo E w = (Ret r, w') /\ trace w' = trace w ++ evs /\ mimo_call E evs
    /\ (evs = [] -> mimo_profile r = JNull).
Proof.
  unfold tryMiMo, mimo_call, keyed.
  destruct (truthy_str (OPENROUTER_API_KEY E)); cbn [negb].
  2:{ eexists _, _, []. rewrite app_nil_r. split; [reflexivity|]. split; [done|].
      split; [by left | done]. }
  run.
  destruct (fetch_result E MiMo _) as [err|ok st body]; cbn.
  { eexists _, _, _. split; [reflexivity|]. split; [reflexivity|].
    split; [right; split; [done|]; by eexists | done]. }
  destruct ok, body as [| |content]; cbn;
    try (eexists _, _, _; split; [reflexivity|]; split; [reflexivity|];
         split; [right; split; [done|]; by eexists | done]).
  destruct (truthy_str content); cbn.
  2:{ eexists _, _, _; split; [reflexivity|]; split; [reflexivity|];
      split; [right; split; [done|]; by eexists | done]. }
  destruct (parseAIResponse E _) as [p|] eqn:Hp; cbn.
  2:{ eexists _, _, _; split; [reflexivity|]; split; [reflexivity|];
      split; [right; split; [done|]; by eexists | done]. }
  eexists _, _, _; split; [reflexivity|]. split; [cbn; by rewrite <- app_assoc|].
  split; [|done]. right. split; [done|]. eexists. split; [reflexivity|].
  by repeat constructor.
Qed.

Lemma mimo_call_then E evs post :
  mimo_call E evs -> evs <> [] -> Forall after_grok post -> mimo_call E (evs ++ post).
Proof.
  intros [[_ ->]|(Hk & rest & -> & Hrest)] Hne Hpost; [done|].
  right. split; [done|]. exists (rest ++ post). split; [done | by apply Forall_app].
Qed.

Lemma mimoOrFallback_calls E ci geo key err w :
  exists res w' evs, mimoOrFallback E ci geo key err w = (Ret res, w')
    /\ trace w' = trace w ++ evs /\ mimo_call E evs.
Proof.
  unfold mimoOrFallback. unfold mbind at 1, M_bind at 1.
  destruct (tryMiMo_calls E w) as (r & w1 & evs & -> & Htr & Hc & Hnull).
  destruct (truthy (mimo_profile r)) eqn:Ht.
  2:{ eexists _, _, evs. split; [reflexivity|]. done. }
  unfold mbind, M_bind.
  destruct (cacheProfile_spec E key (mimo_profile r) w1) as (w2 & post & -> & Htr2 & Hpost & _).
  eexists _, _, (evs ++ EvCacheProfile key (mimo_profile r) :: post).
  split; [reflexivity|]. split; [by rewrite Htr2, Htr, <- app_assoc|].
  apply mimo_call_then; [done| |].
  - intros ->. by rewrite Hnull in Ht.
  - constructor; [done | by apply store_event_after_grok].
Qed.

Lemma providerChain_calls E ci geo key w :
  exists res w' evs, providerChain E ci geo key w = (Ret res, w')
    /\ trace w' = trace w ++ evs /\ chain_calls E evs.
Proof.
  unfold providerChain, chain_calls, keyed.
  destruct (truthy_str (GROK_API_KEY E)); cbn [negb].
  2:{ destruct (mimoOrFallback_calls E ci geo key mimo_error w) as (res & w' & evs & H & Htr & Hc).
      exists res, w', evs. split; [done|]. split; [done|]. by left. }
  assert (forall err (w1 : World), trace w1 = trace w ++ [EvFetch Grok] ->
            exists res w' evs, mimoOrFallback E ci geo key err w1 = (Ret res, w')
              /\ trace w' = trace w ++ evs
              /\ (true = false /\ mimo_call E evs
                  \/ true = true
                     /\ exists rest, evs = EvFetch Grok :: rest
                          /\ ((exists v rest', rest = EvAccepted Grok v :: rest'
                                              /\ Forall after_grok rest')
                              \/ mimo_call E rest))) as Hm.
  { intros err w1 Htr1.
    destruct (mimoOrFallback_calls E ci geo key err w1) as (res & w' & evs & H & Htr & Hc).
    exists res, w', (EvFetch Grok :: evs). split; [done|].
    split; [by rewrite Htr, Htr1, <- app_assoc|]. right. split; [done|].
    exists evs. split; [done | by right]. }
  run.
  destruct (fetch_result E Grok _) as [err|ok st body]; cbn.
  { by apply Hm. }
  destruct ok; cbn.
  2:{ destruct body; cbn.
      - by apply Hm.
      - edestruct Hm as (res & w' & evs & -> & H); [|by exists res, w', evs]. done.
      - edestruct Hm as (res & w' & evs & -> & H); [|by exists res, w', evs]. done. }
  destruct body as [| |content]; cbn; [by apply Hm..|].
  destruct (truthy_str content); cbn.
  2:{ edestruct Hm as (res & w' & evs & -> & H); [|by exists res, w', evs]. done. }
  destruct (parseAIResponse E _) as [p|]; cbn.
  2:{ edestruct Hm as (res & w' & evs & -> & H); [|by exists res, w', evs]. done. }
  match goal with
  | |- context [cacheProfile E key ?v ?w1] =>
      destruct (cacheProfile_spec E key v w1) as (w2 & post & -> & Htr2 & Hpost & _)
  end.
  eexists _, _, _. split; [reflexivity|]. cbn in Htr2.
  split; [rewrite Htr2; rewrite <- !app_assoc; reflexivity|].
  right. split; [done|]. eexists. split; [reflexivity|]. left.
  eexists _, _. split; [reflexivity|].
  constructor; [done | by apply store_event_after_grok].
Qed.

Lemma mimo_call_facts E evs :
  mimo_call E evs ->
  (fetches evs = [] \/ (fetches evs = [MiMo] /\ keyed E MiMo = true))
  /\ forall v, EvAccepted Grok v ∉ evs.
Proof.
  intros [[_ ->]|(Hk & rest & -> & Hrest)].
  - split; [by left|]. intros v Hin. by apply elem_of_nil in Hin.
  - split.
    + right. split; [|done]. change (fetches (EvFetch MiMo :: rest)) with (MiMo :: fetches rest).
      by rewrite fetches_after_grok.
    + intros v [Hin|Hin]%elem_of_cons; [done|].
      rewrite Forall_forall in Hrest. by apply Hrest in Hin.
Qed.

Lemma chain_calls_facts E evs :
  chain_calls E evs ->
  call_pattern (fetches evs)
  /\ Forall (fun p => keyed E p = true) (fetches evs)
  /\ (forall v, EvAccepted Grok v ∈ evs -> fetches evs = [Grok]).
Proof.
  unfold call_pattern.
  intros [[_ Hm]|(Hk & rest & -> & [(v & rest' & -> & Hrest)|Hm])].
  - destruct (mimo_call_facts E evs Hm) as [[->|[-> Hk]] Hno].
    + split; [by left|]. split; [done|]. intros v Hin. by apply Hno in Hin.
    + split; [right; right; by left|]. split; [by repeat constructor|].
      intros v Hin. by apply Hno in Hin.
  - change (fetches (EvFetch Grok :: EvAccepted Grok v :: rest')) with (Grok :: fetches rest').
    rewrite fetches_after_grok by done.
    split; [right; by left|]. split; [by repeat constructor | done].
  - change (fetches (EvFetch Grok :: rest)) with (Grok :: fetches rest).
    destruct (mimo_call_facts E rest Hm) as [[->|[-> Hk']] Hno].
    + split; [right; by left|]. split; [by repeat constructor | done].
    + split; [right; right; by right|]. split; [by repeat constructor|].
      intros v [Hin|Hin]%elem_of_cons; [done | by apply Hno in Hin].
Qed.

Lemma calls_after_prefix E pre evs :
  Forall after_grok pre ->
  call_pattern (fetches evs)
  /\ Forall (fun p => keyed E p = true) (fetches evs)
  /\ (forall v, EvAccepted Grok v ∈ evs -> fetches evs = [Grok]) ->
  call_pattern (fetches (pre ++ evs))
  /\ Forall (fun p => keyed E p = true) (fetches (pre ++ evs))
  /\ (forall v, EvAccepted Grok v ∈ pre ++ evs -> fetches (pre ++ evs) = [Grok]).
Proof.
  intros Hpre (H1 & H2 & H3). rewrite fetches_app, fetches_after_grok by done. cbn.
  split; [done|]. split; [done|].
  intros v [Hin|Hin]%elem_of_app; [|by apply H3 in Hin].
  rewrite Forall_forall in Hpre. by apply Hpre in Hin.
Qed.

Lemma no_calls E :
  call_pattern (fetches [])
  /\ Forall (fun p => keyed E p = true) (fetches [])
  /\ (forall v, EvAccepted Grok v ∈ @nil Event -> fetches [] = [Grok]).
Proof.
  split; [by left|]. split; [done|]. intros v Hin. by apply elem_of_nil in Hin.
Qed.

(** X23: a profile request calls each provider at most once, Grok before
    MiMo, and only providers whose key is configured; a request served from
    the cache calls none; and once an answer of Grok has been accepted MiMo
    is not called. *)
Theorem profile_provider_calls E ci geo w res w' :
  generateAIProfile E ci geo w = (Ret res, w') ->
  exists evs,
    trace w' = trace w ++ evs
    /\ call_pattern (fetches evs)
    /\ Forall (fun p => keyed E p = true) (fetches evs)
    /\ (forall v, EvAccepted Grok v ∈ evs -> fetches evs = [Grok])
    /\ (source res = cache -> fetches evs = []).
Proof.
  intros Hrun. rewrite generateAIProfile_gates in Hrun. cbv zeta in Hrun.
  revert Hrun. unfold mbind at 1. unfold M_bind at 1.
  set (key := getCacheKey _ _). set (userId := _ +:+ ":" +:+ _).
  pose proof (steady_getCachedProfile E nothing after_grok key I I w) as [_ Hev].
  destruct (getCachedProfile E key w) as [[cached|e] w1]; [|done].
  cbn [snd] in Hev. destruct Hev as (evs1 & Htr1 & Hq1).
  assert (forall evs, fetches (evs1 ++ evs) = fetches evs) as Hpre
    by (intros; by rewrite fetches_app, fetches_after_grok).
  destruct (truthy cached) eqn:Ht.
  { intros [= <- <-]. exists evs1. split; [done|].
    rewrite <- (app_nil_r evs1).
    destruct (calls_after_prefix E evs1 [] Hq1 (no_calls E)) as (H1 & H2 & H3).
    split; [done|]. split; [done|]. split; [done|]. intros _. by rewrite Hpre. }
  destruct (negb _ && negb _) eqn:Hcfg.
  { intros [= <- <-]. exists evs1. split; [done|].
    rewrite <- (app_nil_r evs1).
    destruct (calls_after_prefix E evs1 [] Hq1 (no_calls E)) as (H1 & H2 & H3).
    split; [done|]. split; [done|]. split; [done|]. intros _. by rewrite Hpre. }
  unfold mbind at 1. unfold M_bind at 1. unfold checkRateLimitM.
  cbn [mbind M_bind emit modify Date_now get_world mret M_ret].
  run. cbn [fst snd].
  destruct (checkRateLimit _ userId (userRateLimits w1)) as [allowed limits].
  cbn [fst snd]. destruct allowed; cbn [negb].
  - match goal with
    | |- providerChain E ci geo key ?w2 = _ -> _ =>
        destruct (providerChain_calls E ci geo key w2)
          as (res' & w'' & evs2 & Hrun2 & Htr2 & Hc);
        destruct (providerChain_spec E ci geo key w2) as (r0 & w0 & Hp & _ & Hsrc & _)
    end.
    rewrite Hrun2 in Hp |- *. injection Hp as <- <-.
    intros [= <- <-]. cbn in Htr2.
    exists (evs1 ++ EvRateCheck userId :: evs2).
    split; [rewrite Htr2, Htr1; by rewrite <- !app_assoc|].
    change (evs1 ++ EvRateCheck userId :: evs2)
      with (evs1 ++ [EvRateCheck userId] ++ evs2).
    rewrite app_assoc.
    destruct (calls_after_prefix E (evs1 ++ [EvRateCheck userId]) evs2) as (H1 & H2 & H3).
    { apply Forall_app. split; [done | by repeat constructor]. }
    { by apply chain_calls_facts. }
    split; [done|]. split; [done|]. split; [done|].
    intros Hcache. done.
  - intros [= <- <-]. exists (evs1 ++ [EvRateCheck userId]).
    split; [cbn; rewrite Htr1; by rewrite <- app_assoc|].
    rewrite <- (app_nil_r (evs1 ++ _)).
    destruct (calls_after_prefix E (evs1 ++ [EvRateCheck userId]) [])
      as (H1 & H2 & H3); [|apply no_calls|].
    { apply Forall_app. split; [done | by repeat constructor]. }
    split; [done|]. split; [done|]. split; [done|]. done.
Qed.

Lemma setAuctionCache_after_grok E key v w :
  exists w' post, setAuctionCache E key v w = (Ret (), w')
    /\ trace w' = trace w ++ post /\ Forall after_grok post.
Proof.
  destruct (setAuctionCache_spec E key v w) as (w' & post & H & Htr & Hpost & _).
  exists w', (EvSetAuctionCache key v :: post). split; [done|]. split; [done|].
  constructor; [done | by apply store_event_after_grok].
Qed.

Lemma mimoAuctionTail_calls E key w :
  exists r w' evs, mimoAuctionTail E key w = (Ret r, w')
    /\ trace w' = trace w ++ evs /\ mimo_call E evs.
Proof.
  unfold mimoAuctionTail, tryMiMoAuction, mimo_call, keyed.
  destruct (truthy_str (OPENROUTER_API_KEY E)); cbn [negb].
  2:{ exists auctionFallback, w, []. rewrite app_nil_r. split; [done|]. split; [done|].
      by left. }
  run.
  destruct (auctionAttempt_spec E MiMo "mimo" w)
    as (w1 & _ & [(e & -> & Htr)|[[-> Htr]|(r & -> & Htr)]]).
  1,2: exists auctionFallback, w1, [EvFetch MiMo]; (split; [done|]); (split; [done|]);
       right; (split; [done|]); by exists [].
  destruct (setAuctionCache_after_grok E key r w1) as (w2 & post & -> & Htr2 & Hpost).
  exists r, w2, (EvFetch MiMo :: EvAccepted MiMo r :: post).
  split; [done|]. split; [rewrite Htr2, Htr; by rewrite <- app_assoc|].
  right. split; [done|]. eexists. split; [reflexivity|]. by constructor.
Qed.

(** X24: the same for an auction request: each provider is called at most
    once, Grok before MiMo, only with its key configured; MiMo is not called
    once an answer of Grok has been accepted. *)
Theorem auction_provider_calls E s country cc w r w' :
  generateAIAuction E s country cc w = (Ret r, w') ->
  exists evs,
    trace w' = trace w ++ evs
    /\ call_pattern (fetches evs)
    /\ Forall (fun p => keyed E p = true) (fetches evs)
    /\ (forall v, EvAccepted Grok v ∈ evs -> fetches evs = [Grok]).
Proof.
  unfold generateAIAuction. set (key := auctionCacheKey s cc).
  pose proof (steady_getAuctionCache E nothing after_grok key I I w) as [_ Hev].
  unfold mbind at 1, M_bind at 1.
  destruct (getAuctionCache E key w) as [[cached|e] w1]; [|done].
  cbn [snd] in Hev. destruct Hev as (evs1 & Htr1 & Hq1).
  destruct (truthy cached).
  { intros [= <- <-]. exists evs1. split; [done|]. rewrite <- (app_nil_r evs1).
    apply (calls_after_prefix E evs1 [] Hq1 (no_calls E)). }
  fold (mimoAuctionTail E key).
  enough (exists r0 w0 evs, (fromGrok ←
      (if truthy_str (GROK_API_KEY E)
       then try_catch
              (result ← auctionAttempt E Grok "grok";
               match result with
               | Some r => setAuctionCache E key r;; mret (Some r)
               | None => mret None
               end) (λ _ : string, mret None)
       else mret None);
      match fromGrok with
      | Some r => mret r
      | None => mimoAuctionTail E key
      end) w1 = (Ret r0, w0) /\ trace w0 = trace w1 ++ evs /\ chain_calls E evs)
    as (r0 & w0 & evs & -> & Htr & Hc).
  { intros [= <- <-]. exists (evs1 ++ evs). split; [by rewrite Htr, Htr1, <- app_assoc|].
    apply calls_after_prefix; [done | by apply chain_calls_facts]. }
  unfold chain_calls, keyed.
  destruct (truthy_str (GROK_API_KEY E)).
  2:{ run. destruct (mimoAuctionTail_calls E key w1) as (r0 & w0 & evs & -> & Htr & Hc).
      exists r0, w0, evs. split; [done|]. split; [done|]. by left. }
  run.
  destruct (auctionAttempt_spec E Grok "grok" w1)
    as (w2 & _ & [(e & -> & Htr2)|[[-> Htr2]|(r1 & -> & Htr2)]]).
  1,2: destruct (mimoAuctionTail_calls E key w2) as (r0 & w0 & evs & -> & Htr & Hc);
       exists r0, w0, (EvFetch Grok :: evs); (split; [done|]);
       (split; [rewrite Htr, Htr2; by rewrite <- app_assoc|]);
       right; (split; [done|]); exists evs; (split; [done|]); by right.
  destruct (setAuctionCache_after_grok E key r1 w2) as (w3 & post & -> & Htr3 & Hpost).
  exists r1, w3, (EvFetch Grok :: EvAccepted Grok r1 :: post).
  split; [done|]. split; [rewrite Htr3, Htr2; by rewrite <- app_assoc|].
  right. split; [done|]. eexists. split; [reflexivity|]. left. by eexists _, _.
Qed.

Lemma profile_provider_calls_witness :
  exists res w',
    generateAIProfile offlineDemoEnv (visitor (Some "fp1") (Some "hw1")) None (boot ∅ ∅)
    = (Ret res, w')
    /\ fetches (trace w') = [Grok]
    /\ call_pattern (fetches (trace w')).
Proof.
  destruct (nothrow_generateAIProfile offlineDemoEnv (visitor (Some "fp1") (Some "hw1")) None
              (boot ∅ ∅)) as (res & w' & Hrun).
  exists res, w'. split; [exact Hrun|].
  destruct (profile_provider_calls _ _ _ _ _ _ Hrun) as (evs & Htr & Hp & _).
  cbn [trace boot app] in Htr. rewrite Htr. split; [|exact Hp].
  rewrite <- Htr. vm_compute in Hrun. by injection Hrun as _ <-.
Defined.

Lemma auction_provider_calls_witness :
  exists r w',
    generateAIAuction auctionDemoEnv "Developer, premium device, Toronto" "Canada" "CA"
                      (boot ∅ ∅) = (Ret r, w')
    /\ fetches (trace w') = [Grok]
    /\ call_pattern (fetches (trace w')).
Proof.
  destruct (nothrow_generateAIAuction auctionDemoEnv "Developer, premium device, Toronto"
              "Canada" "CA" (boot ∅ ∅)) as (r & w' & Hrun).
  exists r, w'. split; [exact Hrun|].
  destruct (auction_provider_calls _ _ _ _ _ _ _ Hrun) as (evs & Htr & Hp & _).
  cbn [trace boot app] in Htr. rewrite Htr. split; [|exact Hp].
  rewrite <- Htr. vm_compute in Hrun. by injection Hrun as _ <-.
Defined.

(** ** Commands that fail *)

Lemma getCachedProfile_cooling E key w :
  0 < lastError (cacheConn w) ->
  clock E (tick w) - lastError (cacheConn w) < REDIS_BACKOFF_MS ->
  getCachedProfile E key w = (Ret JNull, w).
Proof.
  intros Hpos Hin. unfold getCachedProfile, getRedis, try_catch, mbind, M_bind.
  by rewrite (acquire_cooling E CacheConn w Hpos Hin).
Qed.

Lemma cacheProfile_cooling E key v w :
  0 < lastError (cacheConn w) ->
  clock E (tick w) - lastError (cacheConn w) < REDIS_BACKOFF_MS ->
  cacheProfile E key v w = (Ret (), log (EvCacheProfile key v) w).
Proof.
  intros Hpos Hin. unfold cacheProfile, getRedis, try_catch, emit, modify, mbind, M_bind.
  by rewrite (acquire_cooling E CacheConn (log (EvCacheProfile key v) w) Hpos Hin).
Qed.

(** X25: an ['error'] event of the open cache client, reported while a
    lookup is pending, does not fail the lookup but stamps the last-error
    time: for the next five seconds every lookup misses and every write is
    dropped without a command being sent, although the connection is still
    open. *)
Theorem error_event_suspends_cache E key w :
  open_for_use (cacheConn w) ->
  error_event E CacheConn (S (tick w)) = true -> command_ok E (S (tick w)) = true ->
  0 < clock E (S (tick w)) ->
  exists w1,
    getCachedProfile E key w
    = (Ret (cached_value E (clock E (S (tick w))) (store_strings w !! key)), w1)
    /\ is_open (client (cacheConn w1)) = true
    /\ lastError (cacheConn w1) = clock E (S (tick w))
    /\ forall t key' v,
         clock E t - clock E (S (tick w)) < REDIS_BACKOFF_MS ->
         getCachedProfile E key' (set_tick t w1) = (Ret JNull, set_tick t w1)
         /\ cacheProfile E key' v (set_tick t w1)
            = (Ret (), log (EvCacheProfile key' v) (set_tick t w1)).
Proof.
  intros [Hl Ho] Herr Hok Hpos.
  assert (exists w1,
    getCachedProfile E key w
    = (Ret (cached_value E (clock E (S (tick w))) (store_strings w !! key)), w1)
    /\ is_open (client (cacheConn w1)) = true
    /\ lastError (cacheConn w1) = clock E (S (tick w))) as (w1 & Hg & Ho1 & Hl1).
  { unfold getCachedProfile, getRedis, try_catch. unfold mbind at 1, M_bind at 1.
    rewrite (acquire_open E CacheConn w Hl Ho).
    change (conn_of CacheConn w) with (cacheConn w).
    destruct (client (cacheConn w)) as [r|] eqn:Hr; [|done].
    unfold client_get. run. cbn. rewrite Herr, Hok. cbn.
    unfold cached_value.
    destruct (live _ _) as [s|]; cbn.
    - destruct (String.eqb s ""); cbn.
      + eexists. split; [reflexivity|]. cbn. by rewrite Hr.
      + destruct (JSON_parse E s); cbn; (eexists; split; [reflexivity|]; cbn; by rewrite Hr).
    - eexists. split; [reflexivity|]. cbn. by rewrite Hr. }
  exists w1. split; [done|]. split; [done|]. split; [done|].
  intros t key' v Hin. split.
  - apply getCachedProfile_cooling; cbn [cacheConn set_tick tick]; by rewrite Hl1.
  - apply cacheProfile_cooling; cbn [cacheConn set_tick tick]; by rewrite Hl1.
Qed.





Lemma error_event_suspends_cache_witness :
  open_for_use (cacheConn warmWorld)
  /\ error_event noisyEnv CacheConn (S (tick warmWorld)) = true
  /\ exists w1,
       getCachedProfile noisyEnv "yourinfo:profile:fp1:hw1" warmWorld
       = (Ret storedProfile, w1)
       /\ getCachedProfile noisyEnv "yourinfo:profile:fp1:hw1" (set_tick 3 w1)
          = (Ret JNull, set_tick 3 w1).
Proof.
  assert (open_for_use (cacheConn warmWorld)) as Ho by done.
  split; [exact Ho|]. split; [reflexivity|].
  destruct (error_event_suspends_cache noisyEnv "yourinfo:profile:fp1:hw1" warmWorld Ho)
    as (w1 & Hg & _ & _ & Hlater); [reflexivity | reflexivity | by vm_compute |].
  exists w1. split; [exact Hg|].
  apply (Hlater 3%nat "yourinfo:profile:fp1:hw1" JNull). by vm_compute.
Defined.


